(** * Constant-pool string editor: extraction, conversion and re-assembly

    A shallow embedding of the class-file helpers of [src/App.tsx]
    ([isValidString], [toJavaUnicode], [fromJavaUnicode],
    [extractStringsFromClass], [extractReadableStrings],
    [convertReferenceToConfig], [assembleClassFile]) and the properties the
    specification states about them.

    Conventions
    - a [Uint8Array] is a [list byte]; numbers read from it are [Z];
    - a JavaScript string is the list of its UTF-16 code units, each a [Z];
    - [DataView] reads are bounds-checked and raise [RangeError];
    - a function that can throw returns a [result]. *)

From Stdlib Require Import ZArith Lia List DecimalN.
From Stdlib.Strings Require Ascii String.
From Stdlib.Strings Require Import Byte.
From stdpp Require Import base list gmap.

Local Open Scope Z_scope.

(* ================================================================== *)
(** ** Bytes and typed arrays *)

(** The numeric value of an element of a [Uint8Array]. *)
Definition u8 (b : byte) : Z := Z.of_N (Byte.to_N b).

(** Storing a number into a [Uint8Array] keeps its low eight bits. *)
Definition to_u8 (v : Z) : byte :=
  default x00 (Byte.of_N (Z.to_N (v mod 256))).

(** [new Uint8Array(numbers)] *)
Definition Uint8Array_of (l : list Z) : list byte := map to_u8 l.

(** [arr.slice(from, to)]: both ends are clamped to the array. *)
Definition slice {A} (l : list A) (from to : Z) : list A :=
  take (Z.to_nat (to - from)) (drop (Z.to_nat from) l).

(** [arr.slice(from)] *)
Definition slice_from {A} (l : list A) (from : Z) : list A :=
  drop (Z.to_nat from) l.

(* ================================================================== *)
(** ** Exceptions *)

Inductive exn :=
| RangeError                 (* thrown by a DataView read out of bounds *)
| Error (msg : list Z).      (* [throw new Error(msg)] *)

(** [OutOfFuel] is the loop model running out of steps; the entry points
    give their loops enough fuel and never return it (see the totality
    lemmas). *)
Inductive result (A : Type) :=
| Ok (a : A)
| Throw (e : exn)
| OutOfFuel.
Arguments Ok {A} a.
Arguments Throw {A} e.
Arguments OutOfFuel {A}.

Definition rbind {A B} (r : result A) (k : A -> result B) : result B :=
  match r with
  | Ok a => k a
  | Throw e => Throw e
  | OutOfFuel => OutOfFuel
  end.

Definition rmap {A B} (f : A -> B) (r : result A) : result B :=
  rbind r (fun a => Ok (f a)).

(* ================================================================== *)
(** ** DataView reads (big-endian) *)

Definition byte_at (c : list byte) (off : Z) : result Z :=
  if off <? 0 then Throw RangeError
  else match c !! Z.to_nat off with
       | Some b => Ok (u8 b)
       | None => Throw RangeError
       end.

Definition getUint8 (c : list byte) (off : Z) : result Z := byte_at c off.

Definition getUint16 (c : list byte) (off : Z) : result Z :=
  rbind (byte_at c off) (fun hi =>
  rbind (byte_at c (off + 1)) (fun lo =>
  Ok (hi * 256 + lo))).

Definition getUint32 (c : list byte) (off : Z) : result Z :=
  rbind (byte_at c off) (fun b0 =>
  rbind (byte_at c (off + 1)) (fun b1 =>
  rbind (byte_at c (off + 2)) (fun b2 =>
  rbind (byte_at c (off + 3)) (fun b3 =>
  Ok (((b0 * 256 + b1) * 256 + b2) * 256 + b3))))).

(* ================================================================== *)
(** ** JavaScript strings *)

(** The code units of an ASCII literal. *)
Definition js (s : String.string) : list Z :=
  map (fun a => Z.of_N (Ascii.N_of_ascii a)) (String.list_ascii_of_string s).

Definition QUOTE : Z := 34.       (* the double quote character *)
Definition BACKSLASH : Z := 92.
Definition NEWLINE : Z := 10.

(** [s.startsWith(p)] *)
Fixpoint startsWith (p s : list Z) : bool :=
  match p, s with
  | [], _ => true
  | _ :: _, [] => false
  | a :: p', b :: s' => (a =? b) && startsWith p' s'
  end.

(** [s.includes(p)] *)
Fixpoint includes (p s : list Z) : bool :=
  startsWith p s ||
  match s with
  | [] => false
  | _ :: s' => includes p s'
  end.

(** [s.split('\n')]: always at least one piece. *)
Fixpoint split_lines (s : list Z) : list (list Z) :=
  match s with
  | [] => [[]]
  | c :: s' =>
      if c =? NEWLINE then [] :: split_lines s'
      else match split_lines s' with
           | l :: ls => (c :: l) :: ls
           | [] => [[c]]
           end
  end.

(** [s.padStart(n, fill)] for a one-character [fill]. *)
Definition padStart (n : nat) (fill : Z) (s : list Z) : list Z :=
  replicate (n - length s) fill ++ s.

(** *** Decimal numerals *)

Definition isDigit (c : Z) : bool := (48 <=? c) && (c <=? 57).

Fixpoint uint_chars (d : Decimal.uint) : list Z :=
  match d with
  | Decimal.Nil => []
  | Decimal.D0 d => 48 :: uint_chars d
  | Decimal.D1 d => 49 :: uint_chars d
  | Decimal.D2 d => 50 :: uint_chars d
  | Decimal.D3 d => 51 :: uint_chars d
  | Decimal.D4 d => 52 :: uint_chars d
  | Decimal.D5 d => 53 :: uint_chars d
  | Decimal.D6 d => 54 :: uint_chars d
  | Decimal.D7 d => 55 :: uint_chars d
  | Decimal.D8 d => 56 :: uint_chars d
  | Decimal.D9 d => 57 :: uint_chars d
  end.

(** [n.toString()] for a non-negative integer [n]. *)
Definition toString (n : Z) : list Z := uint_chars (N.to_uint (Z.to_N n)).

Definition digit_cons (c : Z) (d : Decimal.uint) : Decimal.uint :=
  match c - 48 with
  | 0 => Decimal.D0 d
  | 1 => Decimal.D1 d
  | 2 => Decimal.D2 d
  | 3 => Decimal.D3 d
  | 4 => Decimal.D4 d
  | 5 => Decimal.D5 d
  | 6 => Decimal.D6 d
  | 7 => Decimal.D7 d
  | 8 => Decimal.D8 d
  | _ => Decimal.D9 d
  end.

Fixpoint chars_uint (s : list Z) : Decimal.uint :=
  match s with
  | [] => Decimal.Nil
  | c :: s' => digit_cons c (chars_uint s')
  end.

(** [parseInt(s, 10)] on a non-empty run of decimal digits (the only
    strings the code passes are captures of [\d+]).  The value is kept
    exact.  JavaScript rounds it to a double: below 2^53 that is the same
    number, and from 2^53 on the double is at least 2^53, so a map keyed
    by the exact value has the same bindings as the map of the code at
    every key below 2^53.  The code looks up values of [stringIndex]
    only, which are below 2^16. *)
Definition parseInt (s : list Z) : Z := Z.of_N (N.of_uint (chars_uint s)).

(** *** Lower-case hexadecimal, for [code.toString(16)] with [code < 32] *)

Definition hex_digit (v : Z) : Z := if v <? 10 then 48 + v else 87 + v.

(** [code.toString(16)] for [0 <= code < 256] (one or two digits). *)
Definition toString16 (code : Z) : list Z :=
  if code <? 16 then [hex_digit code]
  else [hex_digit (code / 16); hex_digit (code mod 16)].

(* ================================================================== *)
(** ** UTF-8: [TextDecoder('utf-8').decode] and [TextEncoder.encode] *)

(** What the decoder does with a byte when no sequence is pending. *)
Inductive lead_action :=
| Emit (cp : Z)
| Need (n cp lower upper : Z)
| Bad.

Definition lead (b : Z) : lead_action :=
  if b <=? 0x7F then Emit b
  else if (0xC2 <=? b) && (b <=? 0xDF) then Need 1 (Z.land b 0x1F) 0x80 0xBF
  else if (0xE0 <=? b) && (b <=? 0xEF) then
    Need 2 (Z.land b 0xF)
         (if b =? 0xE0 then 0xA0 else 0x80) (if b =? 0xED then 0x9F else 0xBF)
  else if (0xF0 <=? b) && (b <=? 0xF4) then
    Need 3 (Z.land b 0x7)
         (if b =? 0xF0 then 0x90 else 0x80) (if b =? 0xF4 then 0x8F else 0xBF)
  else Bad.

(** The decoder of the Encoding Standard, in replacement mode.  [needed]
    counts the continuation bytes still expected; an unexpected byte ends
    the pending sequence with U+FFFD and is then looked at again as a
    lead byte. *)
Fixpoint utf8_decode_loop (bs : list Z) (cp needed lower upper : Z) : list Z :=
  match bs with
  | [] => if needed =? 0 then [] else [0xFFFD]
  | b :: bs' =>
      if needed =? 0 then
        match lead b with
        | Emit c => c :: utf8_decode_loop bs' 0 0 0x80 0xBF
        | Need n c lo hi => utf8_decode_loop bs' c n lo hi
        | Bad => 0xFFFD :: utf8_decode_loop bs' 0 0 0x80 0xBF
        end
      else if (lower <=? b) && (b <=? upper) then
        let cp' := Z.lor (Z.shiftl cp 6) (Z.land b 0x3F) in
        if needed =? 1 then cp' :: utf8_decode_loop bs' 0 0 0x80 0xBF
        else utf8_decode_loop bs' cp' (needed - 1) 0x80 0xBF
      else
        0xFFFD ::
        match lead b with
        | Emit c => c :: utf8_decode_loop bs' 0 0 0x80 0xBF
        | Need n c lo hi => utf8_decode_loop bs' c n lo hi
        | Bad => 0xFFFD :: utf8_decode_loop bs' 0 0 0x80 0xBF
        end
  end.

(** The UTF-16 code units of a code point. *)
Definition cp_units (cp : Z) : list Z :=
  if cp <? 0x10000 then [cp]
  else [0xD800 + Z.shiftr (cp - 0x10000) 10;
        0xDC00 + Z.land (cp - 0x10000) 0x3FF].

(** A leading byte-order mark is not part of the decoded text. *)
Definition strip_bom (cps : list Z) : list Z :=
  match cps with
  | c :: cps' => if c =? 0xFEFF then cps' else cps
  | [] => []
  end.

(** [decoder.decode(bytes)] *)
Definition decode (bytes : list byte) : list Z :=
  flat_map cp_units (strip_bom (utf8_decode_loop (map u8 bytes) 0 0 0x80 0xBF)).

Definition isHighSurrogate (c : Z) : bool := (0xD800 <=? c) && (c <=? 0xDBFF).
Definition isLowSurrogate (c : Z) : bool := (0xDC00 <=? c) && (c <=? 0xDFFF).

Definition pair_cp (hi lo : Z) : Z :=
  0x10000 + (hi - 0xD800) * 0x400 + (lo - 0xDC00).

(** The code points of a string; [lone] says what an unpaired surrogate
    becomes. *)
Fixpoint code_points_with (lone : Z -> Z) (s : list Z) : list Z :=
  match s with
  | [] => []
  | c :: s' =>
      if isHighSurrogate c then
        match s' with
        | d :: s'' =>
            if isLowSurrogate d then pair_cp c d :: code_points_with lone s''
            else lone c :: code_points_with lone s'
        | [] => [lone c]
        end
      else if isLowSurrogate c then lone c :: code_points_with lone s'
      else c :: code_points_with lone s'
  end.

(** The code points a [/u] regular expression sees. *)
Definition code_points : list Z -> list Z := code_points_with (fun c => c).

(** The scalar values the encoder sees (unpaired surrogates are replaced). *)
Definition scalar_values : list Z -> list Z :=
  code_points_with (fun _ => 0xFFFD).

Definition utf8_bytes (cp : Z) : list Z :=
  if cp <? 0x80 then [cp]
  else if cp <? 0x800 then
    [Z.lor 0xC0 (Z.shiftr cp 6); Z.lor 0x80 (Z.land cp 0x3F)]
  else if cp <? 0x10000 then
    [Z.lor 0xE0 (Z.shiftr cp 12);
     Z.lor 0x80 (Z.land (Z.shiftr cp 6) 0x3F);
     Z.lor 0x80 (Z.land cp 0x3F)]
  else
    [Z.lor 0xF0 (Z.shiftr cp 18);
     Z.lor 0x80 (Z.land (Z.shiftr cp 12) 0x3F);
     Z.lor 0x80 (Z.land (Z.shiftr cp 6) 0x3F);
     Z.lor 0x80 (Z.land cp 0x3F)].

(** [encoder.encode(text)] *)
Definition encode (text : list Z) : list byte :=
  Uint8Array_of (flat_map utf8_bytes (scalar_values text)).

(* ================================================================== *)
(** ** The eligibility filter *)

Import String.StringSyntax.
Local Open Scope string_scope.
Local Open Scope Z_scope.

Definition CONSTANT_Utf8 : Z := 1.
Definition CONSTANT_Integer : Z := 3.
Definition CONSTANT_Float : Z := 4.
Definition CONSTANT_Long : Z := 5.
Definition CONSTANT_Double : Z := 6.
Definition CONSTANT_Class : Z := 7.
Definition CONSTANT_String : Z := 8.
Definition CONSTANT_Fieldref : Z := 9.
Definition CONSTANT_Methodref : Z := 10.
Definition CONSTANT_InterfaceMethodref : Z := 11.
Definition CONSTANT_NameAndType : Z := 12.
Definition CONSTANT_MethodHandle : Z := 15.
Definition CONSTANT_MethodType : Z := 16.
Definition CONSTANT_Dynamic : Z := 17.
Definition CONSTANT_InvokeDynamic : Z := 18.
Definition CONSTANT_Module : Z := 19.
Definition CONSTANT_Package : Z := 20.

Definition lit_Ljava : list Z := Eval cbv in js "Ljava/".
Definition lit_lparen : list Z := Eval cbv in js "(".
Definition lit_rparen : list Z := Eval cbv in js ")".
Definition lit_unitV : list Z := Eval cbv in js "()V".
Definition lit_Exception : list Z := Eval cbv in js "Exception".
Definition lit_METAINF : list Z := Eval cbv in js "META-INF/".

Definition isAsciiLetter (c : Z) : bool :=
  ((65 <=? c) && (c <=? 90)) || ((97 <=? c) && (c <=? 122)).

Section Filter.

(** The Unicode property [\p{L}] (general category Letter) beyond ASCII
    is a table of the JavaScript engine; it is a parameter here. *)
Variable unicode_L : Z -> bool.

Definition isLetter (cp : Z) : bool :=
  if cp <? 128 then isAsciiLetter cp else unicode_L cp.

(** [/[\p{L}\d]/u.test(text)]: some code point is a letter or one of the
    digits 0-9. *)
Definition hasLetterOrDigit (text : list Z) : bool :=
  existsb (fun cp => isLetter cp || isDigit cp) (code_points text).

Definition isValidString (text : list Z) : bool :=
  if (length text <? 2)%nat then false
  else if startsWith lit_Ljava text then false
  else if startsWith lit_lparen text && includes lit_rparen text then false
  else if includes lit_unitV text then false
  else if includes lit_Exception text then false
  else if startsWith lit_METAINF text then false
  else hasLetterOrDigit text.

End Filter.

(* ================================================================== *)
(** ** Display escaping *)

Definition escape_char (c : Z) : list Z :=
  if c =? QUOTE then [BACKSLASH; QUOTE]
  else if c =? BACKSLASH then [BACKSLASH; BACKSLASH]
  else if c <? 32 then [BACKSLASH; 117] ++ padStart 4 48 (toString16 c)
  else [c].

(** [str.split('').map(...).join('')] *)
Definition toJavaUnicode (str : list Z) : list Z := flat_map escape_char str.

(** *** [JSON.parse] of a string literal *)

Definition hex_value (c : Z) : option Z :=
  if (48 <=? c) && (c <=? 57) then Some (c - 48)
  else if (97 <=? c) && (c <=? 102) then Some (c - 87)
  else if (65 <=? c) && (c <=? 70) then Some (c - 55)
  else None.

Definition hex4 (a b c d : Z) : option Z :=
  match hex_value a, hex_value b, hex_value c, hex_value d with
  | Some x, Some y, Some z, Some w => Some (((x * 16 + y) * 16 + z) * 16 + w)
  | _, _, _, _ => None
  end.

(** The single-character escapes of JSON. *)
Definition json_escape (e : Z) : option Z :=
  if e =? 34 then Some 34            (* backslash, double quote *)
  else if e =? 92 then Some 92       (* \\ *)
  else if e =? 47 then Some 47       (* \/ *)
  else if e =? 98 then Some 8        (* \b *)
  else if e =? 102 then Some 12      (* \f *)
  else if e =? 110 then Some 10      (* \n *)
  else if e =? 114 then Some 13      (* \r *)
  else if e =? 116 then Some 9       (* \t *)
  else None.

(** The characters of the JSON string literal whose text between the
    outer quotes is [s].  Parsing fails ([None]) on a control character,
    on a bad escape, on a backslash that would escape the closing quote,
    and on a quote inside [s]: the literal would end there and the rest,
    at least the closing quote, is not white space. *)
Fixpoint json_string_body (s : list Z) : option (list Z) :=
  match s with
  | [] => Some []
  | c :: s1 =>
      if c =? QUOTE then None
      else if c =? BACKSLASH then
        match s1 with
        | [] => None
        | e :: s2 =>
            if e =? 117 then
              match s2 with
              | h1 :: h2 :: h3 :: h4 :: s6 =>
                  match hex4 h1 h2 h3 h4, json_string_body s6 with
                  | Some v, Some r => Some (v :: r)
                  | _, _ => None
                  end
              | _ => None
              end
            else
              match json_escape e, json_string_body s2 with
              | Some v, Some r => Some (v :: r)
              | _, _ => None
              end
        end
      else if c <? 32 then None
      else
        match json_string_body s1 with
        | Some r => Some (c :: r)
        | None => None
        end
  end.

(** [try { return JSON.parse(Q + str + Q) } catch (e) { return str }],
    Q being the double quote character. *)
Definition fromJavaUnicode (str : list Z) : list Z :=
  match json_string_body str with
  | Some v => v
  | None => str
  end.

(* ================================================================== *)
(** ** The two line patterns

    In the comments of this part the double quote character of a regular
    expression is written Q, and VALUE is the starred group of the two
    alternatives [[^Q\\]] and [\\.] that both expressions capture between
    their quotes.  Both regular expressions are used with
    [line.match(regex)] without the [g] flag: the result is the leftmost
    match.  At a given start position each piece of the pattern can match
    in one way only (a digit is neither white space nor [=] nor [|]; the
    value run stops exactly at the first quote that is not preceded by a
    backslash of the run), so greedy matching never has to back off and
    the matchers below are the regular expressions; the section on the
    matchers proves them equal to the declarative patterns. *)

(** [\s] *)
Definition isSpace (c : Z) : bool :=
  ((9 <=? c) && (c <=? 13)) || (c =? 32) || (c =? 0xA0) || (c =? 0x1680) ||
  ((0x2000 <=? c) && (c <=? 0x200A)) || (c =? 0x2028) || (c =? 0x2029) ||
  (c =? 0x202F) || (c =? 0x205F) || (c =? 0x3000) || (c =? 0xFEFF).

(** The characters [.] does not match. *)
Definition isLineTerminator (c : Z) : bool :=
  (c =? 10) || (c =? 13) || (c =? 0x2028) || (c =? 0x2029).

(** [\s*] *)
Fixpoint skip_spaces (s : list Z) : list Z :=
  match s with
  | c :: s' => if isSpace c then skip_spaces s' else s
  | [] => []
  end.

(** The longest run of digits and what follows it; [\d+] is this run
    when it is not empty. *)
Fixpoint take_digits (s : list Z) : list Z * list Z :=
  match s with
  | c :: s' =>
      if isDigit c then let '(d, r) := take_digits s' in (c :: d, r)
      else ([], s)
  | [] => ([], [])
  end.

(** VALUE: the value and what follows it. *)
Fixpoint value_run (s : list Z) : list Z * list Z :=
  match s with
  | [] => ([], [])
  | c :: s1 =>
      if c =? QUOTE then ([], s)
      else if c =? BACKSLASH then
        match s1 with
        | [] => ([], s)
        | e :: s2 =>
            if isLineTerminator e then ([], s)
            else let '(v, r) := value_run s2 in (c :: e :: v, r)
        end
      else let '(v, r) := value_run s1 in (c :: v, r)
  end.

Definition lit_str_ : list Z := Eval cbv in js "str_".

(** [Q(VALUE)Q] at the head of [s]: the captured value. *)
Definition quoted_value (s : list Z) : option (list Z) :=
  match s with
  | c :: s1 =>
      if c =? QUOTE then
        match value_run s1 with
        | (v, q :: _) => if q =? QUOTE then Some v else None
        | (_, []) => None
        end
      else None
  | [] => None
  end.

(** [/str_(\d+)\s*=\s*Q(VALUE)Q/] anchored at the head of [s]. *)
Definition edit_match_here (s : list Z) : option (list Z * list Z) :=
  if startsWith lit_str_ s then
    let '(d, r) := take_digits (drop 4 s) in
    match d with
    | [] => None
    | _ :: _ =>
        match skip_spaces r with
        | c :: r' =>
            if c =? 61 then
              match quoted_value (skip_spaces r') with
              | Some v => Some (d, v)
              | None => None
              end
            else None
        | [] => None
        end
    end
  else None.

(** [/str_\s*(\d+)\s*\|\s*Q(VALUE)Q/] anchored at the head of [s]. *)
Definition ref_match_here (s : list Z) : option (list Z * list Z) :=
  if startsWith lit_str_ s then
    let '(d, r) := take_digits (skip_spaces (drop 4 s)) in
    match d with
    | [] => None
    | _ :: _ =>
        match skip_spaces r with
        | c :: r' =>
            if c =? 124 then
              match quoted_value (skip_spaces r') with
              | Some v => Some (d, v)
              | None => None
              end
            else None
        | [] => None
        end
    end
  else None.

(** [line.match(regex)]: the match at the leftmost position that has one;
    the result is the pair of captures (id digits, value). *)
Fixpoint search (here : list Z -> option (list Z * list Z)) (line : list Z)
  : option (list Z * list Z) :=
  match here line with
  | Some m => Some m
  | None =>
      match line with
      | [] => None
      | _ :: line' => search here line'
      end
  end.

Definition edit_match : list Z -> option (list Z * list Z) :=
  search edit_match_here.
Definition ref_match : list Z -> option (list Z * list Z) :=
  search ref_match_here.

(* ================================================================== *)
(** ** Walking the constant pool *)

(** One record per Utf8 entry a pass meets.  The log of these records is
    ghost state: no pass reads it, it only makes the order of the walk a
    value one can state theorems about.  [v_offset] is the offset of the
    entry's tag byte, [v_index] the pool index [i], [v_id] the value of
    [stringIndex] when the entry is met, i.e. the id the entry is given
    if [v_valid]. *)
Record visit := Visit {
  v_index : Z;
  v_offset : Z;
  v_text : list Z;
  v_valid : bool;
  v_id : Z
}.

Definition MAGIC : Z := 0xCAFEBABE.

Definition config_header (fileName : list Z) : list Z :=
  js "# Translation File: " ++ fileName ++ [NEWLINE] ++
  js "# Only edit text inside quotes " ++ [QUOTE] ++ js "..." ++ [QUOTE; NEWLINE] ++
  js "# Format: str_ID = " ++ [QUOTE] ++ js "Value" ++ [QUOTE; NEWLINE; NEWLINE].

Definition reference_header : list Z :=
  js "# RAW CONSTANT POOL (REFERENCE ONLY)" ++ [NEWLINE] ++
  js "# ID    | Value (UTF-8)" ++ [NEWLINE] ++
  js "# ------|--------------------------" ++ [NEWLINE].

(** A line of the config text. *)
Definition config_line (id : list Z) (value : list Z) : list Z :=
  js "str_" ++ id ++ js " = " ++ [QUOTE] ++ value ++ [QUOTE; NEWLINE].

(** A line of the reference text. *)
Definition reference_line (id : list Z) (value : list Z) : list Z :=
  js "str_" ++ id ++ js " | " ++ [QUOTE] ++ value ++ [QUOTE; NEWLINE].

Definition msg_not_class : list Z :=
  js "# ERROR: Not a valid Java Class File (Missing Magic Header)".
Definition msg_invalid_class : list Z := js "# Invalid Class File".
Definition msg_invalid_magic : list Z := js "Invalid Magic Header".
Definition msg_unknown_tag_extract (tag offset : Z) : list Z :=
  js "# ERROR: Unknown Constant Pool Tag " ++ toString tag ++
  js " at offset " ++ toString offset.
Definition msg_unknown_tag_assemble (tag : Z) : list Z :=
  js "Unknown Tag " ++ toString tag ++ js " during assembly".

(** The [switch] of [extractStringsFromClass]: the new [offset] and [i],
    or [None] for the [default] case. *)
Definition extract_switch (tag offset i : Z) : option (Z * Z) :=
  if (tag =? CONSTANT_Integer) || (tag =? CONSTANT_Float) ||
     (tag =? CONSTANT_Fieldref) || (tag =? CONSTANT_Methodref) ||
     (tag =? CONSTANT_InterfaceMethodref) || (tag =? CONSTANT_NameAndType) ||
     (tag =? CONSTANT_Dynamic) || (tag =? CONSTANT_InvokeDynamic)
  then Some (offset + 4, i)
  else if (tag =? CONSTANT_Long) || (tag =? CONSTANT_Double)
  then Some (offset + 8, i + 1)
  else if (tag =? CONSTANT_Class) || (tag =? CONSTANT_String) ||
          (tag =? CONSTANT_MethodType) || (tag =? CONSTANT_Module) ||
          (tag =? CONSTANT_Package)
  then Some (offset + 2, i)
  else if tag =? CONSTANT_MethodHandle
  then Some (offset + 3, i)
  else None.

(** The [switch] of [extractReadableStrings]; it has no [default] case:
    for any other tag nothing is skipped. *)
Definition readable_switch (tag offset i : Z) : Z * Z :=
  if (tag =? CONSTANT_Integer) || (tag =? CONSTANT_Float) ||
     (tag =? CONSTANT_Fieldref) || (tag =? CONSTANT_Methodref) ||
     (tag =? CONSTANT_InterfaceMethodref) || (tag =? CONSTANT_NameAndType) ||
     (tag =? CONSTANT_Dynamic) || (tag =? CONSTANT_InvokeDynamic)
  then (offset + 4, i)
  else if (tag =? CONSTANT_Long) || (tag =? CONSTANT_Double)
  then (offset + 8, i + 1)
  else if (tag =? CONSTANT_Class) || (tag =? CONSTANT_String) ||
          (tag =? CONSTANT_MethodType) || (tag =? CONSTANT_Module) ||
          (tag =? CONSTANT_Package)
  then (offset + 2, i)
  else if tag =? CONSTANT_MethodHandle
  then (offset + 3, i)
  else (offset, i).

(** The [switch] of [assembleClassFile]: [size] and the new [i], or
    [None] for the [default] case. *)
Definition assemble_switch (tag i : Z) : option (Z * Z) :=
  if (tag =? CONSTANT_Integer) || (tag =? CONSTANT_Float) ||
     (tag =? CONSTANT_Fieldref) || (tag =? CONSTANT_Methodref) ||
     (tag =? CONSTANT_InterfaceMethodref) || (tag =? CONSTANT_NameAndType) ||
     (tag =? CONSTANT_Dynamic) || (tag =? CONSTANT_InvokeDynamic)
  then Some (4, i)
  else if (tag =? CONSTANT_Long) || (tag =? CONSTANT_Double)
  then Some (8, i + 1)
  else if (tag =? CONSTANT_Class) || (tag =? CONSTANT_String) ||
          (tag =? CONSTANT_MethodType) || (tag =? CONSTANT_Module) ||
          (tag =? CONSTANT_Package)
  then Some (2, i)
  else if tag =? CONSTANT_MethodHandle
  then Some (3, i)
  else None.

(** The writers of [assembleClassFile]: what each pushes on [newBytes]. *)
Definition writeU1 (v : Z) : list Z := [Z.land v 0xFF].
Definition writeU2 (v : Z) : list Z :=
  [Z.land (Z.shiftr v 8) 0xFF; Z.land v 0xFF].
Definition writeBytes (arr : list byte) : list Z := map u8 arr.

Section Passes.

Variable unicode_L : Z -> bool.

(** *** [extractStringsFromClass] *)

(** The [for] loop; the state is [i], [offset], [stringIndex], [output]. *)
Fixpoint extract_loop (fuel : nat) (content : list byte) (cpCount : Z)
    (i offset stringIndex : Z) (output : list Z) (log : list visit)
  : list visit * result (list Z) :=
  if negb (i <? cpCount) then (log, Ok output)
  else
    match fuel with
    | O => (log, OutOfFuel)
    | S fuel' =>
        match getUint8 content offset with
        | Ok tag =>
            let offset1 := offset + 1 in
            if tag =? CONSTANT_Utf8 then
              match getUint16 content offset1 with
              | Ok len =>
                  let offset2 := offset1 + 2 in
                  let bytes := slice content offset2 (offset2 + len) in
                  let offset3 := offset2 + len in
                  let text := decode bytes in
                  let ok := isValidString unicode_L text in
                  let log' := log ++ [Visit i offset text ok stringIndex] in
                  if ok then
                    extract_loop fuel' content cpCount (i + 1) offset3
                      (stringIndex + 1)
                      (output ++ config_line (toString stringIndex)
                                             (toJavaUnicode text))
                      log'
                  else
                    extract_loop fuel' content cpCount (i + 1) offset3
                      stringIndex output log'
              | Throw e => (log, Throw e)
              | OutOfFuel => (log, OutOfFuel)
              end
            else
              match extract_switch tag offset1 i with
              | Some (offset2, i') =>
                  extract_loop fuel' content cpCount (i' + 1) offset2
                    stringIndex output log
              | None => (log, Ok (msg_unknown_tag_extract tag offset1))
              end
        | Throw e => (log, Throw e)
        | OutOfFuel => (log, OutOfFuel)
        end
    end.

(** The function together with its log of visits. *)
Definition extract_walk (content : list byte) (fileName : list Z)
  : list visit * result (list Z) :=
  let output := config_header fileName in
  match getUint32 content 0 with
  | Ok magic =>
      if negb (magic =? MAGIC) then ([], Ok msg_not_class)
      else
        match getUint16 content 8 with
        | Ok cpCount =>
            extract_loop (Z.to_nat cpCount) content cpCount 1 10 0 output []
        | Throw e => ([], Throw e)
        | OutOfFuel => ([], OutOfFuel)
        end
  | Throw e => ([], Throw e)
  | OutOfFuel => ([], OutOfFuel)
  end.

Definition extractStringsFromClass (content : list byte) (fileName : list Z)
  : result (list Z) :=
  snd (extract_walk content fileName).

(** *** [extractReadableStrings] *)

Fixpoint readable_loop (fuel : nat) (content : list byte) (cpCount : Z)
    (i offset stringIndex : Z) (output : list Z) (log : list visit)
  : list visit * result (list Z) :=
  if negb (i <? cpCount) then (log, Ok output)
  else
    match fuel with
    | O => (log, OutOfFuel)
    | S fuel' =>
        match getUint8 content offset with
        | Ok tag =>
            let offset1 := offset + 1 in
            if tag =? CONSTANT_Utf8 then
              match getUint16 content offset1 with
              | Ok len =>
                  let offset2 := offset1 + 2 in
                  let text := decode (slice content offset2 (offset2 + len)) in
                  let offset3 := offset2 + len in
                  let ok := isValidString unicode_L text in
                  let log' := log ++ [Visit i offset text ok stringIndex] in
                  if ok then
                    let paddedIdx := padStart 5 32 (toString stringIndex) in
                    readable_loop fuel' content cpCount (i + 1) offset3
                      (stringIndex + 1)
                      (output ++ reference_line paddedIdx (toJavaUnicode text))
                      log'
                  else
                    readable_loop fuel' content cpCount (i + 1) offset3
                      stringIndex output log'
              | Throw e => (log, Throw e)
              | OutOfFuel => (log, OutOfFuel)
              end
            else
              let '(offset2, i') := readable_switch tag offset1 i in
              readable_loop fuel' content cpCount (i' + 1) offset2
                stringIndex output log
        | Throw e => (log, Throw e)
        | OutOfFuel => (log, OutOfFuel)
        end
    end.

Definition readable_walk (content : list byte)
  : list visit * result (list Z) :=
  let output := reference_header in
  match getUint32 content 0 with
  | Ok magic =>
      if negb (magic =? MAGIC) then ([], Ok msg_invalid_class)
      else
        match getUint16 content 8 with
        | Ok cpCount =>
            readable_loop (Z.to_nat cpCount) content cpCount 1 10 0 output []
        | Throw e => ([], Throw e)
        | OutOfFuel => ([], OutOfFuel)
        end
  | Throw e => ([], Throw e)
  | OutOfFuel => ([], OutOfFuel)
  end.

Definition extractReadableStrings (content : list byte) : result (list Z) :=
  snd (readable_walk content).

(** *** [convertReferenceToConfig] *)

(** The body of the [for (const line of lines)] loop. *)
Definition convert_step (output : list Z) (line : list Z) : list Z :=
  match ref_match line with
  | Some (id, value) => output ++ config_line id value
  | None => output
  end.

Definition convertReferenceToConfig (referenceText fileName : list Z)
  : list Z :=
  fold_left convert_step (split_lines referenceText) (config_header fileName).

(** *** [assembleClassFile] *)

(** The body of the loop that fills the [replacements] map. *)
Definition replacements_step (m : gmap Z (list Z)) (line : list Z)
  : gmap Z (list Z) :=
  match edit_match line with
  | Some (id, value) => <[parseInt id := fromJavaUnicode value]> m
  | None => m
  end.

Definition parse_replacements (editorText : list Z) : gmap Z (list Z) :=
  fold_left replacements_step (split_lines editorText) ∅.

(** The loop that rebuilds the pool; the state is [i], [offset],
    [stringIndex], [newBytes]. *)
Fixpoint assemble_loop (fuel : nat) (original : list byte)
    (replacements : gmap Z (list Z)) (cpCount : Z)
    (i offset stringIndex : Z) (newBytes : list Z) (log : list visit)
  : list visit * result (Z * list Z) :=
  if negb (i <? cpCount) then (log, Ok (offset, newBytes))
  else
    match fuel with
    | O => (log, OutOfFuel)
    | S fuel' =>
        match getUint8 original offset with
        | Ok tag =>
            let offset1 := offset + 1 in
            let newBytes1 := newBytes ++ writeU1 tag in
            if tag =? CONSTANT_Utf8 then
              match getUint16 original offset1 with
              | Ok len =>
                  let offset2 := offset1 + 2 in
                  let rawBytes := slice original offset2 (offset2 + len) in
                  let offset3 := offset2 + len in
                  let currentText := decode rawBytes in
                  let ok := isValidString unicode_L currentText in
                  let log' :=
                    log ++ [Visit i offset currentText ok stringIndex] in
                  if ok then
                    match replacements !! stringIndex with
                    | Some newText =>
                        let newTextBytes := encode newText in
                        assemble_loop fuel' original replacements cpCount
                          (i + 1) offset3 (stringIndex + 1)
                          (newBytes1 ++ writeU2 (Z.of_nat (length newTextBytes))
                                     ++ writeBytes newTextBytes)
                          log'
                    | None =>
                        assemble_loop fuel' original replacements cpCount
                          (i + 1) offset3 (stringIndex + 1)
                          (newBytes1 ++ writeU2 (Z.of_nat (length rawBytes))
                                     ++ writeBytes rawBytes)
                          log'
                    end
                  else
                    assemble_loop fuel' original replacements cpCount
                      (i + 1) offset3 stringIndex
                      (newBytes1 ++ writeU2 (Z.of_nat (length rawBytes))
                                 ++ writeBytes rawBytes)
                      log'
              | Throw e => (log, Throw e)
              | OutOfFuel => (log, OutOfFuel)
              end
            else
              match assemble_switch tag i with
              | Some (size, i') =>
                  let dataBytes := slice original offset1 (offset1 + size) in
                  assemble_loop fuel' original replacements cpCount
                    (i' + 1) (offset1 + size) stringIndex
                    (newBytes1 ++ writeBytes dataBytes) log
              | None => (log, Throw (Error (msg_unknown_tag_assemble tag)))
              end
        | Throw e => (log, Throw e)
        | OutOfFuel => (log, OutOfFuel)
        end
    end.

(** The header copy pushes [original[0..7]] before the pool count is
    read; on a buffer shorter than ten bytes that read throws and the
    pushed values are lost, so the copy is written here after the read. *)
Definition assemble_walk (original : list byte) (editorText : list Z)
  : list visit * result (list byte) :=
  let replacements := parse_replacements editorText in
  match getUint32 original 0 with
  | Ok magic =>
      if negb (magic =? MAGIC) then ([], Throw (Error msg_invalid_magic))
      else
        match getUint16 original 8 with
        | Ok cpCount =>
            let newBytes := writeBytes (take 8 original) ++ writeU2 cpCount in
            match assemble_loop (Z.to_nat cpCount) original replacements
                    cpCount 1 10 0 newBytes [] with
            | (log, Ok (offset, newBytes')) =>
                let restOfFile := slice_from original offset in
                (log, Ok (Uint8Array_of (newBytes' ++ writeBytes restOfFile)))
            | (log, Throw e) => (log, Throw e)
            | (log, OutOfFuel) => (log, OutOfFuel)
            end
        | Throw e => ([], Throw e)
        | OutOfFuel => ([], OutOfFuel)
        end
  | Throw e => ([], Throw e)
  | OutOfFuel => ([], OutOfFuel)
  end.

Definition assembleClassFile (original : list byte) (editorText : list Z)
  : result (list byte) :=
  snd (assemble_walk original editorText).

End Passes.

(* ================================================================== *)
(** ** Notions used to state the properties *)

(** The first four bytes of a class file. *)
Definition magic_bytes : list byte := [xca; xfe; xba; xbe].

(** [p] occurs in [s] as a run of consecutive code units. *)
Definition contains (p s : list Z) : Prop := exists a b, s = a ++ p ++ b.

(** The rejection rule in the words of the specification. *)
Definition rejected (unicode_L : Z -> bool) (text : list Z) : Prop :=
  (length text < 2)%nat \/
  lit_Ljava `prefix_of` text \/
  (lit_lparen `prefix_of` text /\ contains lit_rparen text) \/
  contains lit_unitV text \/
  contains lit_Exception text \/
  lit_METAINF `prefix_of` text \/
  ~ (exists cp, cp ∈ code_points text /\
                (isLetter unicode_L cp = true \/ isDigit cp = true)).

(** *** Class files as the data model of the specification has them *)

(** A pool entry: a Utf8 entry with its payload bytes, or an entry of
    another tag with its fixed-size payload. *)
Inductive entry :=
| Utf8 (raw : list byte)
| Other (tag : Z) (payload : list byte).

(** The table of the specification: for each tag other than Utf8 the
    payload length (tag byte excluded) and the number of pool index slots
    the entry takes. *)
Definition tag_table : list (Z * (Z * Z)) :=
  [ (CONSTANT_Integer, (4, 1)); (CONSTANT_Float, (4, 1));
    (CONSTANT_Fieldref, (4, 1)); (CONSTANT_Methodref, (4, 1));
    (CONSTANT_InterfaceMethodref, (4, 1)); (CONSTANT_NameAndType, (4, 1));
    (CONSTANT_Dynamic, (4, 1)); (CONSTANT_InvokeDynamic, (4, 1));
    (CONSTANT_Long, (8, 2)); (CONSTANT_Double, (8, 2));
    (CONSTANT_Class, (2, 1)); (CONSTANT_String, (2, 1));
    (CONSTANT_MethodType, (2, 1)); (CONSTANT_Module, (2, 1));
    (CONSTANT_Package, (2, 1));
    (CONSTANT_MethodHandle, (3, 1)) ].

Definition entry_slots (e : entry) : Z :=
  match e with
  | Utf8 _ => 1
  | Other tag _ => if (tag =? CONSTANT_Long) || (tag =? CONSTANT_Double)
                   then 2 else 1
  end.

(** The tags of the pool entries the specification lists. *)
Definition recognized_tags : list Z :=
  [ CONSTANT_Utf8; CONSTANT_Integer; CONSTANT_Float; CONSTANT_Long;
    CONSTANT_Double; CONSTANT_Class; CONSTANT_String; CONSTANT_Fieldref;
    CONSTANT_Methodref; CONSTANT_InterfaceMethodref; CONSTANT_NameAndType;
    CONSTANT_MethodHandle; CONSTANT_MethodType; CONSTANT_Dynamic;
    CONSTANT_InvokeDynamic; CONSTANT_Module; CONSTANT_Package ].

Definition recognized (tag : Z) : bool := existsb (Z.eqb tag) recognized_tags.

(** A well-formed entry: a Utf8 payload fits the 16-bit length prefix;
    another entry has a recognized tag and the payload length of the
    table. *)
Definition wf_entry (e : entry) : Prop :=
  match e with
  | Utf8 raw => Z.of_nat (length raw) < 65536
  | Other tag payload =>
      (tag, (Z.of_nat (length payload), entry_slots e)) ∈ tag_table
  end.

(** The bytes of an entry in the file. *)
Definition entry_bytes (e : entry) : list byte :=
  match e with
  | Utf8 raw =>
      to_u8 CONSTANT_Utf8 :: Uint8Array_of (writeU2 (Z.of_nat (length raw))) ++ raw
  | Other tag payload => to_u8 tag :: payload
  end.

Definition pool_bytes (es : list entry) : list byte := flat_map entry_bytes es.

Fixpoint pool_slots (es : list entry) : Z :=
  match es with
  | [] => 0
  | e :: es' => entry_slots e + pool_slots es'
  end.

(** A class file: magic, four bytes of version, the pool count, the
    entries, and the rest of the file. *)
Definition class_bytes (version : list byte) (es : list entry)
    (rest : list byte) : list byte :=
  magic_bytes ++ version ++ Uint8Array_of (writeU2 (1 + pool_slots es)) ++
  pool_bytes es ++ rest.

(** The pool count is one more than the number of slots and fits its
    16-bit field. *)
Definition valid_class (version : list byte) (es : list entry) : Prop :=
  length version = 4%nat /\ Forall wf_entry es /\ 1 + pool_slots es < 65536.

(** The decoded texts of the Utf8 entries, in pool order. *)
Definition utf8_texts (es : list entry) : list (list Z) :=
  omap (fun e => match e with Utf8 raw => Some (decode raw) | Other _ _ => None end) es.

(** The eligible strings, in pool order: the one at position [k] is the
    one given id [k]. *)
Definition eligible (unicode_L : Z -> bool) (es : list entry) : list (list Z) :=
  List.filter (isValidString unicode_L) (utf8_texts es).

(** One config line per text, numbered from [id]. *)
Fixpoint config_lines (id : Z) (texts : list (list Z)) : list Z :=
  match texts with
  | [] => []
  | t :: ts =>
      config_line (toString id) (toJavaUnicode t) ++ config_lines (id + 1) ts
  end.

(** One reference line per text, numbered from [id]. *)
Fixpoint reference_lines (id : Z) (texts : list (list Z)) : list Z :=
  match texts with
  | [] => []
  | t :: ts =>
      reference_line (padStart 5 32 (toString id)) (toJavaUnicode t) ++
      reference_lines (id + 1) ts
  end.

(** What assembly pushes for the entries [es] when the next id is
    [stringIndex]: an eligible Utf8 entry whose id is bound is written
    anew, every other entry is copied. *)
Fixpoint rewrite_entries (unicode_L : Z -> bool) (replacements : gmap Z (list Z))
    (stringIndex : Z) (es : list entry) : list Z :=
  match es with
  | [] => []
  | Utf8 raw :: es' =>
      if isValidString unicode_L (decode raw) then
        match replacements !! stringIndex with
        | Some newText =>
            writeU1 CONSTANT_Utf8 ++
            writeU2 (Z.of_nat (length (encode newText))) ++
            writeBytes (encode newText)
        | None => writeBytes (entry_bytes (Utf8 raw))
        end ++ rewrite_entries unicode_L replacements (stringIndex + 1) es'
      else
        writeBytes (entry_bytes (Utf8 raw)) ++
        rewrite_entries unicode_L replacements stringIndex es'
  | Other tag payload :: es' =>
      writeBytes (entry_bytes (Other tag payload)) ++
      rewrite_entries unicode_L replacements stringIndex es'
  end.

(** The assembled file in terms of the entries. *)
Definition assembled (unicode_L : Z -> bool) (replacements : gmap Z (list Z))
    (version : list byte) (es : list entry) (rest : list byte) : list byte :=
  magic_bytes ++ version ++ Uint8Array_of (writeU2 (1 + pool_slots es)) ++
  Uint8Array_of (rewrite_entries unicode_L replacements 0 es) ++ rest.

(** *** The line patterns, declaratively *)

(** A value: a run of pieces, each a character other than the quote and
    the backslash, or a backslash followed by a character that is not a
    line terminator.  This is the language of VALUE. *)
Inductive value_tokens : list Z -> Prop :=
| vt_nil : value_tokens []
| vt_char (c : Z) (v : list Z) :
    c <> QUOTE -> c <> BACKSLASH -> value_tokens v -> value_tokens (c :: v)
| vt_escape (e : Z) (v : list Z) :
    isLineTerminator e = false -> value_tokens v ->
    value_tokens (BACKSLASH :: e :: v).

Definition spaces (ws : list Z) : Prop := Forall (fun c => isSpace c = true) ws.
Definition digits (d : list Z) : Prop :=
  d <> [] /\ Forall (fun c => isDigit c = true) d.

(** [s] begins with a match of the edit pattern whose captures are [d]
    and [v]: str_, digits, white space, =, white space, a quoted value. *)
Definition edit_pattern_at (s d v : list Z) : Prop :=
  exists ws1 ws2 post,
    s = lit_str_ ++ d ++ ws1 ++ [61] ++ ws2 ++ [QUOTE] ++ v ++ QUOTE :: post /\
    digits d /\ spaces ws1 /\ spaces ws2 /\ value_tokens v.

(** [s] begins with a match of the reference pattern whose captures are
    [d] and [v]: str_, white space, digits, white space, |, white space,
    a quoted value. *)
Definition ref_pattern_at (s d v : list Z) : Prop :=
  exists ws0 ws1 ws2 post,
    s = lit_str_ ++ ws0 ++ d ++ ws1 ++ [124] ++ ws2 ++ [QUOTE] ++ v ++ QUOTE :: post /\
    spaces ws0 /\ digits d /\ spaces ws1 /\ spaces ws2 /\ value_tokens v.

(** The leftmost match of a pattern in a line: the pattern holds at the
    suffix after [pre] and at no suffix that starts earlier. *)
Definition leftmost (pattern_at : list Z -> list Z -> list Z -> Prop)
    (line d v : list Z) : Prop :=
  exists pre s,
    line = pre ++ s /\ pattern_at s d v /\
    forall pre' s' d' v',
      line = pre' ++ s' -> (length pre' < length pre)%nat ->
      ~ pattern_at s' d' v'.

(** A config line without its line break. *)
Definition config_body (id value : list Z) : list Z :=
  js "str_" ++ id ++ js " = " ++ [QUOTE] ++ value ++ [QUOTE].

(** What the conversion emits for one line of the reference text. *)
Definition emitted (line : list Z) : list Z :=
  match ref_match line with
  | Some (id, value) => config_line id value
  | None => []
  end.

(** The text whose lines are [lines]: the lines with a line break between
    one and the next. *)
Fixpoint lines_text (lines : list (list Z)) : list Z :=
  match lines with
  | [] => []
  | [l] => l
  | l :: rest => l ++ NEWLINE :: lines_text rest
  end.

(** The lines of the config text after the header, without line breaks. *)
Fixpoint config_bodies (id : Z) (texts : list (list Z)) : list (list Z) :=
  match texts with
  | [] => []
  | t :: ts =>
      config_body (toString id) (toJavaUnicode t) :: config_bodies (id + 1) ts
  end.

(** A reference line without its line break. *)
Definition reference_body (id value : list Z) : list Z :=
  js "str_" ++ id ++ js " | " ++ [QUOTE] ++ value ++ [QUOTE].

(** The lines of the reference text after the header, without line
    breaks. *)
Fixpoint reference_bodies (id : Z) (texts : list (list Z)) : list (list Z) :=
  match texts with
  | [] => []
  | t :: ts =>
      reference_body (padStart 5 32 (toString id)) (toJavaUnicode t)
      :: reference_bodies (id + 1) ts
  end.

(** An entry that assembly leaves alone when its id is bound to its own
    text: if it is eligible, encoding its decoded text gives back its
    payload (the payload is well-formed UTF-8 in the sense of the decoder
    and does not begin with a byte-order mark). *)
Definition reencodes (unicode_L : Z -> bool) (e : entry) : Prop :=
  match e with
  | Utf8 raw =>
      isValidString unicode_L (decode raw) = true -> encode (decode raw) = raw
  | Other _ _ => True
  end.

(** *** Reading the log of a walk *)

(** The visits are numbered from [id]: every verdict is that of the
    filter on the decoded text, every visit carries the number of eligible
    entries met before it, and an eligible entry uses up one id. *)
Fixpoint numbered (unicode_L : Z -> bool) (id : Z) (l : list visit) : Prop :=
  match l with
  | [] => True
  | v :: l' =>
      v_valid v = isValidString unicode_L (v_text v) /\
      v_id v = id /\
      numbered unicode_L (if v_valid v then id + 1 else id) l'
  end.

(** The config line extraction writes at a visit. *)
Definition visit_line (v : visit) : list Z :=
  if v_valid v then config_line (toString (v_id v)) (toJavaUnicode (v_text v))
  else [].

(** How the two loops end, side by side: both reach the end of the pool,
    or both stop at a read out of range, or both stop at an unknown tag. *)
Definition loops_end_alike (r1 : result (list Z)) (r2 : result (Z * list Z))
    (output : list Z) (visits : list visit) : Prop :=
  (r1 = Ok (output ++ flat_map visit_line visits) /\
   exists offset newBytes, r2 = Ok (offset, newBytes)) \/
  (r1 = Throw RangeError /\ r2 = Throw RangeError) \/
  (exists tag offset,
      r1 = Ok (msg_unknown_tag_extract tag offset) /\
      r2 = Throw (Error (msg_unknown_tag_assemble tag))).

(** The same for the two functions. *)
Definition passes_end_alike (r1 : result (list Z)) (r2 : result (list byte))
    (fileName : list Z) (visits : list visit) : Prop :=
  (r1 = Ok (config_header fileName ++ flat_map visit_line visits) /\
   exists out, r2 = Ok out) \/
  (r1 = Throw RangeError /\ r2 = Throw RangeError) \/
  (r1 = Ok msg_not_class /\ r2 = Throw (Error msg_invalid_magic)) \/
  (exists tag offset,
      r1 = Ok (msg_unknown_tag_extract tag offset) /\
      r2 = Throw (Error (msg_unknown_tag_assemble tag))).

(** *** Sample files *)

Definition no_letters : Z -> bool := fun _ => false.

Definition version52 : list byte := [x00; x00; x00; x34].

(** The file of the scenario of the specification: pool count 3, the
    Utf8 entry OK and an Integer entry, then one more byte. *)
Definition ok_entries : list entry :=
  [Utf8 [x4f; x4b]; Other CONSTANT_Integer [x00; x00; x00; x07]].
Definition ok_class : list byte := class_bytes version52 ok_entries [x09].

(** A file whose only string is Hi followed by the character NUL in the
    two-byte form class files use for it (C0 80). *)
Definition nul_entries : list entry := [Utf8 [x48; x69; xc0; x80]].
Definition nul_class : list byte := class_bytes version52 nul_entries [].

(** A file with two strings: a type descriptor and a message. *)
Definition filter_entries : list entry :=
  [Utf8 (Uint8Array_of (js "Ljava/lang/String;"));
   Utf8 (Uint8Array_of (js "Hello World"))].
Definition filter_class : list byte := class_bytes version52 filter_entries [].

(** A buffer whose first pool entry has the unknown tag 2 and is followed
    by the bytes of the Utf8 entry OK. *)
Definition unknown_tag_class : list byte :=
  magic_bytes ++ version52 ++ [x00; x03; x02; x01; x00; x02; x4f; x4b].

(** An edit of 65536 characters for id 0. *)
Definition long_text : list Z := replicate (Z.to_nat 65536) 65.
Definition long_edit : list Z := config_body (js "0") long_text.


(** A Unicode scalar value: a code point that is not a surrogate. *)
Definition scalar (cp : Z) : Prop :=
  0 <= cp < 0xD800 \/ 0xE000 <= cp < 0x110000.

(** *** Documents of the two panels *)

(** The reference text that lists the given ids and escaped values. *)
Definition reference_doc (items : list (Z * list Z)) : list Z :=
  reference_header ++
  flat_map (fun item => reference_line (padStart 5 32 (toString item.1)) item.2)
           items.

(** The config text that lists the given ids and escaped values. *)
Definition config_doc (fileName : list Z) (items : list (Z * list Z)) : list Z :=
  config_header fileName ++
  flat_map (fun item => config_line (toString item.1) item.2) items.

(** An id and a value that a line of either text can carry: the id is a
    natural number, the value is in the language of VALUE and has no line
    break. *)
Definition line_item (item : Z * list Z) : Prop :=
  0 <= item.1 /\ value_tokens item.2 /\ NEWLINE ∉ item.2.

(** The id and the escaped text of an eligible visit. *)
Definition visit_items (visits : list visit) : list (Z * list Z) :=
  omap (fun v => if v_valid v then Some (v_id v, toJavaUnicode (v_text v))
                 else None) visits.

(** The reference line extraction writes at a visit. *)
Definition reference_visit_line (v : visit) : list Z :=
  if v_valid v
  then reference_line (padStart 5 32 (toString (v_id v))) (toJavaUnicode (v_text v))
  else [].

(* ================================================================== *)
(** ** The editor: file nodes, panels and handlers *)

Local Set Warnings "-register-all".

(** [FileNode]; an optional field is an [option]. *)
Inductive FileNode := mkFileNode {
  name : list Z;
  path : list Z;
  isFolder : bool;
  children : option (list FileNode);
  content : option (list byte) }.

(** [s.endsWith(p)] *)
Definition endsWith (p s : list Z) : bool :=
  (length p <=? length s)%nat &&
  bool_decide (drop (length s - length p) s = p).

(** The state the two handlers read and write. *)
Record AppState := mkAppState {
  selectedFile : option FileNode;
  leftContent : list Z;
  rightContent : list Z;
  consoleOutput : list Z }.

Definition msg_not_a_class_file : list Z := js "# Not a class file.".
Definition msg_select_a_class_file : list Z := js "# Select a class file to edit.".

Section Handlers.

Variable unicode_L : Z -> bool.

(** [setSelectedFile] comes first, so it stays done when the extraction
    throws and the rest of the handler is skipped. *)
Definition handleNodeSelect (st : AppState) (node : FileNode)
  : AppState * result unit :=
  let st1 := mkAppState (Some node) (leftContent st) (rightContent st)
                        (consoleOutput st) in
  match content node with
  | Some bytes =>
      if endsWith (js ".class") (name node) then
        match extractReadableStrings unicode_L bytes with
        | Ok rawStrings =>
            let configStrings := convertReferenceToConfig rawStrings (name node) in
            (mkAppState (Some node) rawStrings configStrings
               (consoleOutput st ++ NEWLINE :: js "[Selection] " ++ name node
                                 ++ js " loaded."),
             Ok tt)
        | Throw e => (st1, Throw e)
        | OutOfFuel => (st1, OutOfFuel)
        end
      else
        (mkAppState (Some node) msg_not_a_class_file msg_select_a_class_file
                    (consoleOutput st), Ok tt)
  | None =>
      (mkAppState (Some node) msg_not_a_class_file msg_select_a_class_file
                  (consoleOutput st), Ok tt)
  end.

(** [value || ''] is the empty string for [undefined] and for the empty
    string itself. *)
Definition handleLeftEditorChange (st : AppState) (value : option (list Z))
  : AppState :=
  let newVal := match value with Some v => v | None => [] end in
  match selectedFile st with
  | Some node =>
      mkAppState (selectedFile st) newVal
                 (convertReferenceToConfig newVal (name node))
                 (consoleOutput st)
  | None =>
      mkAppState (selectedFile st) newVal (rightContent st) (consoleOutput st)
  end.

End Handlers.

(** The edit set of a list of items: each id is bound to the unescaped
    value of the last item that carries it. *)
Definition bindings (items : list (Z * list Z)) : gmap Z (list Z) :=
  fold_left (fun m item => <[item.1 := fromJavaUnicode item.2]> m) items ∅.

(** *** The pool after assembly *)

(** The entries of the assembled pool: an eligible Utf8 entry whose id is
    bound carries the encoding of the bound text, every other entry is
    kept. *)
Fixpoint edited (unicode_L : Z -> bool) (replacements : gmap Z (list Z))
    (stringIndex : Z) (es : list entry) : list entry :=
  match es with
  | [] => []
  | Utf8 raw :: es' =>
      if isValidString unicode_L (decode raw) then
        match replacements !! stringIndex with
        | Some newText => Utf8 (encode newText)
        | None => Utf8 raw
        end :: edited unicode_L replacements (stringIndex + 1) es'
      else Utf8 raw :: edited unicode_L replacements stringIndex es'
  | Other tag payload :: es' =>
      Other tag payload :: edited unicode_L replacements stringIndex es'
  end.

(** The texts of the eligible strings as the assembled pool holds them:
    the text bound to an id is read back from its encoding, the others
    are kept. *)
Fixpoint substituted (replacements : gmap Z (list Z)) (id : Z)
    (texts : list (list Z)) : list (list Z) :=
  match texts with
  | [] => []
  | t :: ts =>
      match replacements !! id with
      | Some newText => decode (encode newText)
      | None => t
      end :: substituted replacements (id + 1) ts
  end.

(* ================================================================== *)
(** ** [parseJarFile] *)

(** [s.split(sep)] for a separator of one character. *)
Fixpoint split_on (sep : Z) (s : list Z) : list (list Z) :=
  match s with
  | [] => [[]]
  | c :: s' =>
      if c =? sep then [] :: split_on sep s'
      else match split_on sep s' with
           | [] => [[c]]
           | l :: ls => (c :: l) :: ls
           end
  end.

Definition SLASH : Z := 47.

(** An entry of [zip.files]: its [dir] flag and what
    [async("uint8array")] resolves to, [None] when that promise is
    rejected. *)
Record ZipObject := mkZipObject {
  dir : bool;
  async_uint8array : option (list byte) }.

(** [n.name === part && n.isFolder] *)
Definition is_folder_named (part : list Z) (n : FileNode) : bool :=
  bool_decide (name n = part) && isFolder n.

(** [getFolder] returns the array the file is then pushed on, an array
    that is part of the tree; the model takes what is done to that array
    as [push] and returns the level [nodes] after it.  [None] is the
    TypeError of reading through the missing [children] of a folder. *)
Fixpoint getFolder (push : list FileNode -> list FileNode)
    (nodes : list FileNode) (pathParts : list (list Z)) (parentPath : list Z)
  : option (list FileNode) :=
  match pathParts with
  | [] => Some (push nodes)
  | part :: rest =>
      let currentPath :=
        match parentPath with
        | [] => part
        | _ => parentPath ++ [SLASH] ++ part
        end in
      match list_find (fun n => is_folder_named part n = true) nodes with
      | Some (k, folder) =>
          match children folder with
          | Some cs =>
              match getFolder push cs rest currentPath with
              | Some cs' =>
                  Some (<[k := mkFileNode (name folder) (path folder)
                                          (isFolder folder) (Some cs')
                                          (content folder)]> nodes)
              | None => None
              end
          | None => None
          end
      | None =>
          match getFolder push [] rest currentPath with
          | Some cs' =>
              Some (nodes ++ [mkFileNode part currentPath true (Some cs') None])
          | None => None
          end
      end
  end.

(** The body of the loop over the entries of the archive; [None] is the
    rejection of the promise the function returns. *)
Definition parseJarFile_step (root : list FileNode)
    (entry : list Z * ZipObject) : option (list FileNode) :=
  let relativePath := entry.1 in
  let fileEntry := entry.2 in
  if dir fileEntry then Some root
  else
    let parts := split_on SLASH relativePath in
    let fileName := default [] (last parts) in
    let parts' := removelast parts in
    match fileName with
    | [] => Some root
    | _ =>
        match async_uint8array fileEntry with
        | Some bytes =>
            getFolder
              (fun folderContent =>
                 folderContent ++
                 [mkFileNode fileName relativePath false None (Some bytes)])
              root parts' []
        | None => None
        end
    end.

(** The function on the entries of [zip.files] in the order
    [Object.entries] gives them. *)
Fixpoint parseJarFile_loop (entries : list (list Z * ZipObject))
    (root : list FileNode) : option (list FileNode) :=
  match entries with
  | [] => Some root
  | entry :: entries' =>
      match parseJarFile_step root entry with
      | Some root' => parseJarFile_loop entries' root'
      | None => None
      end
  end.

Definition parseJarFile (entries : list (list Z * ZipObject))
  : option (list FileNode) :=
  parseJarFile_loop entries [].

(** The function from its first line: [JSZip.loadAsync(file)] is awaited
    before anything else and is rejected when the file is not an
    archive, which rejects the promise of the function; [zip] is [None]
    then, and holds the entries of [zip.files] when the archive loads. *)
Definition parseJarFile_loadAsync (zip : option (list (list Z * ZipObject)))
  : option (list FileNode) :=
  match zip with
  | Some entries => parseJarFile entries
  | None => None
  end.

(** *** The tree read as a set of files *)

(** The file nodes below a node, each with its name, path and bytes. *)
Fixpoint files (n : FileNode) : list (list Z * list Z * list byte) :=
  match n with
  | mkFileNode nm p folder cs c =>
      match folder, c with
      | false, Some bytes => [(nm, p, bytes)]
      | _, _ => []
      end ++
      match cs with
      | Some l => flat_map files l
      | None => []
      end
  end.

(** The entries the loop does not skip, as the files they become. *)
Definition kept (entries : list (list Z * ZipObject))
  : list (list Z * list Z * list byte) :=
  omap (fun entry : list Z * ZipObject =>
          if dir entry.2 then None
          else match default [] (last (split_on SLASH entry.1)) with
               | [] => None
               | fileName =>
                   match async_uint8array entry.2 with
                   | Some bytes => Some (fileName, entry.1, bytes)
                   | None => None
                   end
               end) entries.

(** The names of the folders of one level. *)
Definition folder_names (nodes : list FileNode) : list (list Z) :=
  name <$> List.filter isFolder nodes.

(** The shape of the nodes the function builds: a file has bytes and no
    children, a folder has children and no bytes, and no two folders of
    one level share a name. *)
Inductive node_ok : FileNode -> Prop :=
| file_ok (nm p : list Z) (bytes : list byte) :
    node_ok (mkFileNode nm p false None (Some bytes))
| folder_ok (nm p : list Z) (cs : list FileNode) :
    Forall node_ok cs -> NoDup (folder_names cs) ->
    node_ok (mkFileNode nm p true (Some cs) None).

(** The array [getFolder] returns for the folder path [pathParts]. *)
Fixpoint resolve (nodes : list FileNode) (pathParts : list (list Z))
  : option (list FileNode) :=
  match pathParts with
  | [] => Some nodes
  | part :: rest =>
      match list_find (fun n => is_folder_named part n = true) nodes with
      | Some (_, folder) =>
          match children folder with
          | Some cs => resolve cs rest
          | None => None
          end
      | None => None
      end
  end.

(** The bytes of an entry the loop does not skip are read. *)
Definition loads (entry : list Z * ZipObject) : Prop :=
  dir entry.2 = false ->
  default [] (last (split_on SLASH entry.1)) <> [] ->
  is_Some (async_uint8array entry.2).

(** Every folder path that leads somewhere in [nodes] leads somewhere in
    [nodes'], to an array that holds every file the first one held. *)
Definition grows (nodes nodes' : list FileNode) : Prop :=
  forall pathParts folderContent,
    resolve nodes pathParts = Some folderContent ->
    exists folderContent',
      resolve nodes' pathParts = Some folderContent' /\
      forall f, f ∈ folderContent -> isFolder f = false -> f ∈ folderContent'.

(** The file of an entry lies in the array its folder path leads to. *)
Definition located (tree : list FileNode)
    (file : list Z * list Z * list byte) : Prop :=
  exists folderContent,
    resolve tree (removelast (split_on SLASH file.1.2)) = Some folderContent /\
    mkFileNode file.1.1 file.1.2 false None (Some file.2) ∈ folderContent.

(** A small archive: a directory entry, two files of one folder, a file
    at the root and an entry whose path ends in a slash. *)
Definition jar_entries : list (list Z * ZipObject) :=
  [ (js "a/", mkZipObject true None);
    (js "a/B.class", mkZipObject false (Some [xca; xfe]));
    (js "a/b/C.class", mkZipObject false (Some [xba]));
    (js "D.txt", mkZipObject false (Some []));
    (js "e/", mkZipObject false (Some [])) ].

(** The [path] of the folders below a level whose parent has the path
    [parentPath]: the parent's path, a slash and the name, or the name
    alone when the parent's path is empty, as it is at the root. *)
Inductive paths_ok : list Z -> FileNode -> Prop :=
| file_paths_ok (parentPath : list Z) (n : FileNode) :
    isFolder n = false -> paths_ok parentPath n
| folder_paths_ok (parentPath nm : list Z) (cs : list FileNode) :
    Forall (paths_ok (match parentPath with
                      | [] => nm
                      | _ => parentPath ++ [SLASH] ++ nm
                      end)) cs ->
    paths_ok parentPath
      (mkFileNode nm (match parentPath with
                      | [] => nm
                      | _ => parentPath ++ [SLASH] ++ nm
                      end) true (Some cs) None).

(* ================================================================== *)
(** ** [compileStringToBytecode] *)

Section Hex.

(** The upper-case mapping of a code point beyond ASCII is a table of
    the JavaScript engine; it is a parameter here. *)
Variable unicode_upper : Z -> list Z.

Definition upper_code_point (cp : Z) : list Z :=
  if cp <? 128
  then [if (97 <=? cp) && (cp <=? 122) then cp - 32 else cp]
  else unicode_upper cp.

(** [s.toUpperCase()] *)
Definition toUpperCase (s : list Z) : list Z :=
  flat_map (fun cp => flat_map cp_units (upper_code_point cp)) (code_points s).

(** [parts.join(sep)] *)
Fixpoint join (sep : list Z) (parts : list (list Z)) : list Z :=
  match parts with
  | [] => []
  | [p] => p
  | p :: rest => p ++ sep ++ join sep rest
  end.

(** The text written for one byte. *)
Definition byte_hex (b : byte) : list Z :=
  toUpperCase (padStart 2 48 (toString16 (u8 b))).

Definition compileStringToBytecode (input : list Z) : list Z :=
  join [32] (map byte_hex (encode input)).

End Hex.

(** An upper-case hexadecimal digit. *)
Definition isUpperHex (c : Z) : bool :=
  ((48 <=? c) && (c <=? 57)) || ((65 <=? c) && (c <=? 70)).

(** [writeU4] of [assembleClassFile], which no path of the function
    calls.  As in [writeU2], the shifts act on the 32-bit value of [v]
    and the mask keeps one byte of it; that byte is the same for [v]
    itself. *)
Definition writeU4 (v : Z) : list Z :=
  [Z.land (Z.shiftr v 24) 0xFF; Z.land (Z.shiftr v 16) 0xFF;
   Z.land (Z.shiftr v 8) 0xFF; Z.land v 0xFF].

(* ================================================================== *)
(** * Properties *)

(** ** Bytes and reads *)

Lemma u8_range (b : byte) : 0 <= u8 b < 256.
Proof.
  unfold u8. pose proof (Byte.to_N_bounded b). lia.
Qed.

Lemma to_u8_u8 (b : byte) : to_u8 (u8 b) = b.
Proof.
  unfold to_u8. rewrite Z.mod_small by apply u8_range.
  unfold u8. rewrite N2Z.id, Byte.of_to_N. reflexivity.
Qed.

Lemma u8_inj (a b : byte) : u8 a = u8 b -> a = b.
Proof.
  intros H. rewrite <- (to_u8_u8 a), <- (to_u8_u8 b). now rewrite H.
Qed.

Lemma Uint8Array_of_writeBytes (l : list byte) :
  Uint8Array_of (writeBytes l) = l.
Proof.
  unfold Uint8Array_of, writeBytes. induction l as [|b l IH]; simpl.
  - reflexivity.
  - now rewrite to_u8_u8, IH.
Qed.

Lemma byte_at_nat (c : list byte) (n : nat) :
  byte_at c (Z.of_nat n) =
  match c !! n with Some b => Ok (u8 b) | None => Throw RangeError end.
Proof.
  unfold byte_at. destruct (Z.ltb_spec (Z.of_nat n) 0); [lia|].
  now rewrite Nat2Z.id.
Qed.

Lemma getUint32_short (c : list byte) :
  (length c < 4)%nat -> getUint32 c 0 = Throw RangeError.
Proof.
  intros H. unfold getUint32.
  destruct c as [|b0 [|b1 [|b2 [|b3 c]]]]; simpl in H; try lia; reflexivity.
Qed.

Lemma getUint32_magic (c : list byte) :
  getUint32 (magic_bytes ++ c) 0 = Ok MAGIC.
Proof. reflexivity. Qed.

(** The magic test fails exactly on the buffers that do not start with
    the four magic bytes. *)
Lemma getUint32_not_magic (c : list byte) :
  (4 <= length c)%nat -> take 4 c <> magic_bytes ->
  exists m, getUint32 c 0 = Ok m /\ (m =? MAGIC) = false.
Proof.
  intros Hlen Hne.
  destruct c as [|b0 [|b1 [|b2 [|b3 c]]]]; simpl in Hlen; try lia.
  eexists. split; [reflexivity|].
  apply Z.eqb_neq. intros Heq. apply Hne. simpl.
  pose proof (u8_range b0). pose proof (u8_range b1).
  pose proof (u8_range b2). pose proof (u8_range b3).
  unfold MAGIC in Heq.
  assert (u8 b0 = u8 xca /\ u8 b1 = u8 xfe /\ u8 b2 = u8 xba /\ u8 b3 = u8 xbe)
    as (E0 & E1 & E2 & E3).
  { change (u8 xca) with 202. change (u8 xfe) with 254.
    change (u8 xba) with 186. change (u8 xbe) with 190. lia. }
  apply u8_inj in E0, E1, E2, E3. now subst.
Qed.

(** ** Short buffers and wrong magic *)

(** C10: on a buffer shorter than four bytes the read of the magic number
    itself is out of range, and each of the three passes ends with that
    [RangeError]: no pass reaches its comparison with the magic constant,
    so the outcome is neither of the two format errors. *)
Theorem short_buffer_throws_RangeError
    (unicode_L : Z -> bool) (content : list byte) (fileName editorText : list Z) :
  (length content < 4)%nat ->
  getUint32 content 0 = Throw RangeError /\
  extract_walk unicode_L content fileName = ([], Throw RangeError) /\
  extractStringsFromClass unicode_L content fileName = Throw RangeError /\
  extractReadableStrings unicode_L content = Throw RangeError /\
  assemble_walk unicode_L content editorText = ([], Throw RangeError) /\
  assembleClassFile unicode_L content editorText = Throw RangeError.
Proof.
  intros H. pose proof (getUint32_short content H) as E.
  unfold extractStringsFromClass, extractReadableStrings, assembleClassFile,
    extract_walk, readable_walk, assemble_walk.
  rewrite E. auto 10.
Qed.

Lemma short_buffer_throws_RangeError_witness :
  extractStringsFromClass (fun _ => false) [xca; xfe; xba] (js "A.class")
    = Throw RangeError /\
  extractReadableStrings (fun _ => false) [xca; xfe; xba] = Throw RangeError /\
  assembleClassFile (fun _ => false) [xca; xfe; xba] [] = Throw RangeError.
Proof.
  pose proof (short_buffer_throws_RangeError (fun _ => false)
                [xca; xfe; xba] (js "A.class") []) as H.
  destruct H as (_ & _ & H1 & H2 & _ & H3); [simpl; lia|].
  exact (conj H1 (conj H2 H3)).
Defined.

(** C4: on a buffer whose first four bytes are not CA FE BA BE,
    extraction returns its invalid-format message and nothing else (neither
    the header it had begun nor any string line: the message binds no id),
    and assembly throws its invalid-format error and returns no buffer;
    neither pass visits a pool entry. *)
Theorem wrong_magic_is_InvalidFormat
    (unicode_L : Z -> bool) (content : list byte) (fileName editorText : list Z) :
  (4 <= length content)%nat -> take 4 content <> magic_bytes ->
  extract_walk unicode_L content fileName = ([], Ok msg_not_class) /\
  extractStringsFromClass unicode_L content fileName = Ok msg_not_class /\
  parse_replacements msg_not_class = ∅ /\
  assemble_walk unicode_L content editorText
    = ([], Throw (Error msg_invalid_magic)) /\
  assembleClassFile unicode_L content editorText
    = Throw (Error msg_invalid_magic).
Proof.
  intros Hlen Hne.
  destruct (getUint32_not_magic content Hlen Hne) as (m & Hm & Hneq).
  unfold extractStringsFromClass, assembleClassFile, extract_walk, assemble_walk.
  rewrite Hm, Hneq. simpl. repeat split. 
Qed.

Lemma wrong_magic_is_InvalidFormat_witness :
  extractStringsFromClass (fun _ => false)
    [x00; x00; x00; x00; x00; x00; x00; x34; x00; x01] (js "A.class")
    = Ok msg_not_class /\
  assembleClassFile (fun _ => false)
    [x00; x00; x00; x00; x00; x00; x00; x34; x00; x01] []
    = Throw (Error msg_invalid_magic).
Proof.
  pose proof (wrong_magic_is_InvalidFormat (fun _ => false)
                [x00; x00; x00; x00; x00; x00; x00; x34; x00; x01]
                (js "A.class") []) as H.
  destruct H as (_ & H1 & _ & _ & H2).
  - simpl; lia.
  - simpl. discriminate.
  - exact (conj H1 H2).
Defined.

(** ** The eligibility filter *)

Lemma startsWith_prefix (p s : list Z) :
  startsWith p s = true <-> p `prefix_of` s.
Proof.
  revert s. induction p as [|a p IH]; intros s; simpl.
  - split; [intros _; apply prefix_nil | reflexivity].
  - destruct s as [|b s].
    + split; [discriminate | intros H; now apply prefix_nil_not in H].
    + rewrite andb_true_iff, Z.eqb_eq, IH. split.
      * intros [-> H]. now apply prefix_cons.
      * intros H. split; [now apply prefix_cons_inv_1 in H
                         | now apply prefix_cons_inv_2 in H].
Qed.

Lemma includes_contains (p s : list Z) :
  includes p s = true <-> contains p s.
Proof.
  induction s as [|c s IH].
  - simpl. rewrite orb_false_r, startsWith_prefix. split.
    + intros [k ->]. now exists [], k.
    + intros (a & b & H). destruct a; [|discriminate]. now exists b.
  - cbn [includes]. rewrite orb_true_iff, startsWith_prefix, IH. split.
    + intros [[k ->] | (a & b & ->)].
      * now exists [], k.
      * now exists (c :: a), b.
    + intros (a & b & H). destruct a as [|c' a].
      * left. exists b. exact H.
      * right. injection H as _ ->. now exists a, b.
Qed.

Lemma hasLetterOrDigit_spec (unicode_L : Z -> bool) (text : list Z) :
  hasLetterOrDigit unicode_L text = true <->
  exists cp, cp ∈ code_points text /\
             (isLetter unicode_L cp = true \/ isDigit cp = true).
Proof.
  unfold hasLetterOrDigit. rewrite existsb_exists. split.
  - intros (cp & Hin & H). exists cp. rewrite list_elem_of_In.
    now rewrite orb_true_iff in H.
  - intros (cp & Hin & H). exists cp. rewrite <- list_elem_of_In.
    now rewrite orb_true_iff.
Qed.

Lemma isValidString_false_iff (unicode_L : Z -> bool) (text : list Z) :
  isValidString unicode_L text = false <-> rejected unicode_L text.
Proof.
  unfold isValidString, rejected.
  destruct (Nat.ltb_spec (length text) 2) as [Hlen|Hlen]; [tauto|].
  destruct (startsWith lit_Ljava text) eqn:E1.
  { apply startsWith_prefix in E1. tauto. }
  destruct (startsWith lit_lparen text && includes lit_rparen text) eqn:E2.
  { apply andb_true_iff in E2 as [E2 E2'].
    apply startsWith_prefix in E2. apply includes_contains in E2'. tauto. }
  destruct (includes lit_unitV text) eqn:E3.
  { apply includes_contains in E3. tauto. }
  destruct (includes lit_Exception text) eqn:E4.
  { apply includes_contains in E4. tauto. }
  destruct (startsWith lit_METAINF text) eqn:E5.
  { apply startsWith_prefix in E5. tauto. }
  assert (N1 : ~ lit_Ljava `prefix_of` text)
    by (rewrite <- startsWith_prefix; congruence).
  assert (N2 : ~ (lit_lparen `prefix_of` text /\ contains lit_rparen text)).
  { rewrite <- startsWith_prefix, <- includes_contains, <- andb_true_iff.
    congruence. }
  assert (N3 : ~ contains lit_unitV text)
    by (rewrite <- includes_contains; congruence).
  assert (N4 : ~ contains lit_Exception text)
    by (rewrite <- includes_contains; congruence).
  assert (N5 : ~ lit_METAINF `prefix_of` text)
    by (rewrite <- startsWith_prefix; congruence).
  rewrite <- hasLetterOrDigit_spec.
  destruct (hasLetterOrDigit unicode_L text); split; intros H.
  - discriminate.
  - exfalso. destruct H as [H|[H|[H|[H|[H|[H|H]]]]]]; try tauto; try lia.
  - do 6 right. intros H'. discriminate.
  - reflexivity.
Qed.

(** ** Reading a buffer at the end of a known prefix *)

Lemma u8_to_u8 (v : Z) : u8 (to_u8 v) = v mod 256.
Proof.
  unfold to_u8, u8.
  pose proof (Z.mod_pos_bound v 256 ltac:(lia)) as Hb.
  destruct (Byte.of_N (Z.to_N (v mod 256))) as [b|] eqn:E.
  - apply Byte.to_of_N in E. simpl. rewrite E. lia.
  - apply Byte.of_N_None_iff in E. lia.
Qed.

Lemma land_255 (v : Z) : Z.land v 0xFF = v mod 256.
Proof. change 0xFF with (Z.ones 8). now rewrite Z.land_ones by lia. Qed.

Lemma to_u8_land (v : Z) : to_u8 (Z.land v 0xFF) = to_u8 v.
Proof.
  unfold to_u8. rewrite land_255. now rewrite Z.mod_mod by lia.
Qed.

Lemma writeU2_length (v : Z) : length (writeU2 v) = 2%nat.
Proof. reflexivity. Qed.

(** Reading back the two bytes [writeU2] stores gives the value modulo
    2^16. *)
Lemma u16_of_writeU2 (v : Z) :
  u8 (to_u8 (Z.land (Z.shiftr v 8) 0xFF)) * 256 + u8 (to_u8 (Z.land v 0xFF))
  = v mod 65536.
Proof.
  rewrite !to_u8_land, !u8_to_u8, Z.shiftr_div_pow2 by lia.
  change (2 ^ 8) with 256.
  pose proof (Z.div_mod v 256 ltac:(lia)).
  pose proof (Z.div_mod (v / 256) 256 ltac:(lia)).
  pose proof (Z.mod_pos_bound v 256 ltac:(lia)).
  pose proof (Z.mod_pos_bound (v / 256) 256 ltac:(lia)).
  apply Z.mod_unique_pos with (q := v / 256 / 256); lia.
Qed.

Lemma byte_at_end (pre post : list byte) (b : byte) :
  byte_at (pre ++ b :: post) (Z.of_nat (length pre)) = Ok (u8 b).
Proof.
  rewrite byte_at_nat, lookup_app_r by lia.
  now replace (length pre - length pre)%nat with 0%nat by lia.
Qed.

Lemma getUint8_end (pre post : list byte) (b : byte) :
  getUint8 (pre ++ b :: post) (Z.of_nat (length pre)) = Ok (u8 b).
Proof. apply byte_at_end. Qed.

Lemma getUint16_end (pre post : list byte) (h l : byte) :
  getUint16 (pre ++ h :: l :: post) (Z.of_nat (length pre))
  = Ok (u8 h * 256 + u8 l).
Proof.
  unfold getUint16. rewrite byte_at_end. simpl.
  replace (Z.of_nat (length pre) + 1) with (Z.of_nat (length (pre ++ [h])))
    by (rewrite length_app; simpl; lia).
  replace (pre ++ h :: l :: post) with ((pre ++ [h]) ++ l :: post)
    by now rewrite <- app_assoc.
  now rewrite byte_at_end.
Qed.

Lemma slice_end {A} (pre l post : list A) (n : Z) :
  n = Z.of_nat (length l) ->
  slice (pre ++ l ++ post) (Z.of_nat (length pre)) (Z.of_nat (length pre) + n)
  = l.
Proof.
  intros ->. unfold slice. rewrite Nat2Z.id, drop_app_length.
  replace (Z.to_nat (Z.of_nat (length pre) + Z.of_nat (length l)
                     - Z.of_nat (length pre))) with (length l) by lia.
  apply take_app_length.
Qed.

Lemma slice_from_end {A} (pre post : list A) :
  slice_from (pre ++ post) (Z.of_nat (length pre)) = post.
Proof. unfold slice_from. rewrite Nat2Z.id. apply drop_app_length. Qed.

Lemma pool_slots_nonneg (es : list entry) : 0 <= pool_slots es.
Proof.
  induction es as [|e es IH]; simpl; [lia|].
  destruct e as [raw|tag p]; simpl; [lia|].
  destruct ((tag =? CONSTANT_Long) || (tag =? CONSTANT_Double)); lia.
Qed.

Lemma entry_slots_pos (e : entry) : 1 <= entry_slots e.
Proof.
  destruct e as [raw|tag p]; simpl; [lia|].
  destruct ((tag =? CONSTANT_Long) || (tag =? CONSTANT_Double)); lia.
Qed.

(** What the three [switch] statements do on a tag of the table. *)
Lemma switch_of_table (tag len slots : Z) :
  (tag, (len, slots)) ∈ tag_table ->
  (tag =? CONSTANT_Utf8) = false /\ u8 (to_u8 tag) = tag /\
  (forall offset i, extract_switch tag offset i = Some (offset + len, i + slots - 1)) /\
  (forall offset i, readable_switch tag offset i = (offset + len, i + slots - 1)) /\
  (forall i, assemble_switch tag i = Some (len, i + slots - 1)).
Proof.
  intros H. unfold tag_table in H.
  repeat (apply elem_of_cons in H as [H|H];
          [injection H as -> -> ->; repeat split; intros;
           try reflexivity;
           unfold extract_switch, readable_switch, assemble_switch; simpl;
           repeat f_equal; lia|]).
  now apply elem_of_nil in H.
Qed.

(** ** The passes on a class file given by its entries *)

Lemma eligible_cons_utf8 (unicode_L : Z -> bool) (raw : list byte) (es : list entry) :
  eligible unicode_L (Utf8 raw :: es) =
  if isValidString unicode_L (decode raw)
  then decode raw :: eligible unicode_L es
  else eligible unicode_L es.
Proof. reflexivity. Qed.

Lemma eligible_cons_other (unicode_L : Z -> bool) (tag : Z) (p : list byte)
    (es : list entry) :
  eligible unicode_L (Other tag p :: es) = eligible unicode_L es.
Proof. reflexivity. Qed.

(** Moving one entry from the part still to read to the part already
    read. *)
Lemma pool_step (pre : list byte) (e : entry) (es : list entry) (rest : list byte) :
  pre ++ pool_bytes (e :: es) ++ rest
  = (pre ++ entry_bytes e) ++ pool_bytes es ++ rest.
Proof. unfold pool_bytes. simpl. now rewrite <- !app_assoc. Qed.

Lemma utf8_entry_reads (pre post raw : list byte) :
  Z.of_nat (length raw) < 65536 ->
  let content := pre ++ entry_bytes (Utf8 raw) ++ post in
  let offset := Z.of_nat (length pre) in
  getUint8 content offset = Ok CONSTANT_Utf8 /\
  getUint16 content (offset + 1) = Ok (Z.of_nat (length raw)) /\
  slice content (offset + 1 + 2) (offset + 1 + 2 + Z.of_nat (length raw)) = raw /\
  offset + 1 + 2 + Z.of_nat (length raw)
  = Z.of_nat (length (pre ++ entry_bytes (Utf8 raw))).
Proof.
  intros Hlen content offset. subst content offset.
  cbn [entry_bytes Uint8Array_of writeU2 map app].
  set (h := to_u8 (Z.land (Z.shiftr (Z.of_nat (length raw)) 8) 255)).
  set (l := to_u8 (Z.land (Z.of_nat (length raw)) 255)).
  repeat split.
  - now rewrite getUint8_end.
  - replace (Z.of_nat (length pre) + 1)
      with (Z.of_nat (length (pre ++ [to_u8 CONSTANT_Utf8])))
      by (rewrite length_app; simpl; lia).
    replace (pre ++ to_u8 CONSTANT_Utf8 :: h :: l :: raw ++ post)
      with ((pre ++ [to_u8 CONSTANT_Utf8]) ++ h :: l :: raw ++ post)
      by now rewrite <- app_assoc.
    rewrite getUint16_end. subst h l. rewrite u16_of_writeU2.
    f_equal. apply Z.mod_small. lia.
  - replace (Z.of_nat (length pre) + 1 + 2)
      with (Z.of_nat (length (pre ++ [to_u8 CONSTANT_Utf8; h; l])))
      by (rewrite length_app; simpl; lia).
    replace (pre ++ to_u8 CONSTANT_Utf8 :: h :: l :: raw ++ post)
      with ((pre ++ [to_u8 CONSTANT_Utf8; h; l]) ++ raw ++ post)
      by now rewrite <- app_assoc.
    now apply slice_end.
  - rewrite length_app. simpl. lia.
Qed.

Lemma other_entry_reads (pre post p : list byte) (tag len slots : Z) :
  (tag, (len, slots)) ∈ tag_table -> len = Z.of_nat (length p) ->
  let content := pre ++ entry_bytes (Other tag p) ++ post in
  let offset := Z.of_nat (length pre) in
  getUint8 content offset = Ok tag /\
  slice content (offset + 1) (offset + 1 + len) = p /\
  offset + 1 + len = Z.of_nat (length (pre ++ entry_bytes (Other tag p))).
Proof.
  intros Htab -> content offset. subst content offset.
  destruct (switch_of_table _ _ _ Htab) as (_ & Hu8 & _).
  cbn [entry_bytes app]. repeat split.
  - now rewrite getUint8_end, Hu8.
  - replace (Z.of_nat (length pre) + 1)
      with (Z.of_nat (length (pre ++ [to_u8 tag])))
      by (rewrite length_app; simpl; lia).
    replace (pre ++ to_u8 tag :: p ++ post)
      with ((pre ++ [to_u8 tag]) ++ p ++ post)
      by now rewrite <- app_assoc.
    now apply slice_end.
  - rewrite length_app. simpl. lia.
Qed.

Lemma extract_loop_entries (unicode_L : Z -> bool) (es : list entry) :
  forall fuel pre rest cpCount i stringIndex output log,
    Forall wf_entry es -> cpCount = i + pool_slots es ->
    (length es <= fuel)%nat ->
    snd (extract_loop unicode_L fuel (pre ++ pool_bytes es ++ rest) cpCount i
           (Z.of_nat (length pre)) stringIndex output log)
    = Ok (output ++ config_lines stringIndex (eligible unicode_L es)).
Proof.
  induction es as [|e es IH]; intros fuel pre rest cpCount i sidx output log
    Hwf Hcount Hfuel.
  - simpl in Hcount. assert (E : (i <? cpCount) = false) by (apply Z.ltb_ge; lia).
    destruct fuel; cbn [extract_loop]; rewrite E; simpl; now rewrite app_nil_r.
  - apply Forall_cons in Hwf as [Hwe Hwf]. simpl in Hcount, Hfuel.
    pose proof (entry_slots_pos e). pose proof (pool_slots_nonneg es).
    assert (E : (i <? cpCount) = true) by (apply Z.ltb_lt; lia).
    destruct fuel as [|fuel]; [lia|].
    cbn [extract_loop]. rewrite E. cbn [negb].
    destruct e as [raw|tag p].
    + destruct (utf8_entry_reads pre (pool_bytes es ++ rest) raw Hwe)
        as (R1 & R2 & R3 & R4).
      rewrite pool_step.
      rewrite <- app_assoc, R1. change (CONSTANT_Utf8 =? CONSTANT_Utf8) with true.
      cbv iota. rewrite R2, R3, R4. rewrite app_assoc.
      rewrite eligible_cons_utf8.
      destruct (isValidString unicode_L (decode raw)).
      * rewrite IH by (simpl in *; first [assumption | lia]).
        simpl. now rewrite <- app_assoc.
      * rewrite IH by (simpl in *; first [assumption | lia]). reflexivity.
    + simpl in Hwe.
      destruct (switch_of_table _ _ _ Hwe) as (Ht & _ & Hsw & _).
      destruct (other_entry_reads pre (pool_bytes es ++ rest) p _ _ _ Hwe eq_refl)
        as (R1 & _ & R3).
      rewrite pool_step.
      rewrite <- app_assoc, R1, Ht. cbv iota. rewrite Hsw, R3, app_assoc.
      rewrite eligible_cons_other.
      apply IH; [assumption | simpl in *; lia | lia].
Qed.

Lemma readable_loop_entries (unicode_L : Z -> bool) (es : list entry) :
  forall fuel pre rest cpCount i stringIndex output log,
    Forall wf_entry es -> cpCount = i + pool_slots es ->
    (length es <= fuel)%nat ->
    snd (readable_loop unicode_L fuel (pre ++ pool_bytes es ++ rest) cpCount i
           (Z.of_nat (length pre)) stringIndex output log)
    = Ok (output ++ reference_lines stringIndex (eligible unicode_L es)).
Proof.
  induction es as [|e es IH]; intros fuel pre rest cpCount i sidx output log
    Hwf Hcount Hfuel.
  - simpl in Hcount. assert (E : (i <? cpCount) = false) by (apply Z.ltb_ge; lia).
    destruct fuel; cbn [readable_loop]; rewrite E; simpl; now rewrite app_nil_r.
  - apply Forall_cons in Hwf as [Hwe Hwf]. simpl in Hcount, Hfuel.
    pose proof (entry_slots_pos e). pose proof (pool_slots_nonneg es).
    assert (E : (i <? cpCount) = true) by (apply Z.ltb_lt; lia).
    destruct fuel as [|fuel]; [lia|].
    cbn [readable_loop]. rewrite E. cbn [negb].
    destruct e as [raw|tag p].
    + destruct (utf8_entry_reads pre (pool_bytes es ++ rest) raw Hwe)
        as (R1 & R2 & R3 & R4).
      rewrite pool_step.
      rewrite <- app_assoc, R1. change (CONSTANT_Utf8 =? CONSTANT_Utf8) with true.
      cbv iota. rewrite R2, R3, R4. rewrite app_assoc.
      rewrite eligible_cons_utf8.
      destruct (isValidString unicode_L (decode raw)).
      * rewrite IH by (simpl in *; first [assumption | lia]).
        simpl. now rewrite <- app_assoc.
      * rewrite IH by (simpl in *; first [assumption | lia]). reflexivity.
    + simpl in Hwe.
      destruct (switch_of_table _ _ _ Hwe) as (Ht & _ & _ & Hsw & _).
      destruct (other_entry_reads pre (pool_bytes es ++ rest) p _ _ _ Hwe eq_refl)
        as (R1 & _ & R3).
      rewrite pool_step.
      rewrite <- app_assoc, R1, Ht. cbv iota. rewrite Hsw, R3, app_assoc.
      rewrite eligible_cons_other.
      apply IH; [assumption | simpl in *; lia | lia].
Qed.

Lemma land_255_idem (v : Z) : Z.land (Z.land v 0xFF) 0xFF = Z.land v 0xFF.
Proof. rewrite !land_255. apply Z.mod_mod. lia. Qed.

Lemma writeBytes_writeU2 (v : Z) :
  writeBytes (Uint8Array_of (writeU2 v)) = writeU2 v.
Proof.
  unfold writeBytes, Uint8Array_of, writeU2. cbn [map].
  rewrite !u8_to_u8, <- !land_255, !land_255_idem. reflexivity.
Qed.

Lemma writeBytes_app (a b : list byte) :
  writeBytes (a ++ b) = writeBytes a ++ writeBytes b.
Proof. apply map_app. Qed.

Lemma writeBytes_entry_utf8 (raw : list byte) :
  writeBytes (entry_bytes (Utf8 raw))
  = writeU1 CONSTANT_Utf8 ++ writeU2 (Z.of_nat (length raw)) ++ writeBytes raw.
Proof.
  cbn [entry_bytes]. change (to_u8 CONSTANT_Utf8 :: ?l) with ([to_u8 CONSTANT_Utf8] ++ l).
  now rewrite !writeBytes_app, writeBytes_writeU2.
Qed.

Lemma writeBytes_entry_other (tag len slots : Z) (p : list byte) :
  (tag, (len, slots)) ∈ tag_table ->
  writeBytes (entry_bytes (Other tag p)) = writeU1 tag ++ writeBytes p.
Proof.
  intros Htab. destruct (switch_of_table _ _ _ Htab) as (_ & Hu8 & _).
  cbn [entry_bytes writeBytes map]. rewrite Hu8. unfold writeU1. cbn [app].
  f_equal. rewrite land_255. rewrite u8_to_u8 in Hu8. congruence.
Qed.

Lemma assemble_loop_entries (unicode_L : Z -> bool)
    (replacements : gmap Z (list Z)) (es : list entry) :
  forall fuel pre rest cpCount i stringIndex newBytes log,
    Forall wf_entry es -> cpCount = i + pool_slots es ->
    (length es <= fuel)%nat ->
    snd (assemble_loop unicode_L fuel (pre ++ pool_bytes es ++ rest)
           replacements cpCount i (Z.of_nat (length pre)) stringIndex
           newBytes log)
    = Ok (Z.of_nat (length (pre ++ pool_bytes es)),
          newBytes ++ rewrite_entries unicode_L replacements stringIndex es).
Proof.
  induction es as [|e es IH]; intros fuel pre rest cpCount i sidx newBytes log
    Hwf Hcount Hfuel.
  - simpl in Hcount. assert (E : (i <? cpCount) = false) by (apply Z.ltb_ge; lia).
    destruct fuel; cbn [assemble_loop]; rewrite E; simpl; now rewrite !app_nil_r.
  - apply Forall_cons in Hwf as [Hwe Hwf]. simpl in Hcount, Hfuel.
    pose proof (entry_slots_pos e). pose proof (pool_slots_nonneg es).
    assert (E : (i <? cpCount) = true) by (apply Z.ltb_lt; lia).
    destruct fuel as [|fuel]; [lia|].
    cbn [assemble_loop]. rewrite E. cbn [negb].
    assert (Hpre : pre ++ pool_bytes (e :: es)
                   = (pre ++ entry_bytes e) ++ pool_bytes es).
    { unfold pool_bytes. simpl. now rewrite app_assoc. }
    rewrite Hpre.
    destruct e as [raw|tag p].
    + destruct (utf8_entry_reads pre (pool_bytes es ++ rest) raw Hwe)
        as (R1 & R2 & R3 & R4).
      rewrite pool_step.
      rewrite <- app_assoc, R1. change (CONSTANT_Utf8 =? CONSTANT_Utf8) with true.
      cbv iota. rewrite R2, R3, R4. rewrite app_assoc.
      cbn [rewrite_entries].
      destruct (isValidString unicode_L (decode raw)).
      * destruct (replacements !! sidx) as [newText|].
        -- rewrite IH by (simpl in *; first [assumption | lia]).
           now rewrite <- !app_assoc.
        -- rewrite IH by (simpl in *; first [assumption | lia]).
           now rewrite writeBytes_entry_utf8, <- !app_assoc.
      * rewrite IH by (simpl in *; first [assumption | lia]).
        now rewrite writeBytes_entry_utf8, <- !app_assoc.
    + simpl in Hwe.
      destruct (switch_of_table _ _ _ Hwe) as (Ht & Hu8 & _ & _ & Hsw).
      destruct (other_entry_reads pre (pool_bytes es ++ rest) p _ _ _ Hwe eq_refl)
        as (R1 & R2 & R3).
      rewrite pool_step.
      rewrite <- app_assoc, R1, Ht. cbv iota. rewrite Hsw, R2, R3, app_assoc.
      cbn [rewrite_entries].
      rewrite IH by (simpl in *; first [assumption | lia]).
      now rewrite (writeBytes_entry_other _ _ _ _ Hwe), <- !app_assoc.
Qed.

Lemma length_le_pool_slots (es : list entry) :
  Z.of_nat (length es) <= pool_slots es.
Proof.
  induction es as [|e es IH]; simpl; [lia|].
  pose proof (entry_slots_pos e). lia.
Qed.

Lemma Uint8Array_of_app (a b : list Z) :
  Uint8Array_of (a ++ b) = Uint8Array_of a ++ Uint8Array_of b.
Proof. apply map_app. Qed.

Lemma class_bytes_reads (version : list byte) (es : list entry) (rest : list byte) :
  valid_class version es ->
  let content := class_bytes version es rest in
  let pre := magic_bytes ++ version ++ Uint8Array_of (writeU2 (1 + pool_slots es)) in
  getUint32 content 0 = Ok MAGIC /\
  getUint16 content 8 = Ok (1 + pool_slots es) /\
  content = pre ++ pool_bytes es ++ rest /\
  10 = Z.of_nat (length pre) /\
  take 8 content = magic_bytes ++ version /\
  (length es <= Z.to_nat (1 + pool_slots es))%nat.
Proof.
  intros (Hv & Hwf & Hcount) content pre. subst content pre.
  pose proof (pool_slots_nonneg es). pose proof (length_le_pool_slots es).
  unfold class_bytes. repeat split.
  - replace 8 with (Z.of_nat (length (magic_bytes ++ version)))
      by (rewrite length_app, Hv; reflexivity).
    rewrite (app_assoc magic_bytes version).
    cbn [Uint8Array_of writeU2 map app].
    rewrite getUint16_end, u16_of_writeU2. f_equal. apply Z.mod_small. lia.
  - now rewrite <- !app_assoc.
  - rewrite !length_app, Hv. reflexivity.
  - rewrite (app_assoc magic_bytes version).
    apply take_app_length'. rewrite length_app, Hv. reflexivity.
  - lia.
Qed.

(** On a valid class file extraction returns the config header and then
    one config line per eligible string, numbered from 0 in pool order. *)
Lemma extract_class (unicode_L : Z -> bool) (version : list byte)
    (es : list entry) (rest : list byte) (fileName : list Z) :
  valid_class version es ->
  extractStringsFromClass unicode_L (class_bytes version es rest) fileName
  = Ok (config_header fileName ++ config_lines 0 (eligible unicode_L es)).
Proof.
  intros Hvalid.
  destruct (class_bytes_reads version es rest Hvalid)
    as (R32 & R16 & Hshape & H10 & _ & Hfuel).
  unfold extractStringsFromClass, extract_walk.
  rewrite R32, R16. change (negb (MAGIC =? MAGIC)) with false. cbv iota.
  rewrite Hshape, H10.
  apply extract_loop_entries; [apply Hvalid | lia | exact Hfuel].
Qed.

(** On a valid class file the reference extraction returns its own header
    and then one reference line per eligible string. *)
Lemma readable_class (unicode_L : Z -> bool) (version : list byte)
    (es : list entry) (rest : list byte) :
  valid_class version es ->
  extractReadableStrings unicode_L (class_bytes version es rest)
  = Ok (reference_header ++ reference_lines 0 (eligible unicode_L es)).
Proof.
  intros Hvalid.
  destruct (class_bytes_reads version es rest Hvalid)
    as (R32 & R16 & Hshape & H10 & _ & Hfuel).
  unfold extractReadableStrings, readable_walk.
  rewrite R32, R16. change (negb (MAGIC =? MAGIC)) with false. cbv iota.
  rewrite Hshape, H10.
  apply readable_loop_entries; [apply Hvalid | lia | exact Hfuel].
Qed.

(** On a valid class file assembly returns the file with its entries
    rewritten one by one. *)
Lemma assemble_class (unicode_L : Z -> bool) (version : list byte)
    (es : list entry) (rest : list byte) (editorText : list Z) :
  valid_class version es ->
  assembleClassFile unicode_L (class_bytes version es rest) editorText
  = Ok (assembled unicode_L (parse_replacements editorText) version es rest).
Proof.
  intros Hvalid.
  destruct (class_bytes_reads version es rest Hvalid)
    as (R32 & R16 & Hshape & H10 & Htake & Hfuel).
  unfold assembleClassFile, assemble_walk.
  rewrite R32, R16. change (negb (MAGIC =? MAGIC)) with false. cbv iota.
  rewrite Htake.
  set (pre := magic_bytes ++ version ++
              Uint8Array_of (writeU2 (1 + pool_slots es))) in *.
  rewrite Hshape, H10.
  pose proof (assemble_loop_entries unicode_L (parse_replacements editorText) es
                (Z.to_nat (1 + pool_slots es)) pre rest (1 + pool_slots es) 1 0
                (writeBytes (magic_bytes ++ version)
                   ++ writeU2 (1 + pool_slots es)) []
                (proj1 (proj2 Hvalid)) eq_refl Hfuel) as Hloop.
  destruct (assemble_loop _ _ _ _ _ _ _ _ _ _) as [log r].
  cbn [snd] in Hloop. subst r. cbn [snd].
  rewrite (app_assoc pre), slice_from_end.
  unfold assembled. f_equal.
  rewrite !Uint8Array_of_app, !Uint8Array_of_writeBytes.
  now rewrite <- !app_assoc.
Qed.

(** ** Lines, numerals and escapes *)

Lemma split_lines_nonempty (s : list Z) : split_lines s <> [].
Proof.
  destruct s as [|c s]; simpl; [discriminate|].
  destruct (c =? NEWLINE); [discriminate|].
  destruct (split_lines s); discriminate.
Qed.

Lemma split_lines_app_newline (a b : list Z) :
  split_lines (a ++ NEWLINE :: b) = split_lines a ++ split_lines b.
Proof.
  induction a as [|c a IH]; simpl.
  - reflexivity.
  - rewrite IH. destruct (c =? NEWLINE); [reflexivity|].
    pose proof (split_lines_nonempty a).
    destruct (split_lines a); [contradiction | reflexivity].
Qed.

Lemma split_lines_one (l : list Z) :
  NEWLINE ∉ l -> split_lines l = [l].
Proof.
  induction l as [|c l IH]; intros Hnl; simpl.
  - reflexivity.
  - apply not_elem_of_cons in Hnl as [Hc Hl].
    destruct (Z.eqb_spec c NEWLINE); [congruence|].
    now rewrite IH.
Qed.

Lemma uint_chars_digits (d : Decimal.uint) : Forall (fun c => isDigit c = true) (uint_chars d).
Proof. induction d; simpl; constructor; auto. Qed.

Lemma chars_uint_chars (d : Decimal.uint) : chars_uint (uint_chars d) = d.
Proof. induction d; simpl; [reflexivity | unfold digit_cons; simpl; congruence ..]. Qed.

Lemma toString_digits (n : Z) : Forall (fun c => isDigit c = true) (toString n).
Proof. apply uint_chars_digits. Qed.

Lemma toString_nonempty (n : Z) : toString n <> [].
Proof.
  unfold toString. destruct (Z.to_N n) as [|p]; [discriminate|].
  simpl. pose proof (DecimalPos.Unsigned.to_uint_nonnil p) as H.
  destruct (Pos.to_uint p); [contradiction | discriminate ..].
Qed.

Lemma parseInt_toString (n : Z) : 0 <= n -> parseInt (toString n) = n.
Proof.
  intros H. unfold parseInt, toString.
  rewrite chars_uint_chars, DecimalN.Unsigned.of_to. lia.
Qed.

Lemma isDigit_range (c : Z) : isDigit c = true <-> 48 <= c <= 57.
Proof. unfold isDigit. rewrite andb_true_iff, !Z.leb_le. tauto. Qed.

Lemma hex_value_digit (v : Z) : 0 <= v < 16 -> hex_value (hex_digit v) = Some v.
Proof.
  intros H. unfold hex_value, hex_digit.
  destruct (Z.ltb_spec v 10).
  - replace ((48 <=? 48 + v) && (48 + v <=? 57)) with true
      by (symmetry; apply andb_true_iff; rewrite !Z.leb_le; lia).
    f_equal. lia.
  - replace ((48 <=? 87 + v) && (87 + v <=? 57)) with false
      by (symmetry; apply andb_false_iff; right; apply Z.leb_gt; lia).
    replace ((97 <=? 87 + v) && (87 + v <=? 102)) with true
      by (symmetry; apply andb_true_iff; rewrite !Z.leb_le; lia).
    f_equal. lia.
Qed.

Lemma hex_digit_range (v : Z) :
  0 <= v < 16 -> 48 <= hex_digit v <= 57 \/ 97 <= hex_digit v <= 102.
Proof. intros H. unfold hex_digit. destruct (Z.ltb_spec v 10); lia. Qed.

(** The three shapes of an escaped character. *)
Lemma escape_char_cases (c : Z) :
  0 <= c ->
  (escape_char c = [BACKSLASH; c] /\ (c = QUOTE \/ c = BACKSLASH)) \/
  (exists h1 h2, escape_char c = [BACKSLASH; 117; 48; 48; h1; h2] /\
                 c < 32 /\ hex4 48 48 h1 h2 = Some c /\
                 (48 <= h1 <= 57 \/ 97 <= h1 <= 102) /\
                 (48 <= h2 <= 57 \/ 97 <= h2 <= 102)) \/
  (escape_char c = [c] /\ 32 <= c /\ c <> QUOTE /\ c <> BACKSLASH).
Proof.
  intros Hc. unfold escape_char.
  destruct (Z.eqb_spec c QUOTE) as [->|Hq]; [left; auto|].
  destruct (Z.eqb_spec c BACKSLASH) as [->|Hb]; [left; auto|].
  destruct (Z.ltb_spec c 32) as [Hlt|Hge]; [|right; right; auto].
  right; left. unfold toString16.
  assert (Hm : 0 <= c mod 16 < 16) by (apply Z.mod_pos_bound; lia).
  pose proof (Z.div_mod c 16 ltac:(lia)) as Hdm.
  destruct (Z.ltb_spec c 16) as [H16|H16].
  - exists 48, (hex_digit c). cbn [padStart length replicate Nat.sub app].
    repeat split; try lia.
    + unfold hex4. change (hex_value 48) with (Some 0).
      rewrite hex_value_digit by lia. f_equal.
    + apply hex_digit_range; lia.
  - exists (hex_digit (c / 16)), (hex_digit (c mod 16)).
    cbn [padStart length replicate Nat.sub app].
    assert (0 <= c / 16 < 16) by lia.
    repeat split; try lia.
    + unfold hex4. change (hex_value 48) with (Some 0).
      rewrite !hex_value_digit by lia. f_equal. lia.
    + apply hex_digit_range; lia.
    + apply hex_digit_range; lia.
Qed.

Lemma toJavaUnicode_cons (c : Z) (t : list Z) :
  toJavaUnicode (c :: t) = escape_char c ++ toJavaUnicode t.
Proof. reflexivity. Qed.

(** Unescaping undoes escaping. *)
Lemma json_string_body_escape (t : list Z) :
  Forall (fun c => 0 <= c) t -> json_string_body (toJavaUnicode t) = Some t.
Proof.
  induction 1 as [|c t Hc Ht IH]; [reflexivity|].
  rewrite toJavaUnicode_cons.
  destruct (escape_char_cases c Hc)
    as [[-> [->| ->]] | [(h1 & h2 & -> & Hlt & Hhex & _) | (-> & Hge & Hq & Hb)]].
  - cbn. cbn in IH. now rewrite IH.
  - cbn. cbn in IH. now rewrite IH.
  - cbn [app json_string_body]. change (BACKSLASH =? QUOTE) with false.
    change (BACKSLASH =? BACKSLASH) with true. change (117 =? 117) with true.
    cbv iota. now rewrite Hhex, IH.
  - cbn [app json_string_body].
    destruct (Z.eqb_spec c QUOTE); [contradiction|].
    destruct (Z.eqb_spec c BACKSLASH); [contradiction|].
    destruct (Z.ltb_spec c 32); [lia|]. now rewrite IH.
Qed.

Lemma fromJavaUnicode_toJavaUnicode (t : list Z) :
  Forall (fun c => 0 <= c) t -> fromJavaUnicode (toJavaUnicode t) = t.
Proof.
  intros H. unfold fromJavaUnicode. now rewrite json_string_body_escape.
Qed.

Lemma value_run_plain (c : Z) (s : list Z) :
  c <> QUOTE -> c <> BACKSLASH ->
  value_run (c :: s) = let '(v, r) := value_run s in (c :: v, r).
Proof.
  intros Hq Hb. cbn [value_run].
  destruct (Z.eqb_spec c QUOTE); [contradiction|].
  destruct (Z.eqb_spec c BACKSLASH); [contradiction|]. reflexivity.
Qed.

Lemma value_run_escaped (e : Z) (s : list Z) :
  isLineTerminator e = false ->
  value_run (BACKSLASH :: e :: s)
  = let '(v, r) := value_run s in (BACKSLASH :: e :: v, r).
Proof. intros He. cbn [value_run]. now rewrite He. Qed.

(** An escaped text has no character below 32, hence no line break. *)
Lemma toJavaUnicode_printable (t : list Z) :
  Forall (fun c => 0 <= c) t -> Forall (fun c => 32 <= c) (toJavaUnicode t).
Proof.
  induction 1 as [|c t Hc Ht IH]; [constructor|].
  rewrite toJavaUnicode_cons. apply Forall_app. split; [|exact IH].
  destruct (escape_char_cases c Hc)
    as [[-> [->| ->]] | [(h1 & h2 & -> & Hlt & _ & Hh1 & Hh2) | (-> & Hge & Hq & Hb)]];
    unfold BACKSLASH, QUOTE; repeat constructor; lia.
Qed.

(** ** The matchers implement the patterns *)

Lemma skip_spaces_app (ws : list Z) (c : Z) (r : list Z) :
  spaces ws -> isSpace c = false -> skip_spaces (ws ++ c :: r) = c :: r.
Proof.
  intros Hws Hc. induction Hws as [|w ws Hw _ IH]; simpl.
  - now rewrite Hc.
  - now rewrite Hw.
Qed.

Lemma skip_spaces_spec (s : list Z) :
  exists ws, s = ws ++ skip_spaces s /\ spaces ws /\
             match skip_spaces s with
             | c :: _ => isSpace c = false
             | [] => True
             end.
Proof.
  induction s as [|c s (ws & Hs & Hws & Hhd)]; simpl.
  - exists []. repeat split. constructor.
  - destruct (isSpace c) eqn:E.
    + exists (c :: ws). repeat split; [simpl; congruence | now constructor | exact Hhd].
    + exists []. repeat split; [constructor | exact E].
Qed.

Lemma take_digits_app (d : list Z) (c : Z) (r : list Z) :
  Forall (fun c => isDigit c = true) d -> isDigit c = false ->
  take_digits (d ++ c :: r) = (d, c :: r).
Proof.
  intros Hd Hc. induction Hd as [|x d Hx _ IH]; simpl.
  - now rewrite Hc.
  - now rewrite Hx, IH.
Qed.

Lemma take_digits_spec (s : list Z) :
  s = (take_digits s).1 ++ (take_digits s).2 /\
  Forall (fun c => isDigit c = true) (take_digits s).1 /\
  match (take_digits s).2 with
  | c :: _ => isDigit c = false
  | [] => True
  end.
Proof.
  induction s as [|c s (Hs & Hd & Hhd)]; simpl.
  - repeat split. constructor.
  - destruct (isDigit c) eqn:E.
    + destruct (take_digits s) as [d r]. simpl in *.
      repeat split; [congruence | now constructor | exact Hhd].
    + simpl. repeat split; [constructor | exact E].
Qed.

Lemma value_run_app (v r : list Z) :
  value_tokens v -> value_run (v ++ QUOTE :: r) = (v, QUOTE :: r).
Proof.
  induction 1 as [|c v Hq Hb _ IH|e v He _ IH].
  - reflexivity.
  - cbn [app]. now rewrite value_run_plain, IH.
  - cbn [app]. now rewrite value_run_escaped, IH.
Qed.

Lemma value_run_spec (s : list Z) :
  forall v r, value_run s = (v, r) -> s = v ++ r /\ value_tokens v.
Proof.
  induction s as [s IH] using (induction_ltof1 _ (@length Z)).
  unfold ltof in IH. intros v r H.
  destruct s as [|c s1]; [injection H as <- <-; split; [reflexivity|constructor]|].
  cbn [value_run] in H.
  destruct (Z.eqb_spec c QUOTE) as [->|Hq];
    [injection H as <- <-; split; [reflexivity|constructor]|].
  destruct (Z.eqb_spec c BACKSLASH) as [->|Hb].
  - destruct s1 as [|e s2];
      [injection H as <- <-; split; [reflexivity|constructor]|].
    destruct (isLineTerminator e) eqn:He;
      [injection H as <- <-; split; [reflexivity|constructor]|].
    destruct (value_run s2) as [v' r'] eqn:E. injection H as <- <-.
    destruct (IH s2 ltac:(simpl; lia) _ _ E) as [-> Hv].
    split; [reflexivity | now constructor].
  - destruct (value_run s1) as [v' r'] eqn:E. injection H as <- <-.
    destruct (IH s1 ltac:(simpl; lia) _ _ E) as [-> Hv].
    split; [reflexivity | now constructor].
Qed.

Lemma quoted_value_iff (s v : list Z) :
  quoted_value s = Some v <->
  exists post, s = [QUOTE] ++ v ++ QUOTE :: post /\ value_tokens v.
Proof.
  split.
  - destruct s as [|c s1]; [discriminate|]. cbn [quoted_value].
    destruct (Z.eqb_spec c QUOTE) as [->|]; [|discriminate].
    destruct (value_run s1) as [v' r] eqn:E.
    destruct (value_run_spec _ _ _ E) as [-> Hv].
    destruct r as [|q r]; [discriminate|].
    destruct (Z.eqb_spec q QUOTE) as [->|]; [|discriminate].
    intros [= <-]. now exists r.
  - intros (post & -> & Hv). cbn [app quoted_value].
    change (QUOTE =? QUOTE) with true. cbv iota.
    now rewrite value_run_app.
Qed.

Lemma startsWith_str_ (s : list Z) :
  startsWith lit_str_ s = true <-> s = lit_str_ ++ drop 4 s.
Proof.
  rewrite startsWith_prefix. split.
  - intros [k ->]. reflexivity.
  - intros ->. now exists (drop 4 s).
Qed.

Lemma digit_not_space (c : Z) : isDigit c = true -> isSpace c = false.
Proof.
  rewrite isDigit_range. intros H. unfold isSpace.
  repeat match goal with
         | |- context [?a <=? ?b] => destruct (Z.leb_spec a b); try lia
         | |- context [?a =? ?b] => destruct (Z.eqb_spec a b); try lia
         end; reflexivity.
Qed.

Lemma digits_head (d r : list Z) :
  digits d -> exists c d', d ++ r = c :: d' ++ r /\ d = c :: d' /\ isDigit c = true.
Proof.
  intros [Hne Hd]. destruct d as [|c d']; [contradiction|].
  apply Forall_cons in Hd as [Hc _]. now exists c, d'.
Qed.

Lemma edit_match_here_iff (s d v : list Z) :
  edit_match_here s = Some (d, v) <-> edit_pattern_at s d v.
Proof.
  unfold edit_match_here, edit_pattern_at. split.
  - destruct (startsWith lit_str_ s) eqn:Hs; [|discriminate].
    apply startsWith_str_ in Hs.
    destruct (take_digits_spec (drop 4 s)) as (Hd & Hdig & _).
    destruct (take_digits (drop 4 s)) as [d0 r]. cbn [fst snd] in *.
    destruct d0 as [|c0 d0]; [discriminate|].
    destruct (skip_spaces_spec r) as (ws1 & Hr & Hws1 & _).
    destruct (skip_spaces r) as [|c r']; [discriminate|].
    destruct (Z.eqb_spec c 61) as [->|]; [|discriminate].
    destruct (skip_spaces_spec r') as (ws2 & Hr' & Hws2 & _).
    destruct (quoted_value (skip_spaces r')) as [v0|] eqn:Hq; [|discriminate].
    intros [= <- <-].
    apply quoted_value_iff in Hq as (post & Hq & Hv).
    exists ws1, ws2, post. repeat split; try assumption; [|discriminate].
    rewrite Hs, Hd, Hr, Hr', Hq at 1. reflexivity.
  - intros (ws1 & ws2 & post & -> & Hd & Hws1 & Hws2 & Hv).
    change (startsWith lit_str_ (lit_str_ ++ ?x)) with (startsWith [] x).
    cbn [startsWith]. change (drop 4 (lit_str_ ++ ?x)) with x.
    assert (Hr : skip_spaces (ws1 ++ [61] ++ ws2 ++ [QUOTE] ++ v ++ QUOTE :: post)
                 = 61 :: ws2 ++ [QUOTE] ++ v ++ QUOTE :: post)
      by now apply skip_spaces_app.
    assert (Hr' : skip_spaces (ws2 ++ [QUOTE] ++ v ++ QUOTE :: post)
                  = [QUOTE] ++ v ++ QUOTE :: post)
      by now apply skip_spaces_app.
    assert (Htd : take_digits (d ++ ws1 ++ [61] ++ ws2 ++ [QUOTE] ++ v ++ QUOTE :: post)
                  = (d, ws1 ++ [61] ++ ws2 ++ [QUOTE] ++ v ++ QUOTE :: post)).
    { destruct Hws1 as [|w ws1 Hw _].
      - now apply take_digits_app; [apply Hd|].
      - apply take_digits_app; [apply Hd|].
        destruct (isDigit w) eqn:E; [|reflexivity].
        apply digit_not_space in E. congruence. }
    rewrite Htd. destruct Hd as [Hne _]. destruct d as [|c d]; [contradiction|].
    rewrite Hr. change (61 =? 61) with true. cbv iota. rewrite Hr'.
    assert (Hq : quoted_value ([QUOTE] ++ v ++ QUOTE :: post) = Some v)
      by (apply quoted_value_iff; now exists post).
    now rewrite Hq.
Qed.

Lemma ref_match_here_iff (s d v : list Z) :
  ref_match_here s = Some (d, v) <-> ref_pattern_at s d v.
Proof.
  unfold ref_match_here, ref_pattern_at. split.
  - destruct (startsWith lit_str_ s) eqn:Hs; [|discriminate].
    apply startsWith_str_ in Hs.
    destruct (skip_spaces_spec (drop 4 s)) as (ws0 & Hs0 & Hws0 & _).
    destruct (take_digits_spec (skip_spaces (drop 4 s))) as (Hd & Hdig & _).
    destruct (take_digits (skip_spaces (drop 4 s))) as [d0 r]. cbn [fst snd] in *.
    destruct d0 as [|c0 d0]; [discriminate|].
    destruct (skip_spaces_spec r) as (ws1 & Hr & Hws1 & _).
    destruct (skip_spaces r) as [|c r']; [discriminate|].
    destruct (Z.eqb_spec c 124) as [->|]; [|discriminate].
    destruct (skip_spaces_spec r') as (ws2 & Hr' & Hws2 & _).
    destruct (quoted_value (skip_spaces r')) as [v0|] eqn:Hq; [|discriminate].
    intros [= <- <-].
    apply quoted_value_iff in Hq as (post & Hq & Hv).
    exists ws0, ws1, ws2, post. repeat split; try assumption; [|discriminate].
    rewrite Hs, Hs0, Hd, Hr, Hr', Hq at 1. reflexivity.
  - intros (ws0 & ws1 & ws2 & post & -> & Hws0 & Hd & Hws1 & Hws2 & Hv).
    change (startsWith lit_str_ (lit_str_ ++ ?x)) with (startsWith [] x).
    cbn [startsWith]. change (drop 4 (lit_str_ ++ ?x)) with x.
    destruct (digits_head d (ws1 ++ [124] ++ ws2 ++ [QUOTE] ++ v ++ QUOTE :: post) Hd)
      as (c & d' & Hhd & Hdeq & Hc).
    assert (Hr0 : skip_spaces (ws0 ++ d ++ ws1 ++ [124] ++ ws2 ++ [QUOTE] ++ v ++ QUOTE :: post)
                  = d ++ ws1 ++ [124] ++ ws2 ++ [QUOTE] ++ v ++ QUOTE :: post).
    { rewrite Hhd. apply skip_spaces_app; [assumption|].
      now apply digit_not_space. }
    assert (Hr : skip_spaces (ws1 ++ [124] ++ ws2 ++ [QUOTE] ++ v ++ QUOTE :: post)
                 = 124 :: ws2 ++ [QUOTE] ++ v ++ QUOTE :: post)
      by now apply skip_spaces_app.
    assert (Hr' : skip_spaces (ws2 ++ [QUOTE] ++ v ++ QUOTE :: post)
                  = [QUOTE] ++ v ++ QUOTE :: post)
      by now apply skip_spaces_app.
    assert (Htd : take_digits (d ++ ws1 ++ [124] ++ ws2 ++ [QUOTE] ++ v ++ QUOTE :: post)
                  = (d, ws1 ++ [124] ++ ws2 ++ [QUOTE] ++ v ++ QUOTE :: post)).
    { destruct Hws1 as [|w ws1 Hw _].
      - now apply take_digits_app; [apply Hd|].
      - apply take_digits_app; [apply Hd|].
        destruct (isDigit w) eqn:E; [|reflexivity].
        apply digit_not_space in E. congruence. }
    rewrite Hr0, Htd. rewrite Hdeq. rewrite Hr.
    change (124 =? 124) with true. cbv iota. rewrite Hr'.
    assert (Hq : quoted_value ([QUOTE] ++ v ++ QUOTE :: post) = Some v)
      by (apply quoted_value_iff; now exists post).
    rewrite Hq. now rewrite <- Hdeq.
Qed.

Lemma search_here (here : list Z -> option (list Z * list Z))
    (line : list Z) (m : list Z * list Z) :
  here line = Some m -> search here line = Some m.
Proof. intros H. destruct line; simpl; now rewrite H. Qed.

Lemma search_skip (here : list Z -> option (list Z * list Z))
    (c : Z) (line : list Z) :
  here (c :: line) = None -> search here (c :: line) = search here line.
Proof. intros H. simpl. now rewrite H. Qed.

(** [search] returns the leftmost match. *)
Lemma search_leftmost (here : list Z -> option (list Z * list Z))
    (pattern_at : list Z -> list Z -> list Z -> Prop) :
  (forall s d v, here s = Some (d, v) <-> pattern_at s d v) ->
  forall line d v,
    search here line = Some (d, v) <-> leftmost pattern_at line d v.
Proof.
  intros Hiff line d v. split.
  - induction line as [|c line IH].
    + simpl. destruct (here []) as [m|] eqn:E; [|discriminate].
      intros [= ->]. exists [], []. repeat split.
      * now apply Hiff.
      * simpl. lia.
    + destruct (here (c :: line)) as [m|] eqn:E.
      * rewrite (search_here _ _ _ E). intros [= ->].
        exists [], (c :: line). repeat split.
        -- now apply Hiff.
        -- simpl. lia.
      * rewrite (search_skip _ _ _ E). intros H.
        destruct (IH H) as (pre & s & -> & Hp & Hmin).
        exists (c :: pre), s. repeat split; [assumption|].
        intros pre' s' d' v' Heq Hlen Hp'.
        destruct pre' as [|c' pre'].
        -- simpl in Heq. subst s'. apply Hiff in Hp'. congruence.
        -- injection Heq as <- Heq. apply (Hmin pre' s' d' v' Heq); [|assumption].
           simpl in Hlen. lia.
  - intros (pre & s & -> & Hp & Hmin).
    induction pre as [|c pre IH].
    + apply search_here. now apply Hiff.
    + cbn [app]. rewrite search_skip.
      * apply IH. intros pre' s' d' v' Heq Hlen.
        apply (Hmin (c :: pre') s' d' v'); simpl; [congruence | lia].
      * destruct (here (c :: pre ++ s)) as [[d' v']|] eqn:E; [|reflexivity].
        exfalso. apply Hiff in E.
        apply (Hmin [] (c :: pre ++ s) d' v'); [reflexivity | simpl; lia | exact E].
Qed.

Lemma edit_match_leftmost (line d v : list Z) :
  edit_match line = Some (d, v) <-> leftmost edit_pattern_at line d v.
Proof. apply search_leftmost, edit_match_here_iff. Qed.

Lemma ref_match_leftmost (line d v : list Z) :
  ref_match line = Some (d, v) <-> leftmost ref_pattern_at line d v.
Proof. apply search_leftmost, ref_match_here_iff. Qed.

(** A line has a match exactly when the pattern holds somewhere in it. *)
Lemma search_is_Some (here : list Z -> option (list Z * list Z))
    (pattern_at : list Z -> list Z -> list Z -> Prop) :
  (forall s d v, here s = Some (d, v) <-> pattern_at s d v) ->
  forall line,
    is_Some (search here line) <->
    exists pre s d v, line = pre ++ s /\ pattern_at s d v.
Proof.
  intros Hiff line. split.
  - intros [[d v] H]. apply (search_leftmost _ _ Hiff) in H.
    destruct H as (pre & s & Hl & Hp & _). now exists pre, s, d, v.
  - intros (pre & s & d & v & -> & Hp).
    induction pre as [|c pre IH].
    + exists (d, v). apply search_here. now apply Hiff.
    + cbn [app]. destruct (here (c :: pre ++ s)) as [m|] eqn:E.
      * exists m. now apply search_here.
      * now rewrite search_skip.
Qed.

(** ** Conversion of the reference text *)

Lemma convert_fold (lines : list (list Z)) (output : list Z) :
  fold_left convert_step lines output = output ++ flat_map emitted lines.
Proof.
  revert output. induction lines as [|line lines IH]; intros output; simpl.
  - now rewrite app_nil_r.
  - rewrite IH. unfold convert_step, emitted.
    destruct (ref_match line) as [[id value]|].
    + now rewrite <- app_assoc.
    + reflexivity.
Qed.

Lemma ref_match_None_iff (line : list Z) :
  ref_match line = None <->
  ~ exists pre s d v, line = pre ++ s /\ ref_pattern_at s d v.
Proof.
  rewrite <- (search_is_Some _ _ ref_match_here_iff line).
  fold ref_match. destruct (ref_match line); split.
  - discriminate.
  - intros H. exfalso. apply H. eauto.
  - intros _ [x H]. discriminate.
  - reflexivity.
Qed.

(** A line without the pipe character has no match. *)
Lemma ref_match_needs_pipe (line : list Z) :
  124 ∉ line -> ref_match line = None.
Proof.
  intros Hpipe. apply ref_match_None_iff.
  intros (pre & s & d & v & -> & ws0 & ws1 & ws2 & post & -> & _).
  apply Hpipe. rewrite !elem_of_app. right. right. right. right. right. left.
  apply list_elem_of_singleton. reflexivity.
Qed.

Lemma split_lines_text (l : list Z) (lines : list (list Z)) :
  Forall (fun x => NEWLINE ∉ x) (l :: lines) ->
  split_lines (lines_text (l :: lines)) = l :: lines.
Proof.
  revert l. induction lines as [|l' lines IH]; intros l H.
  - apply Forall_cons in H as [Hl _]. now apply split_lines_one.
  - apply Forall_cons in H as [Hl H].
    change (lines_text (l :: l' :: lines))
      with (l ++ NEWLINE :: lines_text (l' :: lines)).
    rewrite split_lines_app_newline, split_lines_one, IH by assumption.
    reflexivity.
Qed.

(** C7: the conversion returns the config header followed, for the lines
    of the input in order, by the config line made of the digits and the
    value of each line the reference pattern matches, and by nothing for a
    line it does not match ([emitted]).  The lines are the pieces between
    line breaks: for a text put together from any lines without a line
    break, with a line break between one and the next, the output is the
    header followed by what is emitted for each of these lines, so two
    lines that match give two config lines.  A line is matched exactly
    when the pattern (str_, white space, digits, white space, the pipe,
    white space, a quoted value without an unescaped quote) holds
    somewhere in it, and the digits and the value emitted are those of
    its leftmost occurrence.  The reference line for id 3 and value
    Cancel converts to the config line for id 3 and value Cancel; the
    same line without the pipe is dropped; and of that line, a comment
    line and the reference line for id 4 and value OK, the first and the
    third are converted in this order and the comment is dropped. *)
Theorem convertReferenceToConfig_spec (referenceText fileName : list Z) :
  convertReferenceToConfig referenceText fileName
    = config_header fileName ++ flat_map emitted (split_lines referenceText) /\
  (forall l lines,
      Forall (fun x => NEWLINE ∉ x) (l :: lines) ->
      convertReferenceToConfig (lines_text (l :: lines)) fileName
      = config_header fileName ++ flat_map emitted (l :: lines)) /\
  (forall l1 l2,
      NEWLINE ∉ l1 -> NEWLINE ∉ l2 ->
      convertReferenceToConfig (l1 ++ NEWLINE :: l2) fileName
      = config_header fileName ++ emitted l1 ++ emitted l2) /\
  (forall line d v,
      ref_match line = Some (d, v) <-> leftmost ref_pattern_at line d v) /\
  (forall line,
      ref_match line = None <->
      ~ exists pre s d v, line = pre ++ s /\ ref_pattern_at s d v) /\
  convertReferenceToConfig
    (js "str_    3 | " ++ [QUOTE] ++ js "Cancel" ++ [QUOTE]) fileName
    = config_header fileName ++ js "str_3 = " ++ [QUOTE] ++ js "Cancel" ++ [QUOTE; NEWLINE] /\
  convertReferenceToConfig
    (js "str_    3 " ++ [QUOTE] ++ js "Cancel" ++ [QUOTE]) fileName
    = config_header fileName /\
  convertReferenceToConfig
    (js "str_    3 | " ++ [QUOTE] ++ js "Cancel" ++ [QUOTE; NEWLINE] ++
     js "# ------|------" ++ [NEWLINE] ++
     js "str_    4 | " ++ [QUOTE] ++ js "OK" ++ [QUOTE]) fileName
    = config_header fileName ++
      js "str_3 = " ++ [QUOTE] ++ js "Cancel" ++ [QUOTE; NEWLINE] ++
      js "str_4 = " ++ [QUOTE] ++ js "OK" ++ [QUOTE; NEWLINE].
Proof.
  split; [apply convert_fold|].
  split.
  { intros l lines Hlines. unfold convertReferenceToConfig.
    now rewrite convert_fold, split_lines_text. }
  split.
  { intros l1 l2 H1 H2. unfold convertReferenceToConfig.
    rewrite convert_fold, split_lines_app_newline, !split_lines_one
      by assumption.
    cbn [app flat_map]. now rewrite app_nil_r. }
  split; [apply ref_match_leftmost|].
  split; [apply ref_match_None_iff|].
  split; [|split].
  - unfold convertReferenceToConfig. rewrite convert_fold. reflexivity.
  - unfold convertReferenceToConfig. rewrite convert_fold. apply app_nil_r.
  - unfold convertReferenceToConfig. rewrite convert_fold. reflexivity.
Qed.

(** ** The edit set *)

Lemma replacements_fold_other (lines : list (list Z)) (m : gmap Z (list Z)) (k : Z) :
  Forall (fun l => forall d v, edit_match l = Some (d, v) -> parseInt d <> k) lines ->
  fold_left replacements_step lines m !! k = m !! k.
Proof.
  intros H. revert m. induction H as [|l lines Hl _ IH]; intros m; simpl.
  - reflexivity.
  - rewrite IH. unfold replacements_step.
    destruct (edit_match l) as [[d v]|] eqn:E; [|reflexivity].
    apply lookup_insert_ne. now apply (Hl d v).
Qed.

(** The last matching line for an id decides its binding. *)
Lemma replacements_last_wins (lines1 lines2 : list (list Z)) (line d v : list Z)
    (m : gmap Z (list Z)) :
  edit_match line = Some (d, v) ->
  Forall (fun l => forall d' v', edit_match l = Some (d', v') ->
                                 parseInt d' <> parseInt d) lines2 ->
  fold_left replacements_step (lines1 ++ line :: lines2) m !! parseInt d
  = Some (fromJavaUnicode v).
Proof.
  intros Hm Hlater. rewrite fold_left_app. cbn [fold_left].
  rewrite replacements_fold_other by assumption.
  unfold replacements_step at 1. rewrite Hm. apply lookup_insert_eq.
Qed.

Lemma value_tokens_escape (t : list Z) :
  Forall (fun c => 0 <= c) t -> value_tokens (toJavaUnicode t).
Proof.
  induction 1 as [|c t Hc Ht IH]; [constructor|].
  rewrite toJavaUnicode_cons.
  destruct (escape_char_cases c Hc)
    as [[-> [->| ->]] | [(h1 & h2 & -> & Hlt & _ & Hh1 & Hh2) | (-> & Hge & Hq & Hb)]].
  - now apply vt_escape.
  - now apply vt_escape.
  - cbn [app]. apply vt_escape; [reflexivity|].
    repeat (apply vt_char; [unfold QUOTE; lia | unfold BACKSLASH; lia |]).
    exact IH.
  - now apply vt_char.
Qed.

(** A config line written by extraction matches the edit pattern from
    its first character, with the captures it was written from. *)
Lemma edit_match_config_body (id : Z) (t : list Z) :
  Forall (fun c => 0 <= c) t ->
  edit_match (config_body (toString id) (toJavaUnicode t))
  = Some (toString id, toJavaUnicode t).
Proof.
  intros Ht. apply search_here, edit_match_here_iff.
  exists [32], [32], []. repeat split.
  - apply toString_nonempty.
  - apply toString_digits.
  - now repeat constructor.
  - now repeat constructor.
  - now apply value_tokens_escape.
Qed.

Lemma config_body_one_line (id : Z) (t : list Z) :
  Forall (fun c => 0 <= c) t ->
  NEWLINE ∉ config_body (toString id) (toJavaUnicode t).
Proof.
  intros Ht. unfold config_body. rewrite !elem_of_app.
  intros [H|[H|[H|[H|[H|H]]]]].
  - apply list_elem_of_In in H. cbv in H. intuition discriminate.
  - pose proof (toString_digits id) as Hd. rewrite Forall_forall in Hd.
    apply Hd, isDigit_range in H. unfold NEWLINE in H. lia.
  - apply list_elem_of_In in H. cbv in H. intuition discriminate.
  - apply list_elem_of_singleton in H. discriminate.
  - pose proof (toJavaUnicode_printable t Ht) as Hp. rewrite Forall_forall in Hp.
    apply Hp in H. unfold NEWLINE in H. lia.
  - apply list_elem_of_singleton in H. discriminate.
Qed.

Lemma config_line_body (id value : list Z) :
  config_line id value = config_body id value ++ [NEWLINE].
Proof. unfold config_line, config_body. now rewrite <- !app_assoc. Qed.

Lemma split_config_lines (texts : list (list Z)) :
  Forall (Forall (fun c => 0 <= c)) texts ->
  forall id, split_lines (config_lines id texts) = config_bodies id texts ++ [[]].
Proof.
  induction 1 as [|t ts Ht _ IH]; intros id; [reflexivity|].
  cbn [config_lines config_bodies]. rewrite config_line_body, <- app_assoc.
  cbn [app]. rewrite split_lines_app_newline, IH.
  now rewrite split_lines_one by now apply config_body_one_line.
Qed.

Lemma split_config_header (fileName rest : list Z) :
  exists ls, split_lines (config_header fileName ++ rest) = ls ++ split_lines rest.
Proof.
  exists (split_lines
            (js "# Translation File: " ++ fileName ++ [NEWLINE] ++
             js "# Only edit text inside quotes " ++ [QUOTE] ++ js "..." ++
             [QUOTE; NEWLINE] ++
             js "# Format: str_ID = " ++ [QUOTE] ++ js "Value" ++
             [QUOTE; NEWLINE])).
  rewrite <- split_lines_app_newline. f_equal.
  unfold config_header. rewrite <- !app_assoc. reflexivity.
Qed.

Lemma config_bodies_keys (texts : list (list Z)) :
  Forall (Forall (fun c => 0 <= c)) texts ->
  forall id k, 0 <= k < id ->
    Forall (fun l => forall d v, edit_match l = Some (d, v) -> parseInt d <> k)
           (config_bodies id texts ++ [[]]).
Proof.
  induction 1 as [|t ts Ht _ IH]; intros id k Hk; cbn [config_bodies app].
  - constructor; [|constructor]. intros d v H. discriminate.
  - constructor; [|apply IH; lia].
    intros d v H. rewrite edit_match_config_body in H by assumption.
    injection H as <- <-. rewrite parseInt_toString; lia.
Qed.

Lemma replacements_of_config_bodies (texts : list (list Z)) :
  Forall (Forall (fun c => 0 <= c)) texts ->
  forall id m (j : nat) t, 0 <= id ->
    texts !! j = Some t ->
    fold_left replacements_step (config_bodies id texts ++ [[]]) m
      !! (id + Z.of_nat j) = Some t.
Proof.
  induction 1 as [|t0 ts Ht0 Hts IH]; intros id m j t Hid Hj; [discriminate|].
  cbn [config_bodies app]. destruct j as [|j].
  - injection Hj as ->. replace (id + Z.of_nat 0) with id by lia.
    pose proof (replacements_last_wins []
                  (config_bodies (id + 1) ts ++ [[]])
                  (config_body (toString id) (toJavaUnicode t))
                  (toString id) (toJavaUnicode t) m
                  (edit_match_config_body id t Ht0)) as H.
    rewrite parseInt_toString, fromJavaUnicode_toJavaUnicode in H by assumption.
    apply H. apply config_bodies_keys; [assumption | lia].
  - cbn [fold_left].
    replace (id + Z.of_nat (S j)) with ((id + 1) + Z.of_nat j) by lia.
    apply IH; [lia | exact Hj].
Qed.

(** Parsing the text extraction wrote binds every id to its string. *)
Lemma replacements_of_extraction (fileName : list Z) (texts : list (list Z))
    (j : nat) (t : list Z) :
  Forall (Forall (fun c => 0 <= c)) texts ->
  texts !! j = Some t ->
  parse_replacements (config_header fileName ++ config_lines 0 texts)
    !! Z.of_nat j = Some t.
Proof.
  intros Htexts Hj. unfold parse_replacements.
  destruct (split_config_header fileName (config_lines 0 texts)) as [ls ->].
  rewrite split_config_lines, fold_left_app by assumption.
  apply (replacements_of_config_bodies texts Htexts 0 _ j t); [lia | exact Hj].
Qed.

(** ** Decoded texts *)

Lemma lead_nonneg (b : Z) :
  0 <= b ->
  match lead b with
  | Emit c => 0 <= c
  | Need _ c _ _ => 0 <= c
  | Bad => True
  end.
Proof.
  intros Hb. unfold lead.
  destruct (b <=? 127); [assumption|].
  destruct ((194 <=? b) && (b <=? 223)); [apply Z.land_nonneg; lia|].
  destruct ((224 <=? b) && (b <=? 239)); [apply Z.land_nonneg; lia|].
  destruct ((240 <=? b) && (b <=? 244)); [apply Z.land_nonneg; lia|].
  exact I.
Qed.

Lemma utf8_decode_loop_nonneg (bs : list Z) :
  Forall (fun b => 0 <= b) bs ->
  forall cp needed lower upper, 0 <= cp ->
    Forall (fun c => 0 <= c) (utf8_decode_loop bs cp needed lower upper).
Proof.
  induction 1 as [|b bs Hb _ IH]; intros cp needed lower upper Hcp; simpl.
  - destruct (needed =? 0); repeat constructor. lia.
  - pose proof (lead_nonneg b Hb) as Hlead.
    assert (Hfresh : Forall (fun c => 0 <= c)
              match lead b with
              | Emit c => c :: utf8_decode_loop bs 0 0 128 191
              | Need n c lo hi => utf8_decode_loop bs c n lo hi
              | Bad => 65533 :: utf8_decode_loop bs 0 0 128 191
              end).
    { destruct (lead b); [constructor; [assumption|] | | constructor; [lia|]];
        apply IH; first [assumption | lia]. }
    destruct (needed =? 0); [exact Hfresh|].
    assert (Hcp' : 0 <= Z.lor (Z.shiftl cp 6) (Z.land b 63)).
    { apply Z.lor_nonneg. split; [now apply Z.shiftl_nonneg|].
      apply Z.land_nonneg. now left. }
    destruct ((lower <=? b) && (b <=? upper)).
    + destruct (needed =? 1); [constructor; [assumption|]|]; apply IH;
        first [assumption | lia].
    + constructor; [lia | exact Hfresh].
Qed.

Lemma cp_units_nonneg (cp : Z) : 0 <= cp -> Forall (fun c => 0 <= c) (cp_units cp).
Proof.
  intros H. unfold cp_units. destruct (Z.ltb_spec cp 65536).
  - now repeat constructor.
  - repeat constructor.
    + pose proof (proj2 (Z.shiftr_nonneg (cp - 65536) 10) ltac:(lia)). lia.
    + pose proof (proj2 (Z.land_nonneg (cp - 65536) 1023) ltac:(lia)). lia.
Qed.

Lemma decode_nonneg (bytes : list byte) : Forall (fun c => 0 <= c) (decode bytes).
Proof.
  unfold decode.
  assert (H : Forall (fun c => 0 <= c)
                (utf8_decode_loop (map u8 bytes) 0 0 128 191)).
  { apply utf8_decode_loop_nonneg; [|lia].
    apply Forall_map, Forall_forall. intros b _. apply u8_range. }
  assert (H' : Forall (fun c => 0 <= c)
                 (strip_bom (utf8_decode_loop (map u8 bytes) 0 0 128 191))).
  { destruct H as [|c l Hc Hl]; simpl; [constructor|].
    destruct (c =? 65279); [assumption | now constructor]. }
  induction H' as [|c l Hc _ IH]; simpl; [constructor|].
  apply Forall_app. split; [now apply cp_units_nonneg | exact IH].
Qed.

Lemma eligible_nonneg (unicode_L : Z -> bool) (es : list entry) :
  Forall (Forall (fun c => 0 <= c)) (eligible unicode_L es).
Proof.
  apply Forall_forall. intros t Ht. unfold eligible in Ht.
  apply list_elem_of_In, filter_In in Ht as [Ht _].
  apply list_elem_of_In in Ht. unfold utf8_texts in Ht.
  apply list_elem_of_omap in Ht as (e & _ & He).
  destruct e as [raw|]; [|discriminate]. injection He as <-.
  apply decode_nonneg.
Qed.

(** ** Assembling with the extracted text *)

(** If every id of [es] is bound to the text of its entry, and encoding
    gives back the payload of every eligible entry, rewriting the entries
    copies them. *)
Lemma rewrite_entries_identity (unicode_L : Z -> bool)
    (replacements : gmap Z (list Z)) (es : list entry) :
  forall stringIndex,
    (forall (j : nat) t, eligible unicode_L es !! j = Some t ->
                         replacements !! (stringIndex + Z.of_nat j) = Some t) ->
    Forall (fun e => match e with
                     | Utf8 raw => isValidString unicode_L (decode raw) = true ->
                                   encode (decode raw) = raw
                     | Other _ _ => True
                     end) es ->
    Forall wf_entry es ->
    rewrite_entries unicode_L replacements stringIndex es
    = writeBytes (pool_bytes es).
Proof.
  induction es as [|e es IH]; intros sidx Hreps Hstable Hwf; [reflexivity|].
  apply Forall_cons in Hstable as [Hst Hstable].
  apply Forall_cons in Hwf as [Hwe Hwf].
  change (pool_bytes (e :: es)) with (entry_bytes e ++ pool_bytes es).
  rewrite writeBytes_app.
  destruct e as [raw|tag p]; cbn [rewrite_entries].
  - rewrite eligible_cons_utf8 in Hreps.
    destruct (isValidString unicode_L (decode raw)) eqn:Hok.
    + pose proof (Hreps 0%nat (decode raw) eq_refl) as H0.
      replace (sidx + Z.of_nat 0) with sidx in H0 by lia.
      rewrite H0, (Hst eq_refl).
      rewrite IH; [| |assumption..].
      * now rewrite writeBytes_entry_utf8, <- !app_assoc.
      * intros j t Hj. replace (sidx + 1 + Z.of_nat j) with (sidx + Z.of_nat (S j)) by lia.
        now apply Hreps.
    + now rewrite IH.
  - now rewrite IH.
Qed.

Lemma rewrite_with_extraction (unicode_L : Z -> bool) (fileName : list Z)
    (es : list entry) :
  Forall (reencodes unicode_L) es -> Forall wf_entry es ->
  rewrite_entries unicode_L
    (parse_replacements
       (config_header fileName ++ config_lines 0 (eligible unicode_L es))) 0 es
  = writeBytes (pool_bytes es).
Proof.
  intros Hre Hwf. apply rewrite_entries_identity; [|exact Hre|exact Hwf].
  intros j t Hj. rewrite Z.add_0_l.
  apply replacements_of_extraction; [apply eligible_nonneg | exact Hj].
Qed.

(** C2, amended: for a valid class file whose eligible Utf8 payloads are
    given back by encoding their decoded text, assembling the file with the
    text extraction returned for it, unedited, returns the file itself. *)
Theorem roundtrip_identity (unicode_L : Z -> bool) (version : list byte)
    (es : list entry) (rest : list byte) (fileName : list Z) :
  valid_class version es ->
  Forall (reencodes unicode_L) es ->
  exists config,
    extractStringsFromClass unicode_L (class_bytes version es rest) fileName
      = Ok config /\
    assembleClassFile unicode_L (class_bytes version es rest) config
      = Ok (class_bytes version es rest).
Proof.
  intros Hvalid Hre. eexists. split; [now apply extract_class|].
  rewrite assemble_class by assumption. f_equal.
  unfold assembled, class_bytes.
  rewrite rewrite_with_extraction by (first [assumption | apply Hvalid]).
  now rewrite Uint8Array_of_writeBytes.
Qed.

Lemma valid_ok_class : valid_class version52 ok_entries.
Proof.
  split; [reflexivity|]. split; [|reflexivity].
  apply Forall_cons. split; [simpl; lia|].
  apply Forall_cons. split; [|constructor].
  apply list_elem_of_In. cbv. tauto.
Qed.

Lemma roundtrip_identity_witness :
  exists config,
    extractStringsFromClass no_letters ok_class (js "A.class") = Ok config /\
    assembleClassFile no_letters ok_class config = Ok ok_class.
Proof.
  apply (roundtrip_identity no_letters version52 ok_entries [x09] (js "A.class")).
  - exact valid_ok_class.
  - apply Forall_cons. split; [intros _; reflexivity|].
    apply Forall_cons. split; [exact I | constructor].
Defined.

(** C2 as stated fails: the file [nul_class] is valid, and assembling it
    with its own extracted text returns a different buffer (each of the
    bytes C0 and 80 comes back as the three bytes of U+FFFD). *)
Lemma roundtrip_counterexample :
  valid_class version52 nul_entries /\
  exists config out,
    extractStringsFromClass no_letters nul_class (js "A.class") = Ok config /\
    assembleClassFile no_letters nul_class config = Ok out /\
    out = [xca; xfe; xba; xbe; x00; x00; x00; x34; x00; x02;
           x01; x00; x08; x48; x69; xef; xbf; xbd; xef; xbf; xbd] /\
    nul_class = [xca; xfe; xba; xbe; x00; x00; x00; x34; x00; x02;
                 x01; x00; x04; x48; x69; xc0; x80] /\
    out <> nul_class.
Proof.
  split.
  - split; [reflexivity|]. split; [|reflexivity].
    apply Forall_cons. split; [simpl; lia | constructor].
  - eexists. eexists. split; [vm_compute; reflexivity|].
    split; [vm_compute; reflexivity|].
    split; [reflexivity|]. split; [reflexivity|]. discriminate.
Qed.

(** ** The two walks agree *)

(** The extraction loop and the assembly loop, started in the same state,
    log the same visits, whatever the fuel and however they end. *)
Lemma loops_agree (unicode_L : Z -> bool) (content : list byte)
    (replacements : gmap Z (list Z)) (cpCount : Z) (fuel : nat) :
  forall i offset stringIndex output newBytes log,
    (extract_loop unicode_L fuel content cpCount i offset stringIndex
       output log).1
    = (assemble_loop unicode_L fuel content replacements cpCount i offset
         stringIndex newBytes log).1.
Proof.
  induction fuel as [|fuel IH]; intros i offset sidx output newBytes log;
    cbn [extract_loop assemble_loop].
  - destruct (negb (i <? cpCount)); reflexivity.
  - destruct (negb (i <? cpCount)); [reflexivity|].
    destruct (getUint8 content offset) as [tag| |]; [|reflexivity..].
    destruct (tag =? CONSTANT_Utf8).
    + destruct (getUint16 content (offset + 1)) as [len| |]; [|reflexivity..].
      destruct (isValidString unicode_L _).
      * destruct (replacements !! sidx); apply IH.
      * apply IH.
    + unfold extract_switch, assemble_switch.
      repeat match goal with
             | |- context [if ?b then _ else _] => destruct b
             end; first [apply IH | reflexivity].
Qed.

Lemma switches_agree (tag offset i : Z) :
  match extract_switch tag offset i, assemble_switch tag i with
  | Some (offset', i1), Some (size, i2) =>
      offset' = offset + size /\ i1 = i2 /\ i <= i1
  | None, None => True
  | _, _ => False
  end.
Proof.
  unfold extract_switch, assemble_switch.
  repeat match goal with
         | |- context [if ?b then _ else _] => destruct b
         end; repeat split; lia.
Qed.

Lemma byte_at_outcome (c : list byte) (off : Z) :
  (exists v, byte_at c off = Ok v) \/ byte_at c off = Throw RangeError.
Proof.
  unfold byte_at. destruct (off <? 0); [now right|].
  destruct (c !! Z.to_nat off); [left; eauto | now right].
Qed.

Lemma getUint16_outcome (c : list byte) (off : Z) :
  (exists v, getUint16 c off = Ok v) \/ getUint16 c off = Throw RangeError.
Proof.
  unfold getUint16.
  destruct (byte_at_outcome c off) as [[hi ->]| ->]; [|now right].
  destruct (byte_at_outcome c (off + 1)) as [[lo ->]| ->]; [|now right].
  left. simpl. eauto.
Qed.

Lemma getUint32_outcome (c : list byte) (off : Z) :
  (exists v, getUint32 c off = Ok v) \/ getUint32 c off = Throw RangeError.
Proof.
  unfold getUint32.
  destruct (byte_at_outcome c off) as [[b0 ->]| ->]; [|now right].
  destruct (byte_at_outcome c (off + 1)) as [[b1 ->]| ->]; [|now right].
  destruct (byte_at_outcome c (off + 2)) as [[b2 ->]| ->]; [|now right].
  destruct (byte_at_outcome c (off + 3)) as [[b3 ->]| ->]; [|now right].
  left. simpl. eauto.
Qed.

Lemma ends_at_pool_end (output : list Z) (offset : Z) (newBytes : list Z) :
  loops_end_alike (Ok output) (Ok (offset, newBytes)) output [].
Proof. left. cbn. rewrite app_nil_r. eauto. Qed.

Lemma ends_out_of_range (output : list Z) (visits : list visit) :
  loops_end_alike (Throw RangeError) (Throw RangeError) output visits.
Proof. right. left. eauto. Qed.

Lemma ends_unknown_tag (tag offset : Z) (output : list Z) (visits : list visit) :
  loops_end_alike (Ok (msg_unknown_tag_extract tag offset))
    (Throw (Error (msg_unknown_tag_assemble tag))) output visits.
Proof. right. right. eauto. Qed.

(** With enough fuel the two loops, started in the same state, add the
    same visits to the log, numbered from [stringIndex], and end alike;
    the text extraction returns at the end of the pool is its output so
    far followed by the lines of the eligible visits. *)
Lemma loops_walk_alike (unicode_L : Z -> bool) (content : list byte)
    (replacements : gmap Z (list Z)) (cpCount : Z) (fuel : nat) :
  forall i offset stringIndex output newBytes log,
    (Z.to_nat (cpCount - i) <= fuel)%nat ->
    exists visits,
      (extract_loop unicode_L fuel content cpCount i offset stringIndex
         output log).1 = log ++ visits /\
      numbered unicode_L stringIndex visits /\
      loops_end_alike
        (extract_loop unicode_L fuel content cpCount i offset stringIndex
           output log).2
        (assemble_loop unicode_L fuel content replacements cpCount i offset
           stringIndex newBytes log).2
        output visits.
Proof.
  induction fuel as [|fuel IH]; intros i offset sidx output newBytes log Hfuel;
    cbn [extract_loop assemble_loop].
  - assert (E : (i <? cpCount) = false) by (apply Z.ltb_ge; lia).
    rewrite E. exists []. cbn [negb fst snd]. rewrite app_nil_r.
    repeat split. apply ends_at_pool_end.
  - destruct (Z.ltb_spec i cpCount) as [Hlt|Hge]; cbn [negb].
    2:{ exists []. cbn [fst snd]. rewrite app_nil_r.
        repeat split. apply ends_at_pool_end. }
    unfold getUint8.
    destruct (byte_at_outcome content offset) as [[tag ->]| ->].
    2:{ exists []. cbn [fst snd]. rewrite app_nil_r. repeat split.
        apply ends_out_of_range. }
    destruct (tag =? CONSTANT_Utf8).
    + destruct (getUint16_outcome content (offset + 1)) as [[len ->]| ->].
      2:{ exists []. cbn [fst snd]. rewrite app_nil_r. repeat split.
        apply ends_out_of_range. }
      set (text := decode (slice content (offset + 1 + 2) (offset + 1 + 2 + len))).
      destruct (isValidString unicode_L text) eqn:Hok.
      * destruct (replacements !! sidx) as [newText|];
          match goal with
          | |- context [assemble_loop _ _ _ _ _ _ _ _ ?nb _] =>
              destruct (IH (i + 1) (offset + 1 + 2 + len) (sidx + 1)
                          (output ++ config_line (toString sidx) (toJavaUnicode text))
                          nb (log ++ [Visit i offset text true sidx])
                          ltac:(lia)) as (visits & Hlog & Hnum & Hend)
          end;
          (exists (Visit i offset text true sidx :: visits);
           split; [rewrite Hlog, <- app_assoc; reflexivity|];
           split; [cbn; auto|];
           destruct Hend as [[H1 H2]|[H|H]];
           [left; split; [rewrite H1; unfold visit_line at 2; cbn [flat_map v_valid v_id v_text];
                          now rewrite <- !app_assoc | exact H2]
           | right; left; exact H
           | right; right; exact H]).
      * match goal with
        | |- context [assemble_loop _ _ _ _ _ _ _ _ ?nb _] =>
            destruct (IH (i + 1) (offset + 1 + 2 + len) sidx output
                        nb (log ++ [Visit i offset text false sidx])
                        ltac:(lia)) as (visits & Hlog & Hnum & Hend)
        end.
        exists (Visit i offset text false sidx :: visits).
        split; [rewrite Hlog, <- app_assoc; reflexivity|].
        split; [cbn; auto|].
        destruct Hend as [[H1 H2]|[H|H]];
          [left; split; [rewrite H1; reflexivity | exact H2]
          | right; left; exact H
          | right; right; exact H].
    + pose proof (switches_agree tag (offset + 1) i) as Hsw.
      destruct (extract_switch tag (offset + 1) i) as [[offset' i1]|],
               (assemble_switch tag i) as [[size i2]|]; try contradiction.
      * destruct Hsw as (-> & <- & Hi).
        apply IH. lia.
      * exists []. cbn [fst snd]. rewrite app_nil_r. repeat split.
        apply ends_unknown_tag.
Qed.

(** C1: on every buffer, extraction and the re-walk of assembly visit the
    same Utf8 entries in the same order, with the same pool index, offset,
    decoded text, verdict and id; the verdict is that of the filter and the
    ids of the eligible entries count from 0; and the two passes end alike,
    extraction returning, when the walk reaches the end of the pool, the
    header followed by one line per eligible visit under its id.  On a valid
    class file this is the list of eligible strings numbered from 0, and
    assembly rewrites the entries under that same numbering. *)
Theorem walks_agree (unicode_L : Z -> bool) (content : list byte)
    (fileName editorText : list Z) :
  (extract_walk unicode_L content fileName).1
    = (assemble_walk unicode_L content editorText).1 /\
  numbered unicode_L 0 (extract_walk unicode_L content fileName).1 /\
  passes_end_alike
    (extractStringsFromClass unicode_L content fileName)
    (assembleClassFile unicode_L content editorText)
    fileName (extract_walk unicode_L content fileName).1 /\
  (forall version es rest,
      valid_class version es -> content = class_bytes version es rest ->
      extractStringsFromClass unicode_L content fileName
        = Ok (config_header fileName ++ config_lines 0 (eligible unicode_L es)) /\
      assembleClassFile unicode_L content editorText
        = Ok (assembled unicode_L (parse_replacements editorText) version es rest)).
Proof.
  assert (Hmain :
    (extract_walk unicode_L content fileName).1
      = (assemble_walk unicode_L content editorText).1 /\
    numbered unicode_L 0 (extract_walk unicode_L content fileName).1 /\
    passes_end_alike
      (extractStringsFromClass unicode_L content fileName)
      (assembleClassFile unicode_L content editorText)
      fileName (extract_walk unicode_L content fileName).1).
  { unfold extractStringsFromClass, assembleClassFile, extract_walk, assemble_walk.
    destruct (getUint32_outcome content 0) as [[magic ->]| ->].
    2:{ repeat split. right. left. eauto. }
    destruct (magic =? MAGIC); cbn [negb].
    2:{ repeat split. right. right. left. eauto. }
    destruct (getUint16_outcome content 8) as [[cpCount ->]| ->].
    2:{ repeat split. right. left. eauto. }
    pose proof (loops_agree unicode_L content (parse_replacements editorText)
                  cpCount (Z.to_nat cpCount) 1 10 0 (config_header fileName)
                  (writeBytes (take 8 content) ++ writeU2 cpCount) []) as Hlogs.
    destruct (loops_walk_alike unicode_L content (parse_replacements editorText)
                cpCount (Z.to_nat cpCount) 1 10 0 (config_header fileName)
                (writeBytes (take 8 content) ++ writeU2 cpCount) []
                ltac:(lia)) as (visits & Hlog & Hnum & Hend).
    destruct (extract_loop _ _ _ _ _ _ _ _ _) as [log1 r1].
    destruct (assemble_loop _ _ _ _ _ _ _ _ _ _) as [log2 r2].
    cbn [fst snd] in *. subst log2. rewrite app_nil_l in Hlog. subst log1.
    destruct Hend as [[-> (offset & newBytes & ->)]|[[-> ->]|(tag & offset & -> & ->)]];
      cbn [fst snd]; repeat split; try assumption.
    - left. eauto.
    - right. left. eauto.
    - right. right. right. eauto. }
  destruct Hmain as (H1 & H2 & H3). repeat split; try assumption.
  - subst content. now apply extract_class.
  - subst content. now apply assemble_class.
Qed.

Lemma walks_agree_witness :
  (extract_walk no_letters ok_class (js "A.class")).1
    = (assemble_walk no_letters ok_class []).1 /\
  extractStringsFromClass no_letters ok_class (js "A.class")
    = Ok (config_header (js "A.class") ++
          config_lines 0 (eligible no_letters ok_entries)) /\
  assembleClassFile no_letters ok_class []
    = Ok (assembled no_letters (parse_replacements []) version52 ok_entries [x09]).
Proof.
  destruct (walks_agree no_letters ok_class (js "A.class") [])
    as (H1 & _ & _ & H4).
  destruct (H4 version52 ok_entries [x09] valid_ok_class eq_refl) as [H5 H6].
  exact (conj H1 (conj H5 H6)).
Defined.

(** The reference extraction always returns: its loop never runs out of
    fuel. *)
Lemma readable_loop_total (unicode_L : Z -> bool) (content : list byte)
    (cpCount : Z) (fuel : nat) :
  forall i offset stringIndex output log,
    (Z.to_nat (cpCount - i) <= fuel)%nat ->
    (readable_loop unicode_L fuel content cpCount i offset stringIndex
       output log).2 <> OutOfFuel.
Proof.
  induction fuel as [|fuel IH]; intros i offset sidx output log Hfuel;
    cbn [readable_loop].
  - assert (E : (i <? cpCount) = false) by (apply Z.ltb_ge; lia).
    rewrite E. discriminate.
  - destruct (Z.ltb_spec i cpCount) as [Hlt|Hge]; cbn [negb]; [|discriminate].
    unfold getUint8.
    destruct (byte_at_outcome content offset) as [[tag ->]| ->]; [|discriminate].
    destruct (tag =? CONSTANT_Utf8).
    + destruct (getUint16_outcome content (offset + 1)) as [[len ->]| ->];
        [|discriminate].
      destruct (isValidString unicode_L _); apply IH; lia.
    + destruct (readable_switch tag (offset + 1) i) as [offset' i'] eqn:E.
      apply IH.
      assert (i <= i'); [|lia].
      revert E. unfold readable_switch.
      repeat match goal with
             | |- context [if ?b then _ else _] => destruct b
             end; intros [= <- <-]; lia.
Qed.

Lemma extractReadableStrings_total (unicode_L : Z -> bool) (content : list byte) :
  extractReadableStrings unicode_L content <> OutOfFuel.
Proof.
  unfold extractReadableStrings, readable_walk.
  destruct (getUint32_outcome content 0) as [[magic ->]| ->]; [|discriminate].
  destruct (magic =? MAGIC); cbn [negb]; [|discriminate].
  destruct (getUint16_outcome content 8) as [[cpCount ->]| ->]; [|discriminate].
  apply readable_loop_total. lia.
Qed.

(** ** The filter, the unknown tag and the length field on sample files *)

Lemma surrogate_pair_filter (unicode_L : Z -> bool) (hi lo : Z) :
  0xD800 <= hi <= 0xDBFF -> 0xDC00 <= lo <= 0xDFFF ->
  isValidString unicode_L [hi; lo]
  = unicode_L (0x10000 + (hi - 0xD800) * 1024 + (lo - 0xDC00)) /\
  isValidString unicode_L [lo; hi] = unicode_L lo || unicode_L hi.
Proof.
  intros Hhi Hlo.
  assert (Ehi : forall k, k < 128 -> (k =? hi) = false)
    by (intros k Hk; apply Z.eqb_neq; lia).
  assert (Elo : forall k, k < 128 -> (k =? lo) = false)
    by (intros k Hk; apply Z.eqb_neq; lia).
  unfold isValidString, hasLetterOrDigit, code_points.
  cbn [length Nat.ltb Nat.leb startsWith includes lit_Ljava lit_lparen
       lit_rparen lit_unitV lit_Exception lit_METAINF code_points_with].
  rewrite ?Ehi, ?Elo by lia. cbn [andb orb].
  unfold isHighSurrogate, isLowSurrogate.
  replace (55296 <=? hi) with true by (symmetry; apply Z.leb_le; lia).
  replace (hi <=? 56319) with true by (symmetry; apply Z.leb_le; lia).
  replace (56320 <=? lo) with true by (symmetry; apply Z.leb_le; lia).
  replace (lo <=? 57343) with true by (symmetry; apply Z.leb_le; lia).
  replace (55296 <=? lo) with true by (symmetry; apply Z.leb_le; lia).
  replace (lo <=? 56319) with false by (symmetry; apply Z.leb_gt; lia).
  replace (56320 <=? hi) with false by (symmetry; apply Z.leb_gt; lia).
  cbn [andb existsb orb].
  unfold isLetter, isDigit, pair_cp.
  split.
  - replace (_ <? 128) with false by (symmetry; apply Z.ltb_ge; lia).
    replace (_ <=? 57) with false by (symmetry; apply Z.leb_gt; lia).
    now rewrite andb_false_r, !orb_false_r.
  - replace (lo <? 128) with false by (symmetry; apply Z.ltb_ge; lia).
    replace (hi <? 128) with false by (symmetry; apply Z.ltb_ge; lia).
    replace (lo <=? 57) with false by (symmetry; apply Z.leb_gt; lia).
    replace (hi <=? 57) with false by (symmetry; apply Z.leb_gt; lia).
    now rewrite !andb_false_r, !orb_false_r.
Qed.

Lemma pair_in_code_points (hi lo : Z) (post : list Z) :
  isHighSurrogate hi = true -> isLowSurrogate lo = true ->
  forall n pre, (length pre <= n)%nat ->
    pair_cp hi lo ∈ code_points (pre ++ hi :: lo :: post).
Proof.
  intros Hhi Hlo. unfold code_points.
  induction n as [|n IH]; intros pre Hn.
  - destruct pre; [|simpl in Hn; lia].
    cbn [app code_points_with]. rewrite Hhi, Hlo. apply list_elem_of_here.
  - destruct pre as [|c pre].
    { cbn [app code_points_with]. rewrite Hhi, Hlo. apply list_elem_of_here. }
    cbn [length] in Hn. cbn [app code_points_with].
    destruct (isHighSurrogate c) eqn:Hc.
    + destruct pre as [|d pre].
      * cbn [app].
        assert (E : isLowSurrogate hi = false).
        { unfold isHighSurrogate, isLowSurrogate in *.
          apply andb_true_iff in Hhi as [H1 H2].
          apply Z.leb_le in H1, H2. apply andb_false_iff. left.
          apply Z.leb_gt. lia. }
        rewrite E. apply list_elem_of_further. apply (IH []). simpl. lia.
      * cbn [app]. destruct (isLowSurrogate d).
        -- apply list_elem_of_further. apply IH. cbn [length] in Hn. lia.
        -- apply list_elem_of_further. apply (IH (d :: pre)). lia.
    + destruct (isLowSurrogate c); apply list_elem_of_further; apply IH; lia.
Qed.

(** C6: the filter rejects a text exactly when it is shorter than two code
    units, or starts with Ljava/, or starts with an opening parenthesis and
    contains a closing one, or contains ()V, or contains Exception, or
    starts with META-INF/, or has no code point that is a letter or a digit.
    Letters are judged by code point, not by code unit: the text made of
    the two surrogates of a code point beyond U+FFFF passes exactly when
    that code point is a letter, whatever the two surrogates are on their
    own, while the two in the wrong order are judged each on its own; and
    a text that holds the surrogate pair of a letter anywhere is rejected
    only by one of the other rules.
    The descriptor Ljava/lang/String; is rejected and Hello World is
    accepted: in a file holding the two, the descriptor is visited without
    an id, Hello World gets id 0 and is the one line of both texts, and an
    edit of id 0 replaces Hello World and leaves the descriptor alone. *)
Theorem isValidString_spec (unicode_L : Z -> bool) (text fileName : list Z) :
  (isValidString unicode_L text = false <-> rejected unicode_L text) /\
  (forall hi lo,
      0xD800 <= hi <= 0xDBFF -> 0xDC00 <= lo <= 0xDFFF ->
      isValidString unicode_L [hi; lo]
      = unicode_L (0x10000 + (hi - 0xD800) * 1024 + (lo - 0xDC00)) /\
      isValidString unicode_L [lo; hi] = unicode_L lo || unicode_L hi) /\
  (forall pre post hi lo,
      0xD800 <= hi <= 0xDBFF -> 0xDC00 <= lo <= 0xDFFF ->
      unicode_L (0x10000 + (hi - 0xD800) * 1024 + (lo - 0xDC00)) = true ->
      isValidString unicode_L (pre ++ hi :: lo :: post) = false ->
      lit_Ljava `prefix_of` (pre ++ hi :: lo :: post) \/
      (lit_lparen `prefix_of` (pre ++ hi :: lo :: post) /\
       contains lit_rparen (pre ++ hi :: lo :: post)) \/
      contains lit_unitV (pre ++ hi :: lo :: post) \/
      contains lit_Exception (pre ++ hi :: lo :: post) \/
      lit_METAINF `prefix_of` (pre ++ hi :: lo :: post)) /\
  isValidString unicode_L (js "Ljava/lang/String;") = false /\
  isValidString unicode_L (js "Hello World") = true /\
  extract_walk unicode_L filter_class fileName
    = ([Visit 1 10 (js "Ljava/lang/String;") false 0;
        Visit 2 31 (js "Hello World") true 0],
       Ok (config_header fileName ++ config_line (js "0") (js "Hello World"))) /\
  extractReadableStrings unicode_L filter_class
    = Ok (reference_header ++ reference_line (js "    0") (js "Hello World")) /\
  assembleClassFile unicode_L filter_class (config_body (js "0") (js "Bye"))
    = Ok (class_bytes version52
            [Utf8 (Uint8Array_of (js "Ljava/lang/String;"));
             Utf8 (Uint8Array_of (js "Bye"))] []).
Proof.
  split; [apply isValidString_false_iff|].
  split; [intros hi lo; apply surrogate_pair_filter|].
  split.
  { intros pre post hi lo Hhi Hlo Hletter Hfalse.
    apply isValidString_false_iff in Hfalse.
    destruct Hfalse as [Hlen|[H|[H|[H|[H|[H|Hnone]]]]]]; auto.
    - rewrite length_app in Hlen. cbn [length] in Hlen. lia.
    - exfalso. apply Hnone. exists (pair_cp hi lo). split.
      + apply (pair_in_code_points hi lo post) with (n := length pre);
          [| |lia]; unfold isHighSurrogate, isLowSurrogate;
          apply andb_true_iff; split; apply Z.leb_le; lia.
      + left. unfold isLetter, pair_cp.
        replace (_ <? 128) with false by (symmetry; apply Z.ltb_ge; lia).
        exact Hletter. }
  split; [vm_compute; reflexivity|].
  split; [vm_compute; reflexivity|].
  split; [vm_compute; reflexivity|].
  split; vm_compute; reflexivity.
Qed.

(** C5 at a buffer with an unknown tag: extraction stops with its
    unknown-tag message and assembly throws its unknown-tag error, both at
    the tag; the reference extraction does neither: it steps over the tag
    byte, takes the bytes after it for the next entry, and returns a text
    that lists the string OK. *)
Theorem unknown_tag_outcomes (unicode_L : Z -> bool) (fileName editorText : list Z) :
  getUint8 unknown_tag_class 10 = Ok 2 /\
  extractStringsFromClass unicode_L unknown_tag_class fileName
    = Ok (msg_unknown_tag_extract 2 11) /\
  assembleClassFile unicode_L unknown_tag_class editorText
    = Throw (Error (msg_unknown_tag_assemble 2)) /\
  extractReadableStrings unicode_L unknown_tag_class
    = Ok (reference_header ++ reference_line (js "    0") (js "OK")).
Proof.
  split; [vm_compute; reflexivity|].
  split; [vm_compute; reflexivity|].
  split; vm_compute; reflexivity.
Qed.

(** C3 at an edit of 65536 characters for the string OK of the sample
    file: the replacement bound to id 0 encodes to 65536 bytes, all of them
    are written (the output has 65536 + 19 bytes), and the length field
    written before them holds 0 (bytes 11 and 12 of the output), not the
    byte count. *)
Theorem long_replacement_length_field (unicode_L : Z -> bool) :
  (fun newText => Z.of_nat (length (encode newText)))
    <$> parse_replacements long_edit !! 0 = Some 65536 /\
  rmap (fun out => (take 14 out, Z.of_nat (length out)))
       (assembleClassFile unicode_L ok_class long_edit)
  = Ok ([xca; xfe; xba; xbe; x00; x00; x00; x34; x00; x03;
         x01; x00; x00; x41], 65536 + 19).
Proof.
  split; vm_compute; reflexivity.
Qed.

(** ** The two texts of a valid class file *)

Lemma reference_line_body (id value : list Z) :
  reference_line id value = reference_body id value ++ [NEWLINE].
Proof. unfold reference_line, reference_body. now rewrite <- !app_assoc. Qed.

Lemma padStart_no_newline (id : Z) : NEWLINE ∉ padStart 5 32 (toString id).
Proof.
  unfold padStart. rewrite elem_of_app. intros [H|H].
  - apply elem_of_replicate in H as [H _]. discriminate.
  - pose proof (toString_digits id) as Hd. rewrite Forall_forall in Hd.
    apply Hd, isDigit_range in H. unfold NEWLINE in H. lia.
Qed.

Lemma reference_body_one_line (id : Z) (t : list Z) :
  Forall (fun c => 0 <= c) t ->
  NEWLINE ∉ reference_body (padStart 5 32 (toString id)) (toJavaUnicode t).
Proof.
  intros Ht. unfold reference_body. rewrite !elem_of_app.
  intros [H|[H|[H|[H|[H|H]]]]].
  - apply list_elem_of_In in H. cbv in H. intuition discriminate.
  - now apply padStart_no_newline in H.
  - apply list_elem_of_In in H. cbv in H. intuition discriminate.
  - apply list_elem_of_singleton in H. discriminate.
  - pose proof (toJavaUnicode_printable t Ht) as Hp. rewrite Forall_forall in Hp.
    apply Hp in H. unfold NEWLINE in H. lia.
  - apply list_elem_of_singleton in H. discriminate.
Qed.

Lemma split_reference_lines (texts : list (list Z)) :
  Forall (Forall (fun c => 0 <= c)) texts ->
  forall id,
    split_lines (reference_lines id texts) = reference_bodies id texts ++ [[]].
Proof.
  induction 1 as [|t ts Ht _ IH]; intros id; [reflexivity|].
  cbn [reference_lines reference_bodies].
  rewrite reference_line_body, <- app_assoc.
  cbn [app]. rewrite split_lines_app_newline, IH.
  now rewrite split_lines_one by now apply reference_body_one_line.
Qed.

Lemma split_lines_cons_line (l rest : list Z) :
  NEWLINE ∉ l -> split_lines (l ++ NEWLINE :: rest) = l :: split_lines rest.
Proof.
  intros H. now rewrite split_lines_app_newline, split_lines_one.
Qed.

Lemma literal_no_newline (l : list Z) :
  forallb (fun c => negb (c =? NEWLINE)) l = true -> NEWLINE ∉ l.
Proof.
  rewrite forallb_forall. intros H Hin. apply list_elem_of_In, H in Hin.
  now rewrite Z.eqb_refl in Hin.
Qed.

(** C8, amended: for a valid class file and a file name without a line
    break, the config text is the header [# Translation File: <name>],
    [# Only edit text inside quotes Q...Q], [# Format: str_ID = QValueQ]
    (Q the double quote), a blank line, and one config line per eligible
    string; the reference text is its own header of three lines, with no
    blank line after it, and one reference line per eligible string.  Both
    texts end with a line break. *)
Theorem extraction_texts (unicode_L : Z -> bool) (version : list byte)
    (es : list entry) (rest : list byte) (fileName : list Z) :
  valid_class version es -> NEWLINE ∉ fileName ->
  exists config reference,
    extractStringsFromClass unicode_L (class_bytes version es rest) fileName
      = Ok config /\
    split_lines config
      = [ js "# Translation File: " ++ fileName;
          js "# Only edit text inside quotes " ++ [QUOTE] ++ js "..." ++ [QUOTE];
          js "# Format: str_ID = " ++ [QUOTE] ++ js "Value" ++ [QUOTE];
          [] ]
        ++ config_bodies 0 (eligible unicode_L es) ++ [[]] /\
    extractReadableStrings unicode_L (class_bytes version es rest)
      = Ok reference /\
    split_lines reference
      = [ js "# RAW CONSTANT POOL (REFERENCE ONLY)";
          js "# ID    | Value (UTF-8)";
          js "# ------|--------------------------" ]
        ++ reference_bodies 0 (eligible unicode_L es) ++ [[]].
Proof.
  intros Hvalid Hname.
  exists (config_header fileName ++ config_lines 0 (eligible unicode_L es)),
         (reference_header ++ reference_lines 0 (eligible unicode_L es)).
  split; [now apply extract_class|].
  split; [|split; [now apply readable_class|]].
  - assert (E : config_header fileName ++ config_lines 0 (eligible unicode_L es)
               = (js "# Translation File: " ++ fileName) ++ NEWLINE ::
                 (js "# Only edit text inside quotes " ++ [QUOTE] ++ js "..." ++ [QUOTE])
                 ++ NEWLINE ::
                 (js "# Format: str_ID = " ++ [QUOTE] ++ js "Value" ++ [QUOTE])
                 ++ NEWLINE :: [] ++ NEWLINE ::
                 config_lines 0 (eligible unicode_L es)).
    { unfold config_header. rewrite <- !app_assoc. reflexivity. }
    rewrite E.
    rewrite split_lines_cons_line.
    2:{ rewrite elem_of_app. intros [H|H]; [|contradiction].
        revert H. now apply literal_no_newline. }
    rewrite split_lines_cons_line by now apply literal_no_newline.
    rewrite split_lines_cons_line by now apply literal_no_newline.
    rewrite split_lines_cons_line by apply not_elem_of_nil.
    rewrite split_config_lines by apply eligible_nonneg. reflexivity.
  - assert (E : reference_header ++ reference_lines 0 (eligible unicode_L es)
               = js "# RAW CONSTANT POOL (REFERENCE ONLY)" ++ NEWLINE ::
                 js "# ID    | Value (UTF-8)" ++ NEWLINE ::
                 js "# ------|--------------------------" ++ NEWLINE ::
                 reference_lines 0 (eligible unicode_L es)).
    { unfold reference_header. rewrite <- !app_assoc. reflexivity. }
    rewrite E.
    rewrite !split_lines_cons_line by now apply literal_no_newline.
    rewrite split_reference_lines by apply eligible_nonneg. reflexivity.
Qed.

Lemma extraction_texts_witness :
  exists config reference,
    extractStringsFromClass no_letters ok_class (js "A.class") = Ok config /\
    split_lines config
      = [ js "# Translation File: " ++ js "A.class";
          js "# Only edit text inside quotes " ++ [QUOTE] ++ js "..." ++ [QUOTE];
          js "# Format: str_ID = " ++ [QUOTE] ++ js "Value" ++ [QUOTE];
          [] ]
        ++ config_bodies 0 (eligible no_letters ok_entries) ++ [[]] /\
    extractReadableStrings no_letters ok_class = Ok reference /\
    split_lines reference
      = [ js "# RAW CONSTANT POOL (REFERENCE ONLY)";
          js "# ID    | Value (UTF-8)";
          js "# ------|--------------------------" ]
        ++ reference_bodies 0 (eligible no_letters ok_entries) ++ [[]].
Proof.
  apply (extraction_texts no_letters version52 ok_entries [x09] (js "A.class")).
  - exact valid_ok_class.
  - now apply literal_no_newline.
Defined.

(** C8 as stated fails for the reference text: on the valid sample file
    it begins with a header of its own, different from that of the config
    text, and its fourth line is not blank but the line of the string OK. *)
Lemma reference_header_counterexample :
  valid_class version52 ok_entries /\
  exists reference,
    extractReadableStrings no_letters ok_class = Ok reference /\
    startsWith (js "# Translation File: ") reference = false /\
    split_lines reference
      = [ js "# RAW CONSTANT POOL (REFERENCE ONLY)";
          js "# ID    | Value (UTF-8)";
          js "# ------|--------------------------";
          js "str_    0 | " ++ [QUOTE] ++ js "OK" ++ [QUOTE];
          [] ].
Proof.
  split; [exact valid_ok_class|].
  eexists. split; [vm_compute; reflexivity|].
  split; vm_compute; reflexivity.
Qed.

(** ** The last edit of an id is the one written *)

Lemma eligible_app (unicode_L : Z -> bool) (es1 es2 : list entry) :
  eligible unicode_L (es1 ++ es2)
  = eligible unicode_L es1 ++ eligible unicode_L es2.
Proof.
  unfold eligible, utf8_texts. now rewrite omap_app, List.filter_app.
Qed.


Lemma Uint8Array_of_writeU1 (v : Z) : Uint8Array_of (writeU1 v) = [to_u8 v].
Proof. unfold Uint8Array_of, writeU1. cbn [map]. now rewrite to_u8_land. Qed.



(** ** One step of each loop at an unknown tag, and the length field *)

Lemma unrecognized_switches (tag : Z) :
  recognized tag = false ->
  (tag =? CONSTANT_Utf8) = false /\
  (forall offset i, extract_switch tag offset i = None) /\
  (forall offset i, readable_switch tag offset i = (offset, i)) /\
  (forall i, assemble_switch tag i = None).
Proof.
  unfold recognized, recognized_tags. cbn [existsb].
  rewrite !orb_false_iff.
  intros (H1 & H3 & H4 & H5 & H6 & H7 & H8 & H9 & H10 & H11 & H12 & H15 &
          H16 & H17 & H18 & H19 & H20 & _).
  unfold extract_switch, readable_switch, assemble_switch.
  rewrite H1, H3, H4, H5, H6, H7, H8, H9, H10, H11, H12, H15, H16, H17, H18,
    H19, H20.
  repeat split.
Qed.

(** At a tag byte outside the recognized set, extraction returns its
    unknown-tag message and assembly throws its unknown-tag error, without
    another read; the reference extraction goes on with the byte after the
    tag as the next entry. *)
Lemma unknown_tag_step (unicode_L : Z -> bool) (content : list byte)
    (replacements : gmap Z (list Z)) (cpCount : Z) (fuel : nat)
    (i offset stringIndex tag : Z) (output newBytes : list Z) (log : list visit) :
  i < cpCount -> getUint8 content offset = Ok tag -> recognized tag = false ->
  extract_loop unicode_L (S fuel) content cpCount i offset stringIndex output log
    = (log, Ok (msg_unknown_tag_extract tag (offset + 1))) /\
  assemble_loop unicode_L (S fuel) content replacements cpCount i offset
    stringIndex newBytes log
    = (log, Throw (Error (msg_unknown_tag_assemble tag))) /\
  readable_loop unicode_L (S fuel) content cpCount i offset stringIndex output log
    = readable_loop unicode_L fuel content cpCount (i + 1) (offset + 1)
        stringIndex output log.
Proof.
  intros Hi Htag Hun.
  destruct (unrecognized_switches tag Hun) as (H1 & He & Hr & Ha).
  assert (E : (i <? cpCount) = true) by now apply Z.ltb_lt.
  cbn [extract_loop assemble_loop readable_loop].
  now rewrite E, Htag, H1, He, Hr, Ha.
Qed.

(** The length field [writeU2] stores reads back as the value modulo
    2^16: it is the byte count exactly when the count is below 65536. *)
Lemma length_field_read_back (n : Z) (post : list byte) :
  getUint16 (Uint8Array_of (writeU2 n) ++ post) 0 = Ok (n mod 65536).
Proof.
  cbn [Uint8Array_of writeU2 map app].
  rewrite <- u16_of_writeU2.
  exact (getUint16_end [] post _ _).
Qed.

Lemma length_field_exact (n : Z) (post : list byte) :
  0 <= n < 65536 ->
  getUint16 (Uint8Array_of (writeU2 n) ++ post) 0 = Ok n.
Proof.
  intros H. rewrite length_field_read_back. f_equal. now apply Z.mod_small.
Qed.

(** ** Standard UTF-8 survives decoding and encoding *)

(** Setting bits above those of [x] adds. *)
Lemma lor_high (m k x : Z) :
  0 <= k -> 0 <= x < 2 ^ k -> Z.lor (m * 2 ^ k) x = m * 2 ^ k + x.
Proof.
  intros Hk Hx.
  assert (H0 : Z.land (m * 2 ^ k) x = 0).
  { rewrite <- (Z.mod_small x (2 ^ k)) at 1 by exact Hx.
    rewrite <- Z.land_ones by exact Hk.
    rewrite (Z.land_comm x), Z.land_assoc, (Z.land_ones (m * 2 ^ k)) by exact Hk.
    rewrite Z.mod_mul by lia. apply Z.land_0_l. }
  pose proof (Z.add_lor_land (m * 2 ^ k) x). lia.
Qed.

Lemma land_low (k x : Z) : 0 <= k -> Z.land x (2 ^ k - 1) = x mod 2 ^ k.
Proof.
  intros Hk. rewrite <- Z.land_ones by exact Hk. f_equal.
  rewrite Z.ones_equiv. lia.
Qed.

(** The bytes of a scalar value, in arithmetic. *)
Lemma utf8_bytes_arith (cp : Z) :
  0 <= cp < 0x110000 ->
  utf8_bytes cp =
  if cp <? 0x80 then [cp]
  else if cp <? 0x800 then [192 + cp / 64; 128 + cp mod 64]
  else if cp <? 0x10000 then
    [224 + cp / 4096; 128 + (cp / 64) mod 64; 128 + cp mod 64]
  else
    [240 + cp / 262144; 128 + (cp / 4096) mod 64;
     128 + (cp / 64) mod 64; 128 + cp mod 64].
Proof.
  intros Hcp. unfold utf8_bytes.
  assert (M6 : forall x, 0 <= x mod 64 < 2 ^ 6)
    by (intros x; apply Z.mod_pos_bound; lia).
  assert (Hlow : forall x, Z.lor 128 (Z.land x 63) = 128 + x mod 64).
  { intros x. rewrite (land_low 6) by lia.
    now rewrite (lor_high 2 6) by (first [lia | apply M6]). }
  rewrite !Hlow, !Z.shiftr_div_pow2 by lia.
  change (2 ^ 6) with 64. change (2 ^ 12) with 4096. change (2 ^ 18) with 262144.
  destruct (Z.ltb_spec cp 128); [reflexivity|].
  destruct (Z.ltb_spec cp 2048).
  { rewrite (lor_high 6 5) by (first [lia | split; [apply Z.div_pos; lia |
                                       apply Z.div_lt_upper_bound; lia]]).
    reflexivity. }
  destruct (Z.ltb_spec cp 65536).
  { rewrite (lor_high 14 4) by (first [lia | split; [apply Z.div_pos; lia |
                                       apply Z.div_lt_upper_bound; lia]]).
    reflexivity. }
  rewrite (lor_high 30 3) by (first [lia | split; [apply Z.div_pos; lia |
                                       apply Z.div_lt_upper_bound; lia]]).
  reflexivity.
Qed.

Lemma lead_ascii (b : Z) : 0 <= b <= 127 -> lead b = Emit b.
Proof.
  intros H. unfold lead. destruct (Z.leb_spec b 127); [reflexivity | lia].
Qed.

Lemma lead_two (b : Z) :
  194 <= b <= 223 -> lead b = Need 1 (b mod 32) 128 191.
Proof.
  intros H. unfold lead. rewrite (land_low 5) by lia.
  destruct (Z.leb_spec b 127); [lia|].
  destruct (Z.leb_spec 194 b); [|lia]. destruct (Z.leb_spec b 223); [|lia].
  reflexivity.
Qed.

Lemma lead_three (b : Z) :
  224 <= b <= 239 ->
  lead b = Need 2 (b mod 16) (if b =? 224 then 160 else 128)
                  (if b =? 237 then 159 else 191).
Proof.
  intros H. unfold lead. rewrite (land_low 4) by lia.
  destruct (Z.leb_spec b 127); [lia|].
  destruct (Z.leb_spec 194 b); [|lia]. destruct (Z.leb_spec b 223); [lia|].
  destruct (Z.leb_spec 224 b); [|lia]. destruct (Z.leb_spec b 239); [|lia].
  reflexivity.
Qed.

Lemma lead_four (b : Z) :
  240 <= b <= 244 ->
  lead b = Need 3 (b mod 8) (if b =? 240 then 144 else 128)
                  (if b =? 244 then 143 else 191).
Proof.
  intros H. unfold lead. rewrite (land_low 3) by lia.
  destruct (Z.leb_spec b 127); [lia|].
  destruct (Z.leb_spec 194 b); [|lia]. destruct (Z.leb_spec b 223); [lia|].
  destruct (Z.leb_spec 224 b); [|lia]. destruct (Z.leb_spec b 239); [lia|].
  destruct (Z.leb_spec 240 b); [|lia]. destruct (Z.leb_spec b 244); [|lia].
  reflexivity.
Qed.

Lemma decode_fresh (b : Z) (rest : list Z) :
  utf8_decode_loop (b :: rest) 0 0 128 191 =
  match lead b with
  | Emit c => c :: utf8_decode_loop rest 0 0 128 191
  | Need n c lo hi => utf8_decode_loop rest c n lo hi
  | Bad => 65533 :: utf8_decode_loop rest 0 0 128 191
  end.
Proof. reflexivity. Qed.

Lemma continuation_bits (cp r : Z) :
  0 <= cp -> 0 <= r < 64 ->
  Z.lor (Z.shiftl cp 6) (Z.land (128 + r) 63) = cp * 64 + r.
Proof.
  intros Hcp Hr. rewrite (land_low 6), Z.shiftl_mul_pow2 by lia.
  replace ((128 + r) mod 2 ^ 6) with r.
  - apply lor_high; lia.
  - apply Z.mod_unique_pos with (q := 2); lia.
Qed.

(** The last continuation byte [128 + r] of a pending sequence. *)
Lemma decode_last (r cp lower upper : Z) (rest : list Z) :
  0 <= cp -> 0 <= r < 64 -> lower <= 128 + r <= upper ->
  utf8_decode_loop (128 + r :: rest) cp 1 lower upper
  = cp * 64 + r :: utf8_decode_loop rest 0 0 128 191.
Proof.
  intros Hcp Hr Hb. cbn [utf8_decode_loop].
  change (1 =? 0) with false. change (1 =? 1) with true. cbv iota.
  destruct (Z.leb_spec lower (128 + r)); [|lia].
  destruct (Z.leb_spec (128 + r) upper); [|lia].
  cbn [andb]. now rewrite continuation_bits.
Qed.

(** A continuation byte [128 + r] that is not the last one. *)
Lemma decode_more (r cp needed lower upper : Z) (rest : list Z) :
  0 <= cp -> 0 <= r < 64 -> 2 <= needed -> lower <= 128 + r <= upper ->
  utf8_decode_loop (128 + r :: rest) cp needed lower upper
  = utf8_decode_loop rest (cp * 64 + r) (needed - 1) 128 191.
Proof.
  intros Hcp Hr Hn Hb. cbn [utf8_decode_loop].
  destruct (Z.eqb_spec needed 0); [lia|].
  destruct (Z.eqb_spec needed 1); [lia|].
  destruct (Z.leb_spec lower (128 + r)); [|lia].
  destruct (Z.leb_spec (128 + r) upper); [|lia].
  cbn [andb]. now rewrite continuation_bits.
Qed.

(** The decoder reads back the bytes the encoder writes for a scalar
    value. *)
Lemma decode_utf8_bytes (cp : Z) (rest : list Z) :
  scalar cp ->
  utf8_decode_loop (utf8_bytes cp ++ rest) 0 0 128 191
  = cp :: utf8_decode_loop rest 0 0 128 191.
Proof.
  intros Hs. assert (Hcp : 0 <= cp < 0x110000) by (unfold scalar in Hs; lia).
  rewrite utf8_bytes_arith by exact Hcp.
  pose proof (Z.div_mod cp 64 ltac:(lia)) as D1.
  pose proof (Z.mod_pos_bound cp 64 ltac:(lia)) as M1.
  pose proof (Z.div_mod (cp / 64) 64 ltac:(lia)) as D2.
  pose proof (Z.mod_pos_bound (cp / 64) 64 ltac:(lia)) as M2.
  pose proof (Z.div_mod (cp / 64 / 64) 64 ltac:(lia)) as D3.
  pose proof (Z.mod_pos_bound (cp / 64 / 64) 64 ltac:(lia)) as M3.
  assert (P1 : 0 <= cp / 64) by (apply Z.div_pos; lia).
  assert (P2 : 0 <= cp / 64 / 64) by (apply Z.div_pos; lia).
  assert (P3 : 0 <= cp / 64 / 64 / 64) by (apply Z.div_pos; lia).
  assert (E2 : cp / 4096 = cp / 64 / 64) by (rewrite Z.div_div by lia; reflexivity).
  assert (E3 : cp / 262144 = cp / 64 / 64 / 64)
    by (rewrite !Z.div_div by lia; reflexivity).
  rewrite E2, E3. clear E2 E3.
  destruct (Z.ltb_spec cp 128) as [H1|H1].
  { cbn [app]. rewrite decode_fresh, lead_ascii by lia. reflexivity. }
  destruct (Z.ltb_spec cp 2048) as [H2|H2].
  { cbn [app]. rewrite decode_fresh, lead_two by lia.
    assert (Em : (192 + cp / 64) mod 32 = cp / 64)
      by (symmetry; apply Z.mod_unique_pos with (q := 6); lia).
    rewrite Em, decode_last by lia. f_equal. lia. }
  destruct (Z.ltb_spec cp 65536) as [H3|H3].
  { cbn [app]. rewrite decode_fresh, lead_three by lia.
    assert (Em : (224 + cp / 64 / 64) mod 16 = cp / 64 / 64)
      by (symmetry; apply Z.mod_unique_pos with (q := 14); lia).
    rewrite Em.
    rewrite decode_more;
      [| lia | lia | lia |
       destruct (Z.eqb_spec (224 + cp / 64 / 64) 224),
                (Z.eqb_spec (224 + cp / 64 / 64) 237);
         cbv iota; unfold scalar in Hs; lia].
    change (2 - 1) with 1. rewrite decode_last by lia. f_equal. lia. }
  cbn [app]. rewrite decode_fresh, lead_four by lia.
  assert (Em : (240 + cp / 64 / 64 / 64) mod 8 = cp / 64 / 64 / 64)
    by (symmetry; apply Z.mod_unique_pos with (q := 30); lia).
  rewrite Em.
  rewrite decode_more;
    [| lia | lia | lia |
     destruct (Z.eqb_spec (240 + cp / 64 / 64 / 64) 240),
              (Z.eqb_spec (240 + cp / 64 / 64 / 64) 244); cbv iota; lia].
  change (3 - 1) with 2. rewrite decode_more by lia.
  change (2 - 1) with 1. rewrite decode_last by lia. f_equal. lia.
Qed.

Lemma decode_encoded (cps : list Z) :
  Forall scalar cps ->
  utf8_decode_loop (flat_map utf8_bytes cps) 0 0 128 191 = cps.
Proof.
  induction 1 as [|cp cps Hcp _ IH]; [reflexivity|].
  cbn [flat_map]. now rewrite decode_utf8_bytes, IH.
Qed.

Lemma utf8_bytes_range (cp : Z) :
  scalar cp -> Forall (fun b => 0 <= b < 256) (utf8_bytes cp).
Proof.
  intros Hs. assert (Hcp : 0 <= cp < 0x110000) by (unfold scalar in Hs; lia).
  rewrite utf8_bytes_arith by exact Hcp.
  pose proof (Z.mod_pos_bound cp 64 ltac:(lia)).
  pose proof (Z.mod_pos_bound (cp / 64) 64 ltac:(lia)).
  pose proof (Z.mod_pos_bound (cp / 4096) 64 ltac:(lia)).
  assert (0 <= cp / 64) by (apply Z.div_pos; lia).
  assert (0 <= cp / 4096) by (apply Z.div_pos; lia).
  assert (0 <= cp / 262144) by (apply Z.div_pos; lia).
  destruct (Z.ltb_spec cp 128); [repeat constructor; lia|].
  destruct (Z.ltb_spec cp 2048).
  { assert (cp / 64 < 32) by (apply Z.div_lt_upper_bound; lia).
    repeat constructor; lia. }
  destruct (Z.ltb_spec cp 65536).
  { assert (cp / 4096 < 16) by (apply Z.div_lt_upper_bound; lia).
    repeat constructor; lia. }
  assert (cp / 262144 < 8) by (apply Z.div_lt_upper_bound; lia).
  repeat constructor; lia.
Qed.

Lemma writeBytes_Uint8Array_of (l : list Z) :
  Forall (fun b => 0 <= b < 256) l -> writeBytes (Uint8Array_of l) = l.
Proof.
  unfold writeBytes, Uint8Array_of.
  induction 1 as [|b l Hb _ IH]; [reflexivity|].
  cbn [map]. rewrite IH, u8_to_u8. f_equal. now apply Z.mod_small.
Qed.

(** The code units of scalar values pair back into those values. *)
Lemma scalar_values_units (cps : list Z) :
  Forall scalar cps -> scalar_values (flat_map cp_units cps) = cps.
Proof.
  unfold scalar_values. induction 1 as [|cp cps Hcp _ IH]; [reflexivity|].
  cbn [flat_map]. unfold cp_units at 1.
  destruct (Z.ltb_spec cp 65536) as [Hlt|Hge].
  - cbn [app code_points_with].
    assert (E1 : isHighSurrogate cp = false).
    { unfold isHighSurrogate, scalar in *.
      destruct (Z.leb_spec 55296 cp), (Z.leb_spec cp 56319); try reflexivity; lia. }
    assert (E2 : isLowSurrogate cp = false).
    { unfold isLowSurrogate, scalar in *.
      destruct (Z.leb_spec 56320 cp), (Z.leb_spec cp 57343); try reflexivity; lia. }
    now rewrite E1, E2, IH.
  - assert (Hc : 0 <= cp - 65536 < 1024 * 1024) by (unfold scalar in Hcp; lia).
    rewrite Z.shiftr_div_pow2, (land_low 10) by lia.
    change (2 ^ 10) with 1024.
    pose proof (Z.div_mod (cp - 65536) 1024 ltac:(lia)) as D.
    pose proof (Z.mod_pos_bound (cp - 65536) 1024 ltac:(lia)) as M.
    assert (Q : 0 <= (cp - 65536) / 1024 < 1024)
      by (split; [apply Z.div_pos; lia | apply Z.div_lt_upper_bound; lia]).
    cbn [app code_points_with].
    assert (E1 : isHighSurrogate (55296 + (cp - 65536) / 1024) = true).
    { unfold isHighSurrogate. apply andb_true_iff. rewrite !Z.leb_le. lia. }
    assert (E2 : isLowSurrogate (56320 + (cp - 65536) mod 1024) = true).
    { unfold isLowSurrogate. apply andb_true_iff. rewrite !Z.leb_le. lia. }
    rewrite E1, E2, IH. f_equal. unfold pair_cp. lia.
Qed.

(** A payload that is the UTF-8 encoding of scalar values not beginning
    with the byte-order mark is given back by decoding and encoding. *)
Lemma standard_utf8_reencodes (cps : list Z) :
  Forall scalar cps -> head cps <> Some 0xFEFF ->
  encode (decode (Uint8Array_of (flat_map utf8_bytes cps)))
  = Uint8Array_of (flat_map utf8_bytes cps).
Proof.
  intros Hs Hbom. unfold decode, encode.
  assert (Hrange : Forall (fun b => 0 <= b < 256) (flat_map utf8_bytes cps)).
  { clear Hbom. induction Hs as [|cp cps Hcp _ IH]; [constructor|].
    cbn [flat_map]. apply Forall_app. split; [now apply utf8_bytes_range | exact IH]. }
  change (map u8 ?l) with (writeBytes l).
  rewrite writeBytes_Uint8Array_of, decode_encoded by assumption.
  assert (E : strip_bom cps = cps).
  { destruct cps as [|c cps']; [reflexivity|]. cbn [strip_bom].
    destruct (Z.eqb_spec c 65279) as [->|]; [|reflexivity].
    now contradiction Hbom. }
  now rewrite E, scalar_values_units.
Qed.

Lemma standard_utf8_entry (unicode_L : Z -> bool) (cps : list Z) :
  Forall scalar cps -> head cps <> Some 0xFEFF ->
  reencodes unicode_L (Utf8 (Uint8Array_of (flat_map utf8_bytes cps))).
Proof. intros Hs Hbom _. now apply standard_utf8_reencodes. Qed.

(* ================================================================== *)
(** * Further properties of the code *)

(** ** The display escape and its inverse *)

(** Closes a [Forall] over an explicit list whose instances are linear
    arithmetic. *)
Ltac forall_lia :=
  repeat (apply Forall_cons; split; [unfold QUOTE, BACKSLASH; lia|]);
  apply Forall_nil_2.

(** X1: unescaping an escaped text gives the text back, so escaping loses
    nothing: two texts with the same escaped form are the same text.  (The
    hypothesis says the list is a string: code units are not negative.) *)
Theorem unescape_after_escape (t : list Z) :
  Forall (fun c => 0 <= c) t ->
  fromJavaUnicode (toJavaUnicode t) = t /\
  forall t', Forall (fun c => 0 <= c) t' ->
             toJavaUnicode t = toJavaUnicode t' -> t = t'.
Proof.
  intros Ht. split; [now apply fromJavaUnicode_toJavaUnicode|].
  intros t' Ht' E.
  rewrite <- (fromJavaUnicode_toJavaUnicode t), <- (fromJavaUnicode_toJavaUnicode t')
    by assumption.
  now rewrite E.
Qed.

Lemma unescape_after_escape_witness :
  fromJavaUnicode (toJavaUnicode [9; 34; 92; 65; 233; 55357; 56832])
  = [9; 34; 92; 65; 233; 55357; 56832].
Proof.
  refine (proj1 (unescape_after_escape [9; 34; 92; 65; 233; 55357; 56832] _)).
  forall_lia.
Defined.

(** X2: an escaped text can stand between the quotes of a line: it has no
    character below 32 (so no line break), every quote and every backslash
    in it belongs to a two-character escape, and it is never shorter than
    the text. *)
Theorem escaped_text_is_safe (t : list Z) :
  Forall (fun c => 0 <= c) t ->
  Forall (fun c => 32 <= c) (toJavaUnicode t) /\
  value_tokens (toJavaUnicode t) /\
  (length t <= length (toJavaUnicode t))%nat.
Proof.
  intros Ht. split; [now apply toJavaUnicode_printable|].
  split; [now apply value_tokens_escape|].
  induction Ht as [|c t Hc _ IH]; [reflexivity|].
  rewrite toJavaUnicode_cons, length_app.
  destruct (escape_char_cases c Hc)
    as [[-> _] | [(h1 & h2 & -> & _) | (-> & _)]]; simpl; lia.
Qed.

Lemma escaped_text_is_safe_witness :
  Forall (fun c => 32 <= c) (toJavaUnicode [10; 34; 65]) /\
  value_tokens (toJavaUnicode [10; 34; 65]) /\
  le (length [10; 34; 65]) (length (toJavaUnicode [10; 34; 65])).
Proof.
  apply (escaped_text_is_safe [10; 34; 65]). forall_lia.
Defined.

(** X3: a text without control characters, quotes and backslashes is its
    own escaped form: letters of any script stay readable. *)
Theorem plain_text_is_not_escaped (t : list Z) :
  Forall (fun c => 32 <= c /\ c <> QUOTE /\ c <> BACKSLASH) t ->
  toJavaUnicode t = t.
Proof.
  induction 1 as [|c t (Hc & Hq & Hb) _ IH]; [reflexivity|].
  rewrite toJavaUnicode_cons, IH. unfold escape_char.
  destruct (Z.eqb_spec c QUOTE); [contradiction|].
  destruct (Z.eqb_spec c BACKSLASH); [contradiction|].
  destruct (Z.ltb_spec c 32); [lia | reflexivity].
Qed.

Lemma plain_text_is_not_escaped_witness :
  toJavaUnicode [88; 105; 110; 32; 99; 104; 224; 111] = [88; 105; 110; 32; 99; 104; 224; 111].
Proof.
  apply (plain_text_is_not_escaped [88; 105; 110; 32; 99; 104; 224; 111]).
  forall_lia.
Defined.

Lemma json_string_body_length (s : list Z) :
  forall v, json_string_body s = Some v -> (length v <= length s)%nat.
Proof.
  induction s as [s IH] using (induction_ltof1 _ (@length Z)).
  unfold ltof in IH. intros v H.
  destruct s as [|c s1]; [injection H as <-; reflexivity|].
  cbn [json_string_body] in H.
  destruct (c =? QUOTE); [discriminate|].
  destruct (c =? BACKSLASH).
  - destruct s1 as [|e s2]; [discriminate|].
    destruct (e =? 117).
    + destruct s2 as [|h1 [|h2 [|h3 [|h4 s6]]]]; try discriminate.
      destruct (hex4 h1 h2 h3 h4); [|discriminate].
      destruct (json_string_body s6) as [r|] eqn:E; [|discriminate].
      injection H as <-. pose proof (IH s6 ltac:(simpl; lia) r E). simpl. lia.
    + destruct (json_escape e); [|discriminate].
      destruct (json_string_body s2) as [r|] eqn:E; [|discriminate].
      injection H as <-. pose proof (IH s2 ltac:(simpl; lia) r E). simpl. lia.
  - destruct (c <? 32); [discriminate|].
    destruct (json_string_body s1) as [r|] eqn:E; [|discriminate].
    injection H as <-. pose proof (IH s1 ltac:(simpl; lia) r E). simpl. lia.
Qed.

Lemma json_string_body_plain (s : list Z) :
  BACKSLASH ∉ s -> forall v, json_string_body s = Some v -> v = s.
Proof.
  induction s as [|c s IH]; intros Hb v H; [now injection H|].
  apply not_elem_of_cons in Hb as [Hc Hs]. cbn [json_string_body] in H.
  destruct (c =? QUOTE); [discriminate|].
  destruct (Z.eqb_spec c BACKSLASH); [congruence|].
  destruct (c <? 32); [discriminate|].
  destruct (json_string_body s) as [r|]; [|discriminate].
  injection H as <-. f_equal. now apply IH.
Qed.

Lemma json_string_body_control (s : list Z) (c : Z) :
  c ∈ s -> c < 32 -> json_string_body s = None.
Proof.
  induction s as [s IH] using (induction_ltof1 _ (@length Z)).
  unfold ltof in IH. intros Hin Hc.
  destruct s as [|a s1]; [now apply elem_of_nil in Hin|].
  cbn [json_string_body].
  destruct (a =? QUOTE); [reflexivity|].
  apply elem_of_cons in Hin.
  destruct (Z.eqb_spec a BACKSLASH) as [->|Hb].
  - destruct Hin as [->|Hin]; [unfold BACKSLASH in Hc; lia|].
    destruct s1 as [|e s2]; [reflexivity|].
    apply elem_of_cons in Hin.
    destruct (Z.eqb_spec e 117) as [->|He].
    + destruct Hin as [->|Hin]; [lia|].
      destruct s2 as [|h1 [|h2 [|h3 [|h4 s6]]]]; try reflexivity.
      destruct (hex4 h1 h2 h3 h4) eqn:Hhex; [|reflexivity].
      rewrite (IH s6); [reflexivity | simpl; lia | | exact Hc].
      rewrite !elem_of_cons in Hin.
      destruct Hin as [->|[->|[->|[->|Hin]]]]; [..|exact Hin]; exfalso;
        unfold hex4, hex_value in Hhex;
        repeat match type of Hhex with
               | context [if ?b then _ else _] => destruct b eqn:?
               end; try discriminate;
        repeat match goal with
               | H : (_ && _) = true |- _ => apply andb_true_iff in H as [? ?]
               | H : (_ <=? _) = true |- _ => apply Z.leb_le in H
               end; lia.
    + destruct Hin as [<-|Hin].
      * assert (E : json_escape c = None).
        { unfold json_escape.
          repeat match goal with
                 | |- context [?a =? ?b] => destruct (Z.eqb_spec a b); [lia|]
                 end. reflexivity. }
        now rewrite E.
      * destruct (json_escape e); [|reflexivity].
        rewrite (IH s2); [reflexivity | simpl; lia | exact Hin | exact Hc].
  - destruct Hin as [<-|Hin].
    + destruct (Z.ltb_spec c 32); [reflexivity | lia].
    + destruct (a <? 32); [reflexivity|].
      rewrite (IH s1); [reflexivity | simpl; lia | exact Hin | exact Hc].
Qed.

(** X4: unescaping never fails and never grows the text; a text without
    a backslash comes back unchanged, and so does, escapes included, a text
    that holds a control character (the parse fails and the text is kept
    as typed). *)
Theorem fromJavaUnicode_keeps_or_shrinks (s : list Z) :
  (length (fromJavaUnicode s) <= length s)%nat /\
  (BACKSLASH ∉ s -> fromJavaUnicode s = s) /\
  (forall c, c ∈ s -> c < 32 -> fromJavaUnicode s = s).
Proof.
  unfold fromJavaUnicode. repeat split.
  - destruct (json_string_body s) as [v|] eqn:E; [|reflexivity].
    now apply json_string_body_length.
  - intros Hb. destruct (json_string_body s) as [v|] eqn:E; [|reflexivity].
    now apply json_string_body_plain.
  - intros c Hin Hc. now rewrite (json_string_body_control s c).
Qed.

(** ** Lines written and lines read *)

(** X5: the config line written for an id and a text is read back as
    that binding and nothing else: the edit set of the line is the single
    pair of the id and the text.  The id is below 2^53, where the number
    [parseInt] returns is the number written. *)
Theorem config_line_reads_back (id : Z) (t : list Z) :
  0 <= id < 2 ^ 53 -> Forall (fun c => 0 <= c) t ->
  parse_replacements (config_line (toString id) (toJavaUnicode t))
  = {[ id := t ]}.
Proof.
  intros [Hid _] Ht. unfold parse_replacements.
  rewrite config_line_body.
  change (?b ++ [NEWLINE]) with (b ++ NEWLINE :: []).
  rewrite split_lines_cons_line by now apply config_body_one_line.
  cbn [split_lines fold_left]. unfold replacements_step at 2.
  rewrite edit_match_config_body by assumption.
  rewrite parseInt_toString, fromJavaUnicode_toJavaUnicode by assumption.
  unfold replacements_step. change (edit_match []) with (@None (list Z * list Z)).
  apply insert_empty.
Qed.

Lemma config_line_reads_back_witness :
  parse_replacements (config_line (toString 12) (toJavaUnicode [72; 105; 34; 10]))
  = {[ 12 := [72; 105; 34; 10] ]}.
Proof.
  apply (config_line_reads_back 12 [72; 105; 34; 10]); [lia | forall_lia].
Defined.

Lemma reference_body_matches (id : Z) (v : list Z) :
  0 <= id -> value_tokens v ->
  ref_match (reference_body (padStart 5 32 (toString id)) v)
  = Some (toString id, v).
Proof.
  intros Hid Hv. apply search_here, ref_match_here_iff.
  exists (replicate (5 - length (toString id)) 32), [32], [32], [].
  split.
  - unfold reference_body, padStart. now rewrite <- !app_assoc.
  - repeat split.
    + apply Forall_forall. intros c Hc.
      apply elem_of_replicate in Hc as [-> _]. reflexivity.
    + apply toString_nonempty.
    + apply toString_digits.
    + now repeat constructor.
    + now repeat constructor.
    + exact Hv.
Qed.

Lemma reference_body_item_one_line (id : Z) (v : list Z) :
  NEWLINE ∉ v -> NEWLINE ∉ reference_body (padStart 5 32 (toString id)) v.
Proof.
  intros Hv. unfold reference_body. rewrite !elem_of_app.
  intros [H|[H|[H|[H|[H|H]]]]].
  - apply list_elem_of_In in H. cbv in H. intuition discriminate.
  - now apply padStart_no_newline in H.
  - apply list_elem_of_In in H. cbv in H. intuition discriminate.
  - apply list_elem_of_singleton in H. discriminate.
  - contradiction.
  - apply list_elem_of_singleton in H. discriminate.
Qed.

Lemma convert_reference_items (items : list (Z * list Z)) :
  Forall line_item items ->
  flat_map emitted
    (split_lines
       (flat_map (fun item => reference_line (padStart 5 32 (toString item.1)) item.2)
                 items))
  = flat_map (fun item => config_line (toString item.1) item.2) items.
Proof.
  induction 1 as [|[id v] items (Hid & Hv & Hnl) _ IH]; [reflexivity|].
  cbn [flat_map fst snd] in *.
  rewrite reference_line_body, <- app_assoc. cbn [app].
  rewrite split_lines_cons_line by now apply reference_body_item_one_line.
  cbn [flat_map]. rewrite IH. f_equal.
  unfold emitted. now rewrite reference_body_matches.
Qed.

Lemma convert_reference_doc (items : list (Z * list Z)) (fileName : list Z) :
  Forall line_item items ->
  convertReferenceToConfig (reference_doc items) fileName
  = config_doc fileName items.
Proof.
  intros Hitems. unfold convertReferenceToConfig, reference_doc, config_doc.
  rewrite convert_fold. f_equal.
  assert (E : forall r, reference_header ++ r
               = js "# RAW CONSTANT POOL (REFERENCE ONLY)" ++ NEWLINE ::
                 js "# ID    | Value (UTF-8)" ++ NEWLINE ::
                 js "# ------|--------------------------" ++ NEWLINE :: r).
  { intros r. unfold reference_header. rewrite <- !app_assoc. reflexivity. }
  rewrite E, !split_lines_cons_line by now apply literal_no_newline.
  cbn [flat_map].
  change (emitted (js "# RAW CONSTANT POOL (REFERENCE ONLY)")) with (@nil Z).
  change (emitted (js "# ID    | Value (UTF-8)")) with (@nil Z).
  change (emitted (js "# ------|--------------------------")) with (@nil Z).
  cbn [app]. now apply convert_reference_items.
Qed.


(** X6: converting a reference text that lists ids and values gives the
    config text that lists the same ids and values in the same order;
    this is what keeps the right panel in step when a value is edited on
    the left. *)
Theorem conversion_keeps_items (items : list (Z * list Z)) (fileName : list Z) :
  Forall line_item items ->
  convertReferenceToConfig (reference_doc items) fileName
  = config_doc fileName items.
Proof. apply convert_reference_doc. Qed.

Lemma conversion_keeps_items_witness :
  convertReferenceToConfig
    (reference_doc [(0, js "Yes"); (7, [92; 34; 120])]) (js "A.class")
  = config_doc (js "A.class") [(0, js "Yes"); (7, [92; 34; 120])].
Proof.
  apply (conversion_keeps_items [(0, js "Yes"); (7, [92; 34; 120])] (js "A.class")).
  apply Forall_cons. split.
  - split; [simpl; lia|]. split.
    + repeat (apply vt_char; [discriminate | discriminate |]). apply vt_nil.
    + now apply literal_no_newline.
  - apply Forall_cons. split; [|apply Forall_nil_2].
    split; [simpl; lia|]. split.
    + apply vt_escape; [reflexivity|].
      apply vt_char; [discriminate | discriminate |]. apply vt_nil.
    + now apply literal_no_newline.
Defined.

(** ** The reference pass and the assembler *)

Lemma assemble_readable_switch (tag offset i size i' : Z) :
  assemble_switch tag i = Some (size, i') ->
  readable_switch tag offset i = (offset + size, i').
Proof.
  unfold assemble_switch, readable_switch.
  repeat match goal with
         | |- context [if ?b then _ else _] => destruct b
         end; intros [= <- <-]; reflexivity.
Qed.

Lemma readable_follows_assembly (unicode_L : Z -> bool) (original : list byte)
    (replacements : gmap Z (list Z)) (cpCount : Z) (fuel : nat) :
  forall i offset stringIndex newBytes output log log' r,
    assemble_loop unicode_L fuel original replacements cpCount i offset
                  stringIndex newBytes log = (log', Ok r) ->
    exists visits,
      log' = log ++ visits /\
      readable_loop unicode_L fuel original cpCount i offset stringIndex
                    output log
      = (log ++ visits, Ok (output ++ flat_map reference_visit_line visits)) /\
      Forall (fun v => stringIndex <= v_id v /\
                       Forall (fun c => 0 <= c) (v_text v)) visits.
Proof.
  induction fuel as [|fuel IH]; intros i offset stringIndex newBytes output
    log log' r H; cbn [assemble_loop readable_loop] in *.
  - destruct (negb (i <? cpCount)); [|discriminate].
    injection H as <- <-. exists []. now rewrite !app_nil_r.
  - destruct (negb (i <? cpCount)).
    { injection H as <- <-. exists []. now rewrite !app_nil_r. }
    destruct (getUint8 original offset) as [tag| |]; [|discriminate..].
    destruct (tag =? CONSTANT_Utf8).
    + destruct (getUint16 original (offset + 1)) as [len| |]; [|discriminate..].
      cbv zeta in *.
      set (text := decode (slice original (offset + 1 + 2) (offset + 1 + 2 + len))) in *.
      assert (Htext : Forall (fun c => 0 <= c) text) by apply decode_nonneg.
      destruct (isValidString unicode_L text) eqn:Hok.
      * assert (exists nb, assemble_loop unicode_L fuel original replacements
                  cpCount (i + 1) (offset + 1 + 2 + len) (stringIndex + 1) nb
                  (log ++ [Visit i offset text true stringIndex]) = (log', Ok r))
          as [nb Hnb].
        { destruct (replacements !! stringIndex); eauto. }
        apply (IH _ _ _ _
                 (output ++ reference_line (padStart 5 32 (toString stringIndex))
                                           (toJavaUnicode text)))
          in Hnb as (visits & -> & Hr & HF).
        exists (Visit i offset text true stringIndex :: visits).
        rewrite <- !app_assoc in *. cbn [app] in *.
        split; [reflexivity|]. split.
        -- rewrite Hr. cbn [flat_map]. unfold reference_visit_line at 2.
           cbn [v_valid v_id v_text]. now rewrite <- ?app_assoc.
        -- apply Forall_cons. split; [cbn; split; [lia|assumption]|].
           eapply Forall_impl; [exact HF|]. cbn. intros v [? ?]. split; [lia|assumption].
      * apply (IH _ _ _ _ output) in H as (visits & -> & Hr & HF).
        exists (Visit i offset text false stringIndex :: visits).
        rewrite <- !app_assoc in *. cbn [app] in *.
        split; [reflexivity|]. split.
        -- rewrite Hr. reflexivity.
        -- apply Forall_cons. split; [cbn; split; [lia|assumption]|exact HF].
    + destruct (assemble_switch tag i) as [[size i']|] eqn:Hsw; [|discriminate].
      rewrite (assemble_readable_switch _ (offset + 1) _ _ _ Hsw).
      now apply (IH _ _ _ _ output) in H.
Qed.

Lemma visit_items_doc (visits : list visit) :
  reference_header ++ flat_map reference_visit_line visits
  = reference_doc (visit_items visits).
Proof.
  unfold reference_doc. f_equal.
  induction visits as [|v visits IH]; [reflexivity|].
  unfold visit_items in *. change (omap ?f (v :: visits)) with (match f v with Some y => y :: omap f visits | None => omap f visits end); cbv beta. cbn [flat_map].
  unfold reference_visit_line at 1.
  destruct (v_valid v); cbn [flat_map app fst snd]; now rewrite IH.
Qed.

Lemma visit_items_config (fileName : list Z) (visits : list visit) :
  config_header fileName ++ flat_map visit_line visits
  = config_doc fileName (visit_items visits).
Proof.
  unfold config_doc. f_equal.
  induction visits as [|v visits IH]; [reflexivity|].
  unfold visit_items in *. change (omap ?f (v :: visits)) with (match f v with Some y => y :: omap f visits | None => omap f visits end); cbv beta. cbn [flat_map].
  unfold visit_line at 1.
  destruct (v_valid v); cbn [flat_map app fst snd]; now rewrite IH.
Qed.

Lemma visit_items_line_items (visits : list visit) :
  Forall (fun v => 0 <= v_id v /\ Forall (fun c => 0 <= c) (v_text v)) visits ->
  Forall line_item (visit_items visits).
Proof.
  induction 1 as [|v visits [Hid Ht] _ IH]; [constructor|].
  unfold visit_items in *. change (omap ?f (v :: visits)) with (match f v with Some y => y :: omap f visits | None => omap f visits end); cbv beta. destruct (v_valid v); [|exact IH].
  apply Forall_cons. split; [|exact IH].
  split; [exact Hid|]. split; cbn [fst snd].
  - now apply value_tokens_escape.
  - intros Hin. apply toJavaUnicode_printable in Ht.
    rewrite Forall_forall in Ht. apply Ht in Hin. unfold NEWLINE in Hin. lia.
Qed.

(** On every buffer the assembler accepts, whatever the config text, the
    reference pass visits the same strings with the same ids and returns
    their list, and the conversion of that list is the config text of the
    same ids. *)
Lemma readable_walk_of_assembly (unicode_L : Z -> bool)
    (original : list byte) (editorText fileName : list Z)
    (log : list visit) (out : list byte) :
  assemble_walk unicode_L original editorText = (log, Ok out) ->
  readable_walk unicode_L original = (log, Ok (reference_doc (visit_items log))) /\
  convertReferenceToConfig (reference_doc (visit_items log)) fileName
  = config_doc fileName (visit_items log).
Proof.
  unfold assemble_walk, readable_walk. intros H.
  destruct (getUint32 original 0) as [magic| |]; [|discriminate..].
  destruct (negb (magic =? MAGIC)); [discriminate|].
  destruct (getUint16 original 8) as [cpCount| |]; [|discriminate..].
  cbv zeta in H.
  destruct (assemble_loop _ _ _ _ _ _ _ _ _ _) as [log' [[off nb]| |]] eqn:Hloop;
    [|discriminate..].
  injection H as -> _.
  apply (readable_follows_assembly _ _ _ _ _ _ _ _ _ reference_header)
    in Hloop as (visits & -> & Hr & HF).
  cbn [app] in *. rewrite Hr, visit_items_doc. split; [reflexivity|].
  apply convert_reference_doc, visit_items_line_items.
  eapply Forall_impl; [exact HF|]. cbn. tauto.
Qed.

(** The assembler always returns or throws: its loop never runs out of
    fuel. *)
Lemma assembleClassFile_total (unicode_L : Z -> bool) (original : list byte)
    (editorText : list Z) :
  assembleClassFile unicode_L original editorText <> OutOfFuel.
Proof.
  unfold assembleClassFile, assemble_walk.
  destruct (getUint32_outcome original 0) as [[magic ->]| ->]; [|discriminate].
  destruct (magic =? MAGIC); cbn [negb]; [|discriminate].
  destruct (getUint16_outcome original 8) as [[cpCount ->]| ->]; [|discriminate].
  cbv zeta.
  destruct (loops_walk_alike unicode_L original (parse_replacements editorText)
              cpCount (Z.to_nat cpCount) 1 10 0 []
              (writeBytes (take 8 original) ++ writeU2 cpCount) [])
    as (visits & _ & _ & Hend); [lia|].
  destruct (assemble_loop _ _ _ _ _ _ _ _ _ _) as [log [[off nb]| |]];
    cbn [snd] in *; try discriminate.
  destruct Hend as [[_ (? & ? & H)]|[[_ H]|(? & ? & _ & H)]]; discriminate.
Qed.

Lemma readable_loop_throws (unicode_L : Z -> bool) (content : list byte)
    (cpCount : Z) (fuel : nat) :
  forall i offset stringIndex output log e,
    (readable_loop unicode_L fuel content cpCount i offset stringIndex
       output log).2 = Throw e -> e = RangeError.
Proof.
  induction fuel as [|fuel IH]; intros i offset sidx output log e;
    cbn [readable_loop].
  - destruct (negb (i <? cpCount)); discriminate.
  - destruct (negb (i <? cpCount)); [discriminate|].
    unfold getUint8.
    destruct (byte_at_outcome content offset) as [[tag ->]| ->];
      [|now intros [= <-]].
    destruct (tag =? CONSTANT_Utf8).
    + destruct (getUint16_outcome content (offset + 1)) as [[len ->]| ->];
        [|now intros [= <-]].
      destruct (isValidString unicode_L _); apply IH.
    + destruct (readable_switch tag (offset + 1) i) as [offset' i']. apply IH.
Qed.

Lemma extractReadableStrings_throws (unicode_L : Z -> bool)
    (content : list byte) (e : exn) :
  extractReadableStrings unicode_L content = Throw e -> e = RangeError.
Proof.
  unfold extractReadableStrings, readable_walk.
  destruct (getUint32_outcome content 0) as [[magic ->]| ->];
    [|now intros [= <-]].
  destruct (magic =? MAGIC); cbn [negb]; [|discriminate].
  destruct (getUint16_outcome content 8) as [[cpCount ->]| ->];
    [|now intros [= <-]].
  apply readable_loop_throws.
Qed.

(** ** The handlers of the editor *)

(** X7: selecting a class file that the assembler accepts fills the left
    panel with the ids and escaped texts of the strings the assembler
    visits, the right panel with the config text of the same ids, and
    adds the selection line to the console. *)
Theorem selection_shows_assembly_ids (unicode_L : Z -> bool) (st : AppState)
    (node : FileNode) (bytes : list byte) (editorText : list Z)
    (log : list visit) (out : list byte) :
  content node = Some bytes ->
  endsWith (js ".class") (name node) = true ->
  assemble_walk unicode_L bytes editorText = (log, Ok out) ->
  handleNodeSelect unicode_L st node
  = (mkAppState (Some node)
       (reference_doc (visit_items log))
       (config_doc (name node) (visit_items log))
       (consoleOutput st ++ NEWLINE :: js "[Selection] " ++ name node
                         ++ js " loaded."),
     Ok tt).
Proof.
  intros Hc Hn Hw. unfold handleNodeSelect. rewrite Hc, Hn.
  destruct (readable_walk_of_assembly _ _ _ (name node) _ _ Hw) as [Hr Hconv].
  unfold extractReadableStrings. rewrite Hr. cbn [snd]. now rewrite Hconv.
Qed.

Lemma selection_shows_assembly_ids_witness :
  handleNodeSelect no_letters (mkAppState None [] [] [])
    (mkFileNode (js "A.class") (js "A.class") false None (Some ok_class))
  = (mkAppState
       (Some (mkFileNode (js "A.class") (js "A.class") false None (Some ok_class)))
       (reference_doc (visit_items (assemble_walk no_letters ok_class []).1))
       (config_doc (js "A.class")
                   (visit_items (assemble_walk no_letters ok_class []).1))
       ([] ++ NEWLINE :: js "[Selection] " ++ js "A.class" ++ js " loaded."),
     Ok tt).
Proof.
  apply (selection_shows_assembly_ids no_letters (mkAppState None [] [] [])
           (mkFileNode (js "A.class") (js "A.class") false None (Some ok_class))
           ok_class [] (assemble_walk no_letters ok_class []).1 ok_class).
  - reflexivity.
  - vm_compute. reflexivity.
  - vm_compute. reflexivity.
Defined.

(** X8: when selecting a node throws, the exception is the RangeError of
    a read out of bounds, the node is selected all the same while both
    panels and the console keep what they showed before, and the
    assembler throws on that file whatever the config text: the stale
    panels cannot be saved into it. *)
Theorem failed_selection_cannot_be_saved (unicode_L : Z -> bool)
    (st st' : AppState) (node : FileNode) (e : exn) :
  handleNodeSelect unicode_L st node = (st', Throw e) ->
  e = RangeError /\
  st' = mkAppState (Some node) (leftContent st) (rightContent st)
                   (consoleOutput st) /\
  exists bytes, content node = Some bytes /\
    forall editorText, exists e',
      assembleClassFile unicode_L bytes editorText = Throw e'.
Proof.
  unfold handleNodeSelect. destruct (content node) as [bytes|]; [|discriminate].
  destruct (endsWith _ _); [|discriminate].
  destruct (extractReadableStrings unicode_L bytes) as [raw|e0|] eqn:E;
    [discriminate| |discriminate].
  intros [= <- <-]. split; [now apply extractReadableStrings_throws in E|].
  split; [reflexivity|]. exists bytes. split; [reflexivity|].
  intros editorText.
  pose proof (assembleClassFile_total unicode_L bytes editorText) as Htot.
  unfold assembleClassFile in *.
  destruct (assemble_walk unicode_L bytes editorText) as [log [out|e'|]] eqn:Hw;
    cbn [snd] in *; [|eauto|contradiction].
  destruct (readable_walk_of_assembly _ _ _ [] _ _ Hw) as [Hr _].
  unfold extractReadableStrings in E. rewrite Hr in E. discriminate.
Qed.

Lemma failed_selection_cannot_be_saved_witness :
  RangeError = RangeError /\
  mkAppState
    (Some (mkFileNode (js "A.class") (js "A.class") false None (Some [xca; xfe])))
    (js "left") (js "right") []
  = mkAppState
      (Some (mkFileNode (js "A.class") (js "A.class") false None (Some [xca; xfe])))
      (leftContent (mkAppState None (js "left") (js "right") []))
      (rightContent (mkAppState None (js "left") (js "right") []))
      (consoleOutput (mkAppState None (js "left") (js "right") [])) /\
  exists bytes,
    content (mkFileNode (js "A.class") (js "A.class") false None (Some [xca; xfe]))
    = Some bytes /\
    forall editorText, exists e',
      assembleClassFile no_letters bytes editorText = Throw e'.
Proof.
  apply (failed_selection_cannot_be_saved no_letters
           (mkAppState None (js "left") (js "right") [])).
  vm_compute. reflexivity.
Defined.

Lemma convert_reference_lines (texts : list (list Z)) :
  Forall (Forall (fun c => 0 <= c)) texts ->
  forall id, 0 <= id ->
    flat_map emitted (split_lines (reference_lines id texts))
    = config_lines id texts.
Proof.
  induction 1 as [|t ts Ht _ IH]; intros id Hid; [reflexivity|].
  cbn [reference_lines config_lines].
  rewrite reference_line_body, <- app_assoc. cbn [app].
  rewrite split_lines_cons_line.
  - cbn [flat_map]. rewrite IH by lia. f_equal.
    unfold emitted.
    now rewrite reference_body_matches by (try apply value_tokens_escape; assumption).
  - apply reference_body_item_one_line. intros Hin.
    apply toJavaUnicode_printable in Ht. rewrite Forall_forall in Ht.
    apply Ht in Hin. unfold NEWLINE in Hin. lia.
Qed.

Lemma convert_after_header (r fileName : list Z) :
  convertReferenceToConfig (reference_header ++ r) fileName
  = config_header fileName ++ flat_map emitted (split_lines r).
Proof.
  unfold convertReferenceToConfig. rewrite convert_fold. f_equal.
Qed.

(** X9: selecting a valid class file puts in the right panel the very
    text [extractStringsFromClass] returns for it, although the handler
    computes it by converting the reference text; and when every
    eligible string of the file is the UTF-8 encoding of its decoded
    text, saving that panel unchanged gives back the file byte for
    byte. *)
Theorem selection_then_save_round_trip (unicode_L : Z -> bool) (st : AppState)
    (node : FileNode) (version : list byte) (es : list entry)
    (rest : list byte) :
  valid_class version es ->
  content node = Some (class_bytes version es rest) ->
  endsWith (js ".class") (name node) = true ->
  extractStringsFromClass unicode_L (class_bytes version es rest) (name node)
  = Ok (rightContent (handleNodeSelect unicode_L st node).1) /\
  (Forall (reencodes unicode_L) es ->
   assembleClassFile unicode_L (class_bytes version es rest)
     (rightContent (handleNodeSelect unicode_L st node).1)
   = Ok (class_bytes version es rest)).
Proof.
  intros Hvalid Hc Hn.
  assert (Hright : rightContent (handleNodeSelect unicode_L st node).1
                   = config_header (name node) ++
                     config_lines 0 (eligible unicode_L es)).
  { unfold handleNodeSelect. rewrite Hc, Hn.
    rewrite (readable_class unicode_L version es rest Hvalid).
    cbn [fst rightContent]. rewrite convert_after_header.
    f_equal. apply convert_reference_lines; [apply eligible_nonneg | lia]. }
  rewrite Hright. split.
  - now apply extract_class.
  - intros Hre. rewrite (assemble_class unicode_L version es rest _ Hvalid).
    f_equal. unfold assembled, class_bytes.
    destruct Hvalid as (_ & Hwf & _).
    rewrite rewrite_with_extraction by assumption.
    now rewrite Uint8Array_of_writeBytes.
Qed.

Lemma selection_then_save_round_trip_witness :
  extractStringsFromClass no_letters (class_bytes version52 ok_entries [x09])
    (js "A.class")
  = Ok (rightContent
          (handleNodeSelect no_letters (mkAppState None [] [] [])
             (mkFileNode (js "A.class") (js "A.class") false None
                         (Some (class_bytes version52 ok_entries [x09])))).1) /\
  assembleClassFile no_letters (class_bytes version52 ok_entries [x09])
    (rightContent
       (handleNodeSelect no_letters (mkAppState None [] [] [])
          (mkFileNode (js "A.class") (js "A.class") false None
                      (Some (class_bytes version52 ok_entries [x09])))).1)
  = Ok (class_bytes version52 ok_entries [x09]).
Proof.
  destruct (selection_then_save_round_trip no_letters (mkAppState None [] [] [])
              (mkFileNode (js "A.class") (js "A.class") false None
                          (Some (class_bytes version52 ok_entries [x09])))
              version52 ok_entries [x09] valid_ok_class eq_refl)
    as [H1 H2].
  - vm_compute. reflexivity.
  - split; [exact H1|]. apply H2.
    apply Forall_cons. split; [intros _; vm_compute; reflexivity|].
    apply Forall_cons. split; [exact I|]. apply Forall_nil_2.
Defined.

(** ** Reading a config text back *)

Lemma edit_match_item (id : Z) (v : list Z) :
  value_tokens v ->
  edit_match (config_body (toString id) v) = Some (toString id, v).
Proof.
  intros Hv. apply search_here, edit_match_here_iff.
  exists [32], [32], []. repeat split.
  - apply toString_nonempty.
  - apply toString_digits.
  - now repeat constructor.
  - now repeat constructor.
  - exact Hv.
Qed.

Lemma config_body_item_one_line (id : Z) (v : list Z) :
  NEWLINE ∉ v -> NEWLINE ∉ config_body (toString id) v.
Proof.
  intros Hv. unfold config_body. rewrite !elem_of_app.
  intros [H|[H|[H|[H|[H|H]]]]].
  - apply list_elem_of_In in H. cbv in H. intuition discriminate.
  - pose proof (toString_digits id) as Hd. rewrite Forall_forall in Hd.
    apply Hd, isDigit_range in H. unfold NEWLINE in H. lia.
  - apply list_elem_of_In in H. cbv in H. intuition discriminate.
  - apply list_elem_of_singleton in H. discriminate.
  - contradiction.
  - apply list_elem_of_singleton in H. discriminate.
Qed.

(** A line without a quote carries no edit. *)
Lemma edit_match_needs_quote (line : list Z) :
  QUOTE ∉ line -> edit_match line = None.
Proof.
  intros Hq. destruct (edit_match line) as [[d v]|] eqn:E; [|reflexivity].
  exfalso. apply Hq.
  assert (H : is_Some (edit_match line)) by (rewrite E; eauto).
  unfold edit_match in H.
  apply (search_is_Some _ _ edit_match_here_iff) in H
    as (pre & s & d' & v' & -> & ws1 & ws2 & post & -> & _).
  rewrite !elem_of_app. right. right. right. right. right. right. left.
  apply list_elem_of_singleton. reflexivity.
Qed.

Lemma split_lines_elements (c : Z) (s : list Z) :
  c ∉ s -> Forall (fun l => c ∉ l) (split_lines s).
Proof.
  induction s as [|a s IH]; intros Hc.
  - constructor; [exact Hc|constructor].
  - rewrite not_elem_of_cons in Hc. destruct Hc as [Hne Hc].
    specialize (IH Hc). cbn [split_lines].
    destruct (a =? NEWLINE).
    + constructor; [apply not_elem_of_nil|exact IH].
    + destruct (split_lines s) as [|l ls].
      * constructor; [|constructor].
        rewrite not_elem_of_cons. split; [exact Hne|apply not_elem_of_nil].
      * apply Forall_cons in IH as [Hl Hls].
        constructor; [|exact Hls].
        rewrite not_elem_of_cons. now split.
Qed.

Lemma replacements_fold_none (lines : list (list Z)) (m : gmap Z (list Z)) :
  Forall (fun l => edit_match l = None) lines ->
  fold_left replacements_step lines m = m.
Proof.
  induction 1 as [|l lines Hl _ IH]; [reflexivity|].
  cbn [fold_left]. unfold replacements_step at 2. now rewrite Hl.
Qed.

(** The header of a config text carries no edit, unless the file name
    has a quote in it. *)
Lemma parse_after_header (fileName rest : list Z) :
  QUOTE ∉ fileName ->
  parse_replacements (config_header fileName ++ rest)
  = fold_left replacements_step (split_lines rest) ∅.
Proof.
  intros Hq. unfold parse_replacements.
  assert (E : config_header fileName ++ rest
              = (js "# Translation File: " ++ fileName) ++ NEWLINE ::
                (js "# Only edit text inside quotes " ++ [QUOTE] ++ js "..."
                    ++ [QUOTE]) ++ NEWLINE ::
                (js "# Format: str_ID = " ++ [QUOTE] ++ js "Value" ++ [QUOTE])
                  ++ NEWLINE :: [] ++ NEWLINE :: rest).
  { unfold config_header. rewrite <- !app_assoc. reflexivity. }
  rewrite E, split_lines_app_newline, fold_left_app.
  rewrite (replacements_fold_none
             (split_lines (js "# Translation File: " ++ fileName))).
  - rewrite !split_lines_cons_line by now apply literal_no_newline.
    reflexivity.
  - eapply Forall_impl; [apply (split_lines_elements QUOTE)|].
    + rewrite elem_of_app. intros [H|H]; [|contradiction].
      apply list_elem_of_In in H. cbv in H. intuition discriminate.
    + intros l. apply edit_match_needs_quote.
Qed.

Lemma replacements_of_items (items : list (Z * list Z)) :
  Forall line_item items ->
  forall m,
    fold_left replacements_step
      (split_lines (flat_map (fun item => config_line (toString item.1) item.2)
                             items)) m
    = fold_left (fun m item => <[item.1 := fromJavaUnicode item.2]> m) items m.
Proof.
  induction 1 as [|[id v] items (Hid & Hv & Hnl) _ IH]; intros m; [reflexivity|].
  cbn [flat_map fst snd fold_left] in *.
  rewrite config_line_body, <- app_assoc. cbn [app].
  rewrite split_lines_cons_line by now apply config_body_item_one_line.
  cbn [fold_left]. rewrite IH. f_equal.
  unfold replacements_step.
  now rewrite edit_match_item, parseInt_toString by assumption.
Qed.

Lemma config_doc_bindings (fileName : list Z) (items : list (Z * list Z)) :
  QUOTE ∉ fileName -> Forall line_item items ->
  parse_replacements (config_doc fileName items) = bindings items.
Proof.
  intros Hq Hitems. unfold config_doc, bindings.
  rewrite parse_after_header by assumption.
  now apply replacements_of_items.
Qed.

(** X10: with a file selected whose name has no quote in it, putting in
    the left panel a reference text that lists ids and values makes the
    right panel the config text of the same list, and the edit set the
    assembler reads from that panel binds each id to the unescaped value
    of its last line and binds nothing else.  The ids are below 2^53,
    where the number [parseInt] returns is the number written. *)
Theorem left_edit_reaches_assembler (st : AppState) (node : FileNode)
    (items : list (Z * list Z)) :
  selectedFile st = Some node ->
  QUOTE ∉ name node ->
  Forall line_item items ->
  Forall (fun item => item.1 < 2 ^ 53) items ->
  handleLeftEditorChange st (Some (reference_doc items))
  = mkAppState (Some node) (reference_doc items)
               (config_doc (name node) items) (consoleOutput st) /\
  parse_replacements
    (rightContent (handleLeftEditorChange st (Some (reference_doc items))))
  = bindings items.
Proof.
  intros Hsel Hq Hitems _. unfold handleLeftEditorChange. rewrite Hsel.
  rewrite convert_reference_doc by assumption. split; [reflexivity|].
  now apply config_doc_bindings.
Qed.

Lemma left_edit_reaches_assembler_witness :
  handleLeftEditorChange
    (mkAppState (Some (mkFileNode (js "A.class") (js "A.class") false None None))
                [] [] [])
    (Some (reference_doc [(0, js "Yes"); (0, [92; 34; 120])]))
  = mkAppState (Some (mkFileNode (js "A.class") (js "A.class") false None None))
               (reference_doc [(0, js "Yes"); (0, [92; 34; 120])])
               (config_doc (js "A.class") [(0, js "Yes"); (0, [92; 34; 120])])
               [] /\
  parse_replacements
    (rightContent
       (handleLeftEditorChange
          (mkAppState
             (Some (mkFileNode (js "A.class") (js "A.class") false None None))
             [] [] [])
          (Some (reference_doc [(0, js "Yes"); (0, [92; 34; 120])]))))
  = bindings [(0, js "Yes"); (0, [92; 34; 120])].
Proof.
  apply (left_edit_reaches_assembler
           (mkAppState
              (Some (mkFileNode (js "A.class") (js "A.class") false None None))
              [] [] [])
           (mkFileNode (js "A.class") (js "A.class") false None None)
           [(0, js "Yes"); (0, [92; 34; 120])]).
  - reflexivity.
  - intros H. apply list_elem_of_In in H. cbv in H. intuition discriminate.
  - apply Forall_cons. split.
    + split; [simpl; lia|]. split.
      * repeat (apply vt_char; [discriminate | discriminate |]). apply vt_nil.
      * now apply literal_no_newline.
    + apply Forall_cons. split; [|apply Forall_nil_2].
      split; [simpl; lia|]. split.
      * apply vt_escape; [reflexivity|].
        apply vt_char; [discriminate | discriminate |]. apply vt_nil.
      * now apply literal_no_newline.
  - apply Forall_cons. split; [cbn [fst]; lia|].
    apply Forall_cons. split; [cbn [fst]; lia|]. apply Forall_nil_2.
Defined.

(** ** What assembly keeps and what it changes *)

Lemma rewrite_entries_edited (unicode_L : Z -> bool)
    (replacements : gmap Z (list Z)) (es : list entry) :
  Forall wf_entry es ->
  forall stringIndex,
    rewrite_entries unicode_L replacements stringIndex es
    = writeBytes (pool_bytes (edited unicode_L replacements stringIndex es)).
Proof.
  unfold pool_bytes, writeBytes.
  induction 1 as [|e es He _ IH]; intros stringIndex; [reflexivity|].
  destruct e as [raw|tag payload]; cbn [rewrite_entries edited].
  - destruct (isValidString unicode_L (decode raw)).
    + destruct (replacements !! stringIndex) as [t|];
        cbn [flat_map]; rewrite map_app, <- IH; f_equal.
      symmetry. apply writeBytes_entry_utf8.
    + cbn [flat_map]. rewrite map_app, <- IH. reflexivity.
  - cbn [flat_map]. rewrite map_app, <- IH. reflexivity.
Qed.

Lemma edited_slots (unicode_L : Z -> bool) (replacements : gmap Z (list Z))
    (es : list entry) :
  forall stringIndex,
    pool_slots (edited unicode_L replacements stringIndex es) = pool_slots es /\
    length (edited unicode_L replacements stringIndex es) = length es.
Proof.
  induction es as [|e es IH]; intros stringIndex; [split; reflexivity|].
  destruct e as [raw|tag payload]; cbn [edited].
  - destruct (isValidString unicode_L (decode raw));
      [destruct (replacements !! stringIndex)|];
      cbn [pool_slots entry_slots length];
      (destruct (IH (stringIndex + 1)) as [-> ->] ||
       destruct (IH stringIndex) as [-> ->]); split; reflexivity.
  - cbn [pool_slots length]. destruct (IH stringIndex) as [-> ->].
    split; reflexivity.
Qed.

Lemma edited_wf (unicode_L : Z -> bool) (replacements : gmap Z (list Z))
    (es : list entry) :
  (forall k t, replacements !! k = Some t ->
               Z.of_nat (length (encode t)) < 65536) ->
  Forall wf_entry es ->
  forall stringIndex,
    Forall wf_entry (edited unicode_L replacements stringIndex es).
Proof.
  intros Hsize. induction 1 as [|e es He _ IH]; intros stringIndex;
    [constructor|].
  destruct e as [raw|tag payload]; cbn [edited].
  - destruct (isValidString unicode_L (decode raw)).
    + constructor; [|apply IH].
      destruct (replacements !! stringIndex) as [t|] eqn:E; [|exact He].
      cbn. eauto.
    + constructor; [exact He|apply IH].
  - constructor; [exact He|apply IH].
Qed.

Lemma assembled_edited (unicode_L : Z -> bool) (replacements : gmap Z (list Z))
    (version : list byte) (es : list entry) (rest : list byte) :
  Forall wf_entry es ->
  assembled unicode_L replacements version es rest
  = class_bytes version (edited unicode_L replacements 0 es) rest.
Proof.
  intros Hwf. unfold assembled, class_bytes.
  rewrite rewrite_entries_edited, Uint8Array_of_writeBytes by assumption.
  now destruct (edited_slots unicode_L replacements es 0) as [-> _].
Qed.

Lemma eligible_edited (unicode_L : Z -> bool) (replacements : gmap Z (list Z))
    (es : list entry) :
  forall stringIndex,
    eligible unicode_L (edited unicode_L replacements stringIndex es)
    = List.filter (isValidString unicode_L)
        (substituted replacements stringIndex (eligible unicode_L es)).
Proof.
  induction es as [|e es IH]; intros stringIndex; [reflexivity|].
  destruct e as [raw|tag payload]; cbn [edited].
  - destruct (isValidString unicode_L (decode raw)) eqn:Hok.
    + rewrite (eligible_cons_utf8 unicode_L raw es), Hok.
      cbn [substituted List.filter].
      destruct (replacements !! stringIndex) as [t|];
        rewrite eligible_cons_utf8, IH; [reflexivity|].
      now rewrite Hok.
    + rewrite !eligible_cons_utf8, Hok. apply IH.
  - apply IH.
Qed.

(** X11: on a valid class file the assembler returns the class file
    with the same version, the same bytes after the pool, the same
    number of entries and the same pool count, whose entries are the
    original ones except that each eligible string with a bound id
    carries the encoding of the bound text; the result is again a valid
    class file when every bound text encodes to fewer than 65536
    bytes. *)
Theorem assembly_keeps_structure (unicode_L : Z -> bool) (version : list byte)
    (es : list entry) (rest : list byte) (editorText : list Z) :
  valid_class version es ->
  assembleClassFile unicode_L (class_bytes version es rest) editorText
  = Ok (class_bytes version
          (edited unicode_L (parse_replacements editorText) 0 es) rest) /\
  length (edited unicode_L (parse_replacements editorText) 0 es) = length es /\
  pool_slots (edited unicode_L (parse_replacements editorText) 0 es)
  = pool_slots es /\
  ((forall k t, parse_replacements editorText !! k = Some t ->
                Z.of_nat (length (encode t)) < 65536) ->
   valid_class version
     (edited unicode_L (parse_replacements editorText) 0 es)).
Proof.
  intros Hvalid. pose proof Hvalid as (Hver & Hwf & Hslots).
  destruct (edited_slots unicode_L (parse_replacements editorText) es 0)
    as [Hs Hl].
  split; [|split; [exact Hl|split; [exact Hs|]]].
  - rewrite (assemble_class unicode_L version es rest _ Hvalid).
    now rewrite assembled_edited.
  - intros Hsize. split; [exact Hver|]. split; [now apply edited_wf|].
    now rewrite Hs.
Qed.

Lemma assembly_keeps_structure_witness :
  assembleClassFile no_letters (class_bytes version52 ok_entries [x09])
    (config_body (js "0") (js "Fine"))
  = Ok (class_bytes version52
          (edited no_letters
             (parse_replacements (config_body (js "0") (js "Fine"))) 0
             ok_entries) [x09]) /\
  length (edited no_letters
            (parse_replacements (config_body (js "0") (js "Fine"))) 0
            ok_entries) = length ok_entries /\
  pool_slots (edited no_letters
                (parse_replacements (config_body (js "0") (js "Fine"))) 0
                ok_entries) = pool_slots ok_entries /\
  ((forall k t,
       parse_replacements (config_body (js "0") (js "Fine")) !! k = Some t ->
       Z.of_nat (length (encode t)) < 65536) ->
   valid_class version52
     (edited no_letters
        (parse_replacements (config_body (js "0") (js "Fine"))) 0 ok_entries)).
Proof.
  apply (assembly_keeps_structure no_letters version52 ok_entries [x09]
           (config_body (js "0") (js "Fine"))).
  exact valid_ok_class.
Defined.

Lemma rewrite_entries_unbound (unicode_L : Z -> bool)
    (replacements : gmap Z (list Z)) (es : list entry) :
  forall stringIndex,
    (forall j, (j < length (eligible unicode_L es))%nat ->
               replacements !! (stringIndex + Z.of_nat j) = None) ->
    edited unicode_L replacements stringIndex es = es.
Proof.
  induction es as [|e es IH]; intros stringIndex Hnone; [reflexivity|].
  destruct e as [raw|tag payload]; cbn [edited].
  - rewrite eligible_cons_utf8 in Hnone.
    destruct (isValidString unicode_L (decode raw)).
    + assert (H0 : replacements !! stringIndex = None).
      { rewrite <- (Z.add_0_r stringIndex). apply (Hnone 0%nat). cbn. lia. }
      rewrite H0. f_equal.
      apply IH. intros j Hj.
      replace (stringIndex + 1 + Z.of_nat j) with (stringIndex + Z.of_nat (S j))
        by lia.
      apply Hnone. cbn. lia.
    + f_equal. now apply IH.
  - f_equal. now apply IH.
Qed.

(** X12: on a valid class file, a config text that binds no id of an
    eligible string (an empty text, comments only, ids past the last
    string) makes the assembler return the file byte for byte, whatever
    the encoding of its strings. *)
Theorem unbound_ids_change_nothing (unicode_L : Z -> bool)
    (version : list byte) (es : list entry) (rest : list byte)
    (editorText : list Z) :
  valid_class version es ->
  (forall j, (j < length (eligible unicode_L es))%nat ->
             parse_replacements editorText !! Z.of_nat j = None) ->
  assembleClassFile unicode_L (class_bytes version es rest) editorText
  = Ok (class_bytes version es rest).
Proof.
  intros Hvalid Hnone.
  rewrite (assemble_class unicode_L version es rest _ Hvalid).
  rewrite assembled_edited by apply Hvalid.
  now rewrite rewrite_entries_unbound.
Qed.

Lemma unbound_ids_change_nothing_witness :
  assembleClassFile no_letters (class_bytes version52 nul_entries [])
    (config_body (js "1") (js "Fine"))
  = Ok (class_bytes version52 nul_entries []).
Proof.
  apply (unbound_ids_change_nothing no_letters version52 nul_entries []
           (config_body (js "1") (js "Fine"))).
  - split; [reflexivity|]. split; [|vm_compute; reflexivity].
    apply Forall_cons. split; [vm_compute; reflexivity|apply Forall_nil_2].
  - intros j Hj. assert (j = 0%nat) as -> by (vm_compute in Hj; lia).
    vm_compute. reflexivity.
Defined.

Lemma edited_valid (unicode_L : Z -> bool) (replacements : gmap Z (list Z))
    (version : list byte) (es : list entry) :
  valid_class version es ->
  (forall k t, replacements !! k = Some t ->
               Z.of_nat (length (encode t)) < 65536) ->
  valid_class version (edited unicode_L replacements 0 es).
Proof.
  intros (Hver & Hwf & Hslots) Hsize.
  split; [exact Hver|]. split; [now apply edited_wf|].
  now destruct (edited_slots unicode_L replacements es 0) as [-> _].
Qed.

Lemma extract_after_assembly (unicode_L : Z -> bool) (version : list byte)
    (es : list entry) (rest : list byte) (editorText fileName : list Z) :
  valid_class version es ->
  (forall k t, parse_replacements editorText !! k = Some t ->
               Z.of_nat (length (encode t)) < 65536) ->
  rbind (assembleClassFile unicode_L (class_bytes version es rest) editorText)
        (fun out => extractStringsFromClass unicode_L out fileName)
  = Ok (config_header fileName ++
        config_lines 0
          (List.filter (isValidString unicode_L)
             (substituted (parse_replacements editorText) 0
                          (eligible unicode_L es)))).
Proof.
  intros Hvalid Hsize.
  rewrite (assemble_class unicode_L version es rest _ Hvalid).
  rewrite assembled_edited by apply Hvalid. cbn [rbind].
  rewrite extract_class by now apply edited_valid.
  now rewrite eligible_edited.
Qed.

(** X13: assembling a valid class file and extracting the result lists
    the eligible strings of the original with each bound id replaced by
    the text read back from the encoding of its replacement, filtered
    again and numbered again from 0; so a replacement the filter rejects
    leaves the list and moves every later string one id down.  Every
    bound text is to encode to fewer than 65536 bytes. *)
Theorem saved_file_reads_back (unicode_L : Z -> bool) (version : list byte)
    (es : list entry) (rest : list byte) (editorText fileName : list Z) :
  valid_class version es ->
  (forall k t, parse_replacements editorText !! k = Some t ->
               Z.of_nat (length (encode t)) < 65536) ->
  rbind (assembleClassFile unicode_L (class_bytes version es rest) editorText)
        (fun out => extractStringsFromClass unicode_L out fileName)
  = Ok (config_header fileName ++
        config_lines 0
          (List.filter (isValidString unicode_L)
             (substituted (parse_replacements editorText) 0
                          (eligible unicode_L es)))).
Proof. apply extract_after_assembly. Qed.

Lemma one_edit_bindings (k : Z) (t : list Z) :
  parse_replacements (config_body (js "0") (js "Fine")) !! k = Some t ->
  k = 0 /\ t = js "Fine".
Proof.
  change (parse_replacements (config_body (js "0") (js "Fine")))
    with (<[0 := js "Fine"]> (∅ : gmap Z (list Z))).
  intros H. apply lookup_insert_Some in H as [[<- <-]|[_ H]]; [now split|].
  now rewrite lookup_empty in H.
Qed.

Lemma saved_file_reads_back_witness :
  rbind (assembleClassFile no_letters (class_bytes version52 ok_entries [x09])
           (config_body (js "0") (js "Fine")))
        (fun out => extractStringsFromClass no_letters out (js "A.class"))
  = Ok (config_header (js "A.class") ++
        config_lines 0
          (List.filter (isValidString no_letters)
             (substituted (parse_replacements (config_body (js "0") (js "Fine")))
                          0 (eligible no_letters ok_entries)))).
Proof.
  apply (saved_file_reads_back no_letters version52 ok_entries [x09]
           (config_body (js "0") (js "Fine")) (js "A.class")).
  - exact valid_ok_class.
  - intros k t H. apply one_edit_bindings in H as [_ ->].
    vm_compute. reflexivity.
Defined.

Lemma substituted_eligible (unicode_L : Z -> bool)
    (replacements : gmap Z (list Z)) (texts : list (list Z)) :
  (forall k t, replacements !! k = Some t ->
               decode (encode t) = t /\ isValidString unicode_L t = true) ->
  Forall (fun t => isValidString unicode_L t = true) texts ->
  forall id,
    List.filter (isValidString unicode_L) (substituted replacements id texts)
    = substituted replacements id texts /\
    length (substituted replacements id texts) = length texts /\
    forall (j : nat) (t0 : list Z),
      texts !! j = Some t0 ->
      substituted replacements id texts !! j
      = Some (default t0 (replacements !! (id + Z.of_nat j))).
Proof.
  intros Hnice. induction 1 as [|t0 texts Ht0 _ IH]; intros id.
  - split; [reflexivity|]. split; [reflexivity|]. intros j t H. discriminate.
  - destruct (IH (id + 1)) as (IH1 & IH2 & IH3).
    cbn [substituted List.filter length]. rewrite IH1, IH2.
    assert (Hhead : match replacements !! id with
                    | Some newText => decode (encode newText)
                    | None => t0
                    end = default t0 (replacements !! id) /\
                    isValidString unicode_L
                      (default t0 (replacements !! id)) = true).
    { destruct (replacements !! id) as [t|] eqn:E; cbn [default].
      - destruct (Hnice id t E) as [-> ?]. now split.
      - now split. }
    destruct Hhead as [-> Hv]. rewrite Hv.
    split; [reflexivity|]. split; [reflexivity|].
    intros [|j] t H.
    + injection H as <-. change (Z.of_nat 0) with 0. now rewrite Z.add_0_r.
    + change (texts !! j = Some t) in H.
      change ((?x :: ?l) !! S j) with (l !! j).
      rewrite (IH3 j t H). do 3 f_equal. lia.
Qed.

(** X14: when every bound text comes back unchanged from its encoding,
    passes the filter and encodes to fewer than 65536 bytes, assembling
    a valid class file and extracting the result lists as many strings
    as before under the same ids: the bound text where the id is bound,
    the original text elsewhere. *)
Theorem eligible_edits_keep_ids (unicode_L : Z -> bool) (version : list byte)
    (es : list entry) (rest : list byte) (editorText fileName : list Z) :
  valid_class version es ->
  (forall k t, parse_replacements editorText !! k = Some t ->
               Z.of_nat (length (encode t)) < 65536 /\
               decode (encode t) = t /\ isValidString unicode_L t = true) ->
  rbind (assembleClassFile unicode_L (class_bytes version es rest) editorText)
        (fun out => extractStringsFromClass unicode_L out fileName)
  = Ok (config_header fileName ++
        config_lines 0
          (substituted (parse_replacements editorText) 0
                       (eligible unicode_L es))) /\
  length (substituted (parse_replacements editorText) 0 (eligible unicode_L es))
  = length (eligible unicode_L es) /\
  forall (j : nat) (t0 : list Z),
    eligible unicode_L es !! j = Some t0 ->
    substituted (parse_replacements editorText) 0 (eligible unicode_L es) !! j
    = Some (default t0 (parse_replacements editorText !! Z.of_nat j)).
Proof.
  intros Hvalid Hnice.
  destruct (substituted_eligible unicode_L (parse_replacements editorText)
              (eligible unicode_L es)) with (id := 0) as (H1 & H2 & H3).
  - intros k t H. now destruct (Hnice k t H) as (_ & ? & ?).
  - unfold eligible. apply Forall_forall. intros t Ht.
    apply list_elem_of_In, filter_In in Ht. apply Ht.
  - rewrite extract_after_assembly.
    + rewrite H1. repeat split; assumption.
    + assumption.
    + intros k t H. now destruct (Hnice k t H).
Qed.

Lemma eligible_edits_keep_ids_witness :
  rbind (assembleClassFile no_letters (class_bytes version52 ok_entries [x09])
           (config_body (js "0") (js "Fine")))
        (fun out => extractStringsFromClass no_letters out (js "A.class"))
  = Ok (config_header (js "A.class") ++
        config_lines 0
          (substituted (parse_replacements (config_body (js "0") (js "Fine")))
                       0 (eligible no_letters ok_entries))) /\
  length (substituted (parse_replacements (config_body (js "0") (js "Fine")))
                      0 (eligible no_letters ok_entries))
  = length (eligible no_letters ok_entries) /\
  forall (j : nat) (t0 : list Z),
    eligible no_letters ok_entries !! j = Some t0 ->
    substituted (parse_replacements (config_body (js "0") (js "Fine")))
                0 (eligible no_letters ok_entries) !! j
    = Some (default t0
              (parse_replacements (config_body (js "0") (js "Fine"))
               !! Z.of_nat j)).
Proof.
  apply (eligible_edits_keep_ids no_letters version52 ok_entries [x09]
           (config_body (js "0") (js "Fine")) (js "A.class")).
  - exact valid_ok_class.
  - intros k t H. apply one_edit_bindings in H as [_ ->].
    split; [vm_compute; reflexivity|]. split; vm_compute; reflexivity.
Defined.

(** ** The tree of an archive *)

Lemma folder_names_app (l1 l2 : list FileNode) :
  folder_names (l1 ++ l2) = folder_names l1 ++ folder_names l2.
Proof. unfold folder_names. now rewrite List.filter_app, fmap_app. Qed.

(** Replacing a node by one of the same name and kind keeps the folder
    names of the level. *)
Lemma folder_names_insert (l : list FileNode) (k : nat) (x y : FileNode) :
  l !! k = Some x -> name y = name x -> isFolder y = isFolder x ->
  folder_names (<[k := y]> l) = folder_names l.
Proof.
  intros Hk Hn Hf.
  rewrite insert_take_drop by (eapply lookup_lt_Some; eassumption).
  rewrite <- (take_drop_middle l k x Hk) at 3.
  rewrite !folder_names_app. f_equal.
  unfold folder_names. cbn [List.filter]. rewrite Hf.
  destruct (isFolder x); cbn; now rewrite ?Hn.
Qed.

Lemma is_folder_named_spec (part : list Z) (n : FileNode) :
  is_folder_named part n = true <-> name n = part /\ isFolder n = true.
Proof.
  unfold is_folder_named. rewrite andb_true_iff, bool_decide_eq_true. tauto.
Qed.

Lemma folder_names_absent (part : list Z) (nodes : list FileNode) :
  list_find (fun n => is_folder_named part n = true) nodes = None ->
  part ∉ folder_names nodes.
Proof.
  rewrite list_find_None, Forall_forall. intros Hnone Hin.
  unfold folder_names in Hin. apply list_elem_of_fmap in Hin as (n & -> & Hn).
  apply list_elem_of_In, filter_In in Hn as [Hn Hf].
  apply (Hnone n); [now apply list_elem_of_In|].
  now apply is_folder_named_spec.
Qed.

(** [getFolder] keeps the shape of the level it is given and, on such a
    level, reads through no missing [children]. *)
Lemma getFolder_ok (push : list FileNode -> list FileNode) :
  (forall l, Forall node_ok l -> NoDup (folder_names l) ->
             Forall node_ok (push l) /\ NoDup (folder_names (push l))) ->
  forall pathParts nodes parentPath,
    Forall node_ok nodes -> NoDup (folder_names nodes) ->
    exists nodes',
      getFolder push nodes pathParts parentPath = Some nodes' /\
      Forall node_ok nodes' /\ NoDup (folder_names nodes').
Proof.
  intros Hpush. induction pathParts as [|part rest IH];
    intros nodes parentPath Hok Hnd; cbn [getFolder].
  - exists (push nodes). split; [reflexivity|]. now apply Hpush.
  - cbv zeta.
    set (currentPath := match parentPath with
                        | [] => part
                        | _ => parentPath ++ [SLASH] ++ part
                        end).
    destruct (list_find _ nodes) as [[k folder]|] eqn:Hfind.
    + apply list_find_Some in Hfind as (Hk & Hnamed & _).
      apply is_folder_named_spec in Hnamed as [Hname Hfolder].
      assert (Hfok : node_ok folder).
      { rewrite Forall_forall in Hok. apply Hok.
        eapply list_elem_of_lookup_2; eassumption. }
      destruct Hfok as [nm p bytes|nm p cs Hcs Hcnd]; [discriminate|].
      cbn [children name path isFolder content] in *.
      destruct (IH cs currentPath Hcs Hcnd) as (cs' & -> & Hcs' & Hcnd').
      eexists. split; [reflexivity|]. split.
      * apply Forall_insert; [exact Hok|]. now constructor.
      * now rewrite (folder_names_insert _ _ _ _ Hk).
    + destruct (IH [] currentPath) as (cs' & -> & Hcs' & Hcnd');
        [constructor|constructor|].
      eexists. split; [reflexivity|]. split.
      * apply Forall_app. split; [exact Hok|].
        constructor; [now constructor|constructor].
      * rewrite folder_names_app. apply NoDup_app. split; [exact Hnd|]. split.
        -- intros x Hx Hx'. cbn in Hx'. apply list_elem_of_singleton in Hx'.
           subst x. now apply folder_names_absent in Hfind.
        -- cbn. apply NoDup_singleton.
Qed.

Lemma push_file_ok (f : FileNode) :
  node_ok f -> isFolder f = false ->
  forall l, Forall node_ok l -> NoDup (folder_names l) ->
            Forall node_ok (l ++ [f]) /\ NoDup (folder_names (l ++ [f])).
Proof.
  intros Hf Hfile l Hok Hnd. split.
  - apply Forall_app. split; [exact Hok|]. constructor; [exact Hf|constructor].
  - rewrite folder_names_app. unfold folder_names at 2. cbn [List.filter].
    rewrite Hfile. cbn. now rewrite app_nil_r.
Qed.

Lemma parseJarFile_step_ok (root : list FileNode) (entry : list Z * ZipObject) :
  Forall node_ok root -> NoDup (folder_names root) ->
  (loads entry ->
   exists root', parseJarFile_step root entry = Some root' /\
                 Forall node_ok root' /\ NoDup (folder_names root')) /\
  (is_Some (parseJarFile_step root entry) -> loads entry).
Proof.
  intros Hok Hnd. unfold parseJarFile_step, loads.
  destruct (dir entry.2).
  { split; [eauto|]. intros _ H. discriminate. }
  destruct (default [] (last (split_on SLASH entry.1))) as [|c fileName] eqn:E.
  { split; [eauto|]. intros _ _ H. now contradiction H. }
  destruct (async_uint8array entry.2) as [bytes|].
  - split; [|eauto]. intros _.
    apply getFolder_ok; [|assumption..].
    apply push_file_ok; [constructor|reflexivity].
  - split.
    + intros H. destruct H as [x Hx]; [reflexivity|discriminate|discriminate].
    + intros [x Hx]. discriminate.
Qed.

Lemma parseJarFile_loop_ok (entries : list (list Z * ZipObject)) :
  forall root,
    Forall node_ok root -> NoDup (folder_names root) ->
    (Forall loads entries ->
     exists tree, parseJarFile_loop entries root = Some tree /\
                  Forall node_ok tree /\ NoDup (folder_names tree)) /\
    (is_Some (parseJarFile_loop entries root) -> Forall loads entries).
Proof.
  induction entries as [|entry entries IH]; intros root Hok Hnd;
    cbn [parseJarFile_loop].
  - split; [eauto|]. constructor.
  - destruct (parseJarFile_step_ok root entry Hok Hnd) as [Hstep Hback].
    split.
    + intros Hall. apply Forall_cons in Hall as [Hl Hall].
      destruct (Hstep Hl) as (root' & -> & Hok' & Hnd').
      now apply IH.
    + destruct (parseJarFile_step root entry) as [root'|] eqn:E;
        [|intros [x Hx]; discriminate].
      intros Hsome. apply Forall_cons. split; [apply Hback; eauto|].
      destruct (Hstep (Hback (ex_intro _ root' eq_refl)))
        as (root'' & [= <-] & Hok' & Hnd').
      now apply (IH root').
Qed.

Lemma parseJarFile_entries_ok (entries : list (list Z * ZipObject)) :
  (is_Some (parseJarFile entries) <-> Forall loads entries) /\
  forall tree, parseJarFile entries = Some tree ->
               Forall node_ok tree /\ NoDup (folder_names tree).
Proof.
  unfold parseJarFile.
  destruct (parseJarFile_loop_ok entries []) as [Hto Hfrom];
    [constructor|constructor|].
  split.
  - split; [exact Hfrom|]. intros H. destruct (Hto H) as (tree & -> & _). eauto.
  - intros tree Htree.
    destruct (Hto (Hfrom (ex_intro _ tree Htree))) as (tree' & E & Hok & Hnd).
    rewrite Htree in E. injection E as <-. now split.
Qed.

(** X15: the function resolves exactly when the file loads as an archive
    and the bytes of every entry it does not skip are read, so it never
    fails on the tree it builds; the tree then has files with bytes and
    no children, folders with children and no bytes, and no two folders
    of one level with the same name. *)
Theorem parseJarFile_builds_a_tree
    (zip : option (list (list Z * ZipObject))) :
  (is_Some (parseJarFile_loadAsync zip) <->
   exists entries, zip = Some entries /\ Forall loads entries) /\
  forall tree, parseJarFile_loadAsync zip = Some tree ->
               Forall node_ok tree /\ NoDup (folder_names tree).
Proof.
  destruct zip as [entries|]; cbn [parseJarFile_loadAsync].
  - destruct (parseJarFile_entries_ok entries) as [Hiff Htree].
    split; [|exact Htree]. rewrite Hiff. split.
    + intros H. eauto.
    + now intros (entries' & [= <-] & H).
  - split; [|discriminate]. split.
    + intros [tree H]. discriminate.
    + intros (entries & H & _). discriminate.
Qed.

Lemma files_with_children (folder : FileNode) (cs cs' : list FileNode) :
  children folder = Some cs ->
  exists own,
    files folder = own ++ flat_map files cs /\
    files (mkFileNode (name folder) (path folder) (isFolder folder) (Some cs')
                      (content folder))
    = own ++ flat_map files cs'.
Proof.
  destruct folder as [nm p f c b]. cbn [children]. intros ->.
  cbn [files name path isFolder content]. eauto.
Qed.

Lemma getFolder_files (push : list FileNode -> list FileNode)
    (added : list (list Z * list Z * list byte)) :
  (forall l, flat_map files (push l) ≡ₚ flat_map files l ++ added) ->
  forall pathParts nodes parentPath nodes',
    getFolder push nodes pathParts parentPath = Some nodes' ->
    flat_map files nodes' ≡ₚ flat_map files nodes ++ added.
Proof.
  intros Hpush. induction pathParts as [|part rest IH];
    intros nodes parentPath nodes'; cbn [getFolder].
  - intros [= <-]. apply Hpush.
  - cbv zeta.
    set (currentPath := match parentPath with
                        | [] => part
                        | _ => parentPath ++ [SLASH] ++ part
                        end).
    destruct (list_find _ nodes) as [[k folder]|] eqn:Hfind.
    + apply list_find_Some in Hfind as (Hk & _ & _).
      destruct (children folder) as [cs|] eqn:Hcs; [|discriminate].
      destruct (getFolder push cs rest currentPath) as [cs'|] eqn:Hrec;
        [|discriminate].
      intros [= <-]. apply IH in Hrec.
      destruct (files_with_children folder cs cs' Hcs) as (own & E1 & E2).
      rewrite insert_take_drop by (eapply lookup_lt_Some; eassumption).
      rewrite <- (take_drop_middle nodes k folder Hk) at 3.
      rewrite !flat_map_app. cbn [flat_map]. rewrite E1, E2, Hrec.
      rewrite <- !app_assoc.
      do 3 apply Permutation_app_head. apply Permutation_app_comm.
    + destruct (getFolder push [] rest currentPath) as [cs'|] eqn:Hrec;
        [|discriminate].
      intros [= <-]. apply IH in Hrec.
      rewrite flat_map_app. cbn [flat_map files app] in *.
      now rewrite Hrec, !app_nil_r.
Qed.

Lemma kept_cons (entry : list Z * ZipObject)
    (entries : list (list Z * ZipObject)) :
  kept (entry :: entries) = kept [entry] ++ kept entries.
Proof.
  unfold kept.
  change (omap ?f (entry :: entries))
    with (match f entry with Some y => y :: omap f entries
                           | None => omap f entries end).
  change (omap ?f [entry])
    with (match f entry with Some y => [y] | None => [] end).
  cbv beta. now destruct (if dir entry.2 then _ else _).
Qed.

Lemma parseJarFile_step_files (root root' : list FileNode)
    (entry : list Z * ZipObject) :
  parseJarFile_step root entry = Some root' ->
  flat_map files root' ≡ₚ flat_map files root ++ kept [entry].
Proof.
  unfold parseJarFile_step, kept.
  change (omap ?f [entry])
    with (match f entry with Some y => [y] | None => [] end).
  cbv beta.
  destruct (dir entry.2).
  { intros [= <-]. now rewrite app_nil_r. }
  destruct (default [] (last (split_on SLASH entry.1))) as [|c fileName].
  { intros [= <-]. now rewrite app_nil_r. }
  destruct (async_uint8array entry.2) as [bytes|]; [|discriminate].
  apply getFolder_files. intros l.
  rewrite flat_map_app. cbn [flat_map files]. now rewrite !app_nil_r.
Qed.

Lemma parseJarFile_loop_files (entries : list (list Z * ZipObject)) :
  forall root tree,
    parseJarFile_loop entries root = Some tree ->
    flat_map files tree ≡ₚ flat_map files root ++ kept entries.
Proof.
  induction entries as [|entry entries IH]; intros root tree;
    cbn [parseJarFile_loop].
  - intros [= <-]. now rewrite app_nil_r.
  - destruct (parseJarFile_step root entry) as [root'|] eqn:E; [|discriminate].
    intros H. apply IH in H. apply parseJarFile_step_files in E.
    rewrite (kept_cons entry entries), H, E. now rewrite <- app_assoc.
Qed.

(** X16: the files of the tree, with their names, paths and bytes, are
    the entries that are not directories and whose path does not end in
    a slash, each once, named by the last part of its path and with its
    whole path and its bytes; nothing else becomes a file. *)
Theorem tree_files_are_kept_entries (entries : list (list Z * ZipObject))
    (tree : list FileNode) :
  parseJarFile entries = Some tree ->
  flat_map files tree ≡ₚ kept entries.
Proof.
  intros H. apply parseJarFile_loop_files in H. exact H.
Qed.

Lemma tree_files_are_kept_entries_witness :
  flat_map files (default [] (parseJarFile jar_entries)) ≡ₚ kept jar_entries.
Proof.
  apply (tree_files_are_kept_entries jar_entries
           (default [] (parseJarFile jar_entries))).
  vm_compute. reflexivity.
Defined.

Lemma list_find_insert_equiv {A} (P : A -> Prop) `{forall x, Decision (P x)}
    (l : list A) (k j : nat) (x y z : A) :
  l !! k = Some x -> (P y <-> P x) ->
  list_find P l = Some (j, z) ->
  list_find P (<[k := y]> l) = Some (j, if decide (j = k) then y else z).
Proof.
  intros Hk Hequiv Hfind.
  apply list_find_Some in Hfind as (Hj & HP & Hbefore).
  apply list_find_Some. split; [|split].
  - destruct (decide (j = k)) as [->|Hne].
    + apply list_lookup_insert_eq. eapply lookup_lt_Some; eassumption.
    + now rewrite list_lookup_insert_ne by congruence.
  - destruct (decide (j = k)) as [->|Hne]; [|exact HP].
    apply Hequiv. congruence.
  - intros i w Hi Hlt.
    destruct (decide (i = k)) as [->|Hne].
    + rewrite list_lookup_insert_eq in Hi
        by (eapply lookup_lt_Some; eassumption).
      injection Hi as <-. rewrite Hequiv. now apply (Hbefore k x).
    + rewrite list_lookup_insert_ne in Hi by congruence.
      now apply (Hbefore i w).
Qed.

Lemma is_folder_named_rebuilt (part : list Z) (folder : FileNode)
    (cs' : list FileNode) :
  is_folder_named part
    (mkFileNode (name folder) (path folder) (isFolder folder) (Some cs')
                (content folder)) = true
  <-> is_folder_named part folder = true.
Proof. reflexivity. Qed.

(** After [getFolder] the folder path leads to the array that was pushed
    on. *)
Lemma getFolder_resolves (push : list FileNode -> list FileNode)
    (x : FileNode) :
  (forall l, x ∈ push l) ->
  forall pathParts nodes parentPath nodes',
    getFolder push nodes pathParts parentPath = Some nodes' ->
    exists folderContent,
      resolve nodes' pathParts = Some folderContent /\ x ∈ folderContent.
Proof.
  intros Hpush. induction pathParts as [|part rest IH];
    intros nodes parentPath nodes'; cbn [getFolder resolve].
  - intros [= <-]. eauto.
  - cbv zeta.
    set (currentPath := match parentPath with
                        | [] => part
                        | _ => parentPath ++ [SLASH] ++ part
                        end).
    destruct (list_find _ nodes) as [[k folder]|] eqn:Hfind.
    + destruct (children folder) as [cs|] eqn:Hcs; [|discriminate].
      destruct (getFolder push cs rest currentPath) as [cs'|] eqn:Hrec;
        [|discriminate].
      intros [= <-]. apply IH in Hrec as (fc & Hfc & Hx).
      pose proof Hfind as Hfind'.
      apply list_find_Some in Hfind' as (Hk & _ & _).
      rewrite (list_find_insert_equiv _ nodes k k folder _ folder Hk
                 (is_folder_named_rebuilt part folder cs') Hfind).
      rewrite decide_True by reflexivity. cbn [children]. eauto.
    + destruct (getFolder push [] rest currentPath) as [cs'|] eqn:Hrec;
        [|discriminate].
      intros [= <-]. apply IH in Hrec as (fc & Hfc & Hx).
      rewrite list_find_app_r by assumption.
      cbn [list_find]. rewrite decide_True.
      * cbn. eauto.
      * unfold is_folder_named. cbn [name isFolder].
        now rewrite bool_decide_eq_true_2.
Qed.

Lemma grows_refl (nodes : list FileNode) : grows nodes nodes.
Proof. intros parts fc H. eauto. Qed.

Lemma grows_trans (n1 n2 n3 : list FileNode) :
  grows n1 n2 -> grows n2 n3 -> grows n1 n3.
Proof.
  intros H12 H23 parts fc H.
  destruct (H12 parts fc H) as (fc2 & H2 & Hin2).
  destruct (H23 parts fc2 H2) as (fc3 & H3 & Hin3).
  exists fc3. split; [exact H3|]. auto.
Qed.

Lemma grows_app (nodes extra : list FileNode) : grows nodes (nodes ++ extra).
Proof.
  intros [|part rest] fc; cbn [resolve].
  - intros [= <-]. eexists. split; [reflexivity|].
    intros f Hf _. apply elem_of_app. now left.
  - destruct (list_find _ nodes) as [[k folder]|] eqn:Hfind; [|discriminate].
    rewrite (list_find_app_l _ _ _ _ _ Hfind). eauto.
Qed.

(** What [getFolder] and the push after it do to a level keeps every
    file where its folder path finds it. *)
Lemma getFolder_grows (x : FileNode) :
  forall pathParts nodes parentPath nodes',
    getFolder (fun l => l ++ [x]) nodes pathParts parentPath = Some nodes' ->
    grows nodes nodes'.
Proof.
  induction pathParts as [|part rest IH];
    intros nodes parentPath nodes'; cbn [getFolder].
  - intros [= <-]. apply grows_app.
  - cbv zeta.
    set (currentPath := match parentPath with
                        | [] => part
                        | _ => parentPath ++ [SLASH] ++ part
                        end).
    destruct (list_find _ nodes) as [[k folder]|] eqn:Hfind.
    + destruct (children folder) as [cs|] eqn:Hcs; [|discriminate].
      destruct (getFolder _ cs rest currentPath) as [cs'|] eqn:Hrec;
        [|discriminate].
      intros [= <-]. apply IH in Hrec.
      apply list_find_Some in Hfind as (Hk & Hnamed & _).
      apply is_folder_named_spec in Hnamed as [_ Hfolder].
      intros [|part2 rest2] fc; cbn [resolve].
      * intros [= <-]. eexists. split; [reflexivity|].
        intros f Hf Hfile.
        apply list_elem_of_lookup in Hf as [i Hi].
        apply list_elem_of_lookup. exists i.
        rewrite list_lookup_insert_ne; [exact Hi|].
        intros <-. congruence.
      * destruct (list_find _ nodes) as [[j g]|] eqn:Hfind2; [|discriminate].
        rewrite (list_find_insert_equiv _ nodes k j folder _ g Hk
                   (is_folder_named_rebuilt part2 folder cs') Hfind2).
        destruct (decide (j = k)) as [->|Hne]; [|eauto].
        apply list_find_Some in Hfind2 as (Hk2 & _ & _).
        assert (g = folder) as -> by congruence.
        cbn [children]. rewrite Hcs. apply Hrec.
    + destruct (getFolder _ [] rest currentPath) as [cs'|] eqn:Hrec;
        [|discriminate].
      intros [= <-]. apply grows_app.
Qed.

Lemma parseJarFile_step_located (root root' : list FileNode)
    (entry : list Z * ZipObject) :
  parseJarFile_step root entry = Some root' ->
  grows root root' /\ Forall (located root') (kept [entry]).
Proof.
  unfold parseJarFile_step, kept.
  change (omap ?f [entry])
    with (match f entry with Some y => [y] | None => [] end).
  cbv beta.
  destruct (dir entry.2).
  { intros [= <-]. split; [apply grows_refl|constructor]. }
  destruct (default [] (last (split_on SLASH entry.1))) as [|c fileName].
  { intros [= <-]. split; [apply grows_refl|constructor]. }
  destruct (async_uint8array entry.2) as [bytes|]; [|discriminate].
  intros H. split; [now apply getFolder_grows in H|].
  constructor; [|constructor].
  apply (getFolder_resolves _ (mkFileNode (c :: fileName) entry.1 false None
                                          (Some bytes))) in H.
  - exact H.
  - intros l. apply elem_of_app. right. now apply list_elem_of_singleton.
Qed.

Lemma located_grows (nodes nodes' : list FileNode)
    (file : list Z * list Z * list byte) :
  grows nodes nodes' -> located nodes file -> located nodes' file.
Proof.
  intros Hg (fc & Hfc & Hin).
  destruct (Hg _ _ Hfc) as (fc' & Hfc' & Hkeep).
  exists fc'. split; [exact Hfc'|]. now apply Hkeep.
Qed.

Lemma parseJarFile_loop_located (entries : list (list Z * ZipObject)) :
  forall root tree,
    parseJarFile_loop entries root = Some tree ->
    grows root tree /\ Forall (located tree) (kept entries).
Proof.
  induction entries as [|entry entries IH]; intros root tree;
    cbn [parseJarFile_loop].
  - intros [= <-]. split; [apply grows_refl|constructor].
  - destruct (parseJarFile_step root entry) as [root'|] eqn:E; [|discriminate].
    intros H. apply IH in H as [Hg Hl].
    apply parseJarFile_step_located in E as [Hg' Hl'].
    split; [now apply (grows_trans _ root')|].
    rewrite (kept_cons entry entries). apply Forall_app. split; [|exact Hl].
    eapply Forall_impl; [exact Hl'|]. intros file. now apply located_grows.
Qed.

(** X17: every file of the archive lies where its path says: following
    from the root, for each part of the path before the last, the first
    folder of that name leads to an array that holds the file node with
    the last part as name, the whole path as path and the bytes of the
    entry. *)
Theorem files_lie_where_their_path_says (entries : list (list Z * ZipObject))
    (tree : list FileNode) :
  parseJarFile entries = Some tree ->
  Forall (located tree) (kept entries).
Proof.
  intros H. now apply parseJarFile_loop_located in H as [_ H].
Qed.

Lemma files_lie_where_their_path_says_witness :
  Forall (located (default [] (parseJarFile jar_entries))) (kept jar_entries).
Proof.
  apply (files_lie_where_their_path_says jar_entries
           (default [] (parseJarFile jar_entries))).
  vm_compute. reflexivity.
Defined.

Lemma getFolder_paths (x : FileNode) :
  isFolder x = false ->
  forall pathParts nodes parentPath nodes',
    Forall node_ok nodes ->
    Forall (paths_ok parentPath) nodes ->
    getFolder (fun l => l ++ [x]) nodes pathParts parentPath = Some nodes' ->
    Forall (paths_ok parentPath) nodes'.
Proof.
  intros Hx. induction pathParts as [|part rest IH];
    intros nodes parentPath nodes' Hok Hpaths; cbn [getFolder].
  - intros [= <-]. apply Forall_app. split; [exact Hpaths|].
    constructor; [now constructor|constructor].
  - cbv zeta.
    set (currentPath := match parentPath with
                        | [] => part
                        | _ => parentPath ++ [SLASH] ++ part
                        end).
    destruct (list_find _ nodes) as [[k folder]|] eqn:Hfind.
    + apply list_find_Some in Hfind as (Hk & Hnamed & _).
      apply is_folder_named_spec in Hnamed as [Hname Hfolder].
      apply list_elem_of_lookup_2 in Hk.
      pose proof Hok as Hfok. pose proof Hpaths as Hfp.
      rewrite Forall_forall in Hfok, Hfp.
      specialize (Hfok folder Hk). specialize (Hfp folder Hk).
      destruct Hfp as [pp n Hfile|pp nm cs Hcs]; [congruence|].
      cbn [children name path isFolder content] in *. subst nm.
      fold currentPath in Hcs |- *.
      destruct (getFolder _ cs rest currentPath) as [cs'|] eqn:Hrec;
        [|discriminate].
      intros [= <-]. apply Forall_insert; [exact Hpaths|].
      apply (folder_paths_ok pp part cs'). fold currentPath.
      apply (IH cs currentPath cs'); [|exact Hcs|exact Hrec].
      inversion Hfok; assumption.
    + destruct (getFolder _ [] rest currentPath) as [cs'|] eqn:Hrec;
        [|discriminate].
      intros [= <-]. apply Forall_app. split; [exact Hpaths|].
      constructor; [|constructor].
      apply (folder_paths_ok parentPath part cs'). fold currentPath.
      apply (IH [] currentPath cs'); [constructor|constructor|exact Hrec].
Qed.

Lemma parseJarFile_loop_paths (entries : list (list Z * ZipObject)) :
  forall root tree,
    Forall node_ok root -> NoDup (folder_names root) ->
    Forall (paths_ok []) root ->
    parseJarFile_loop entries root = Some tree ->
    Forall (paths_ok []) tree.
Proof.
  induction entries as [|entry entries IH]; intros root tree Hok Hnd Hpaths;
    cbn [parseJarFile_loop].
  - now intros [= <-].
  - destruct (parseJarFile_step root entry) as [root'|] eqn:E; [|discriminate].
    destruct (parseJarFile_step_ok root entry Hok Hnd) as [Hstep Hback].
    destruct (Hstep (Hback (ex_intro _ root' E)))
      as (root'' & E' & Hok' & Hnd').
    rewrite E in E'. injection E' as <-.
    apply IH; [assumption..|].
    revert E. unfold parseJarFile_step.
    destruct (dir entry.2); [now intros [= <-]|].
    destruct (default [] (last (split_on SLASH entry.1))) as [|c fileName];
      [now intros [= <-]|].
    destruct (async_uint8array entry.2) as [bytes|]; [|discriminate].
    now apply getFolder_paths.
Qed.

(** X18: in the tree of an archive the path of a folder is the path of
    the folder it lies in, a slash and its name, and its name alone at
    the root and wherever the enclosing path is empty. *)
Theorem folder_paths_follow_names (entries : list (list Z * ZipObject))
    (tree : list FileNode) :
  parseJarFile entries = Some tree ->
  Forall (paths_ok []) tree.
Proof.
  apply parseJarFile_loop_paths; constructor.
Qed.

Lemma folder_paths_follow_names_witness :
  Forall (paths_ok []) (default [] (parseJarFile jar_entries)).
Proof.
  apply (folder_paths_follow_names jar_entries
           (default [] (parseJarFile jar_entries))).
  vm_compute. reflexivity.
Defined.

(** ** The hexadecimal dump of a string *)

Lemma byte_hex_digits (unicode_upper : Z -> list Z) (b : byte) :
  exists hi lo,
    byte_hex unicode_upper b = [hi; lo] /\
    isUpperHex hi = true /\ isUpperHex lo = true /\
    hex_value hi = Some (u8 b / 16) /\ hex_value lo = Some (u8 b mod 16).
Proof.
  destruct b; do 2 eexists; (split; [reflexivity|]); repeat split.
Qed.

Lemma byte_hex_inj (unicode_upper : Z -> list Z) (b1 b2 : byte) :
  byte_hex unicode_upper b1 = byte_hex unicode_upper b2 -> b1 = b2.
Proof.
  destruct (byte_hex_digits unicode_upper b1) as (h1 & l1 & -> & _ & _ & Hh1 & Hl1).
  destruct (byte_hex_digits unicode_upper b2) as (h2 & l2 & -> & _ & _ & Hh2 & Hl2).
  intros [= <- <-]. apply u8_inj.
  rewrite (Z.div_mod (u8 b1) 16), (Z.div_mod (u8 b2) 16) by lia.
  congruence.
Qed.

Lemma join_byte_hex (unicode_upper : Z -> list Z) (b : byte) (bs : list byte) :
  exists hi lo,
    byte_hex unicode_upper b = [hi; lo] /\
    isUpperHex hi = true /\ isUpperHex lo = true /\
    join [32] (map (byte_hex unicode_upper) (b :: bs))
    = hi :: lo :: match bs with
                  | [] => []
                  | _ => 32 :: join [32] (map (byte_hex unicode_upper) bs)
                  end.
Proof.
  destruct (byte_hex_digits unicode_upper b) as (hi & lo & E & Hhi & Hlo & _).
  exists hi, lo. repeat split; try assumption.
  cbn [map join]. rewrite E. now destruct bs.
Qed.

Lemma join_byte_hex_inj (unicode_upper : Z -> list Z) (bs1 : list byte) :
  forall bs2,
    join [32] (map (byte_hex unicode_upper) bs1)
    = join [32] (map (byte_hex unicode_upper) bs2) ->
    bs1 = bs2.
Proof.
  induction bs1 as [|b1 bs1 IH]; intros [|b2 bs2] H.
  - reflexivity.
  - destruct (join_byte_hex unicode_upper b2 bs2) as (h & l & _ & _ & _ & E).
    rewrite E in H. discriminate.
  - destruct (join_byte_hex unicode_upper b1 bs1) as (h & l & _ & _ & _ & E).
    rewrite E in H. discriminate.
  - destruct (join_byte_hex unicode_upper b1 bs1) as (h1 & l1 & T1 & _ & _ & E1).
    destruct (join_byte_hex unicode_upper b2 bs2) as (h2 & l2 & T2 & _ & _ & E2).
    rewrite E1, E2 in H. injection H as <- <- H.
    assert (b1 = b2) as <- by (apply (byte_hex_inj unicode_upper); congruence).
    f_equal. apply IH.
    destruct bs1 as [|c1 bs1], bs2 as [|c2 bs2]; try discriminate;
      [reflexivity|]. now injection H.
Qed.

Lemma join_byte_hex_shape (unicode_upper : Z -> list Z) (bs : list byte) :
  Forall (fun c => c = 32 \/ isUpperHex c = true)
         (join [32] (map (byte_hex unicode_upper) bs)) /\
  Z.of_nat (length (join [32] (map (byte_hex unicode_upper) bs)))
  = match bs with
    | [] => 0
    | _ => 3 * Z.of_nat (length bs) - 1
    end.
Proof.
  induction bs as [|b bs [IH1 IH2]]; [split; [constructor|reflexivity]|].
  destruct (join_byte_hex unicode_upper b bs) as (h & l & _ & Hh & Hl & ->).
  split.
  - constructor; [now right|]. constructor; [now right|].
    destruct bs; [constructor|]. constructor; [now left|exact IH1].
  - destruct bs as [|c bs]; [reflexivity|].
    cbn [length] in *. lia.
Qed.

(** X19: the dump of a string is two upper-case hexadecimal digits for
    each byte of its UTF-8 encoding, with one space between bytes and
    none at the ends, so it is empty for the empty string and 3n - 1
    characters long for n bytes; two strings have the same dump only if
    they have the same encoding; and none of this depends on the case
    tables of the engine. *)
Theorem compileStringToBytecode_dump (unicode_upper : Z -> list Z)
    (input : list Z) :
  Forall (fun c => c = 32 \/ isUpperHex c = true)
         (compileStringToBytecode unicode_upper input) /\
  Z.of_nat (length (compileStringToBytecode unicode_upper input))
  = match encode input with
    | [] => 0
    | _ => 3 * Z.of_nat (length (encode input)) - 1
    end /\
  (forall input',
      compileStringToBytecode unicode_upper input
      = compileStringToBytecode unicode_upper input' ->
      encode input = encode input') /\
  (forall unicode_upper',
      compileStringToBytecode unicode_upper' input
      = compileStringToBytecode unicode_upper input).
Proof.
  unfold compileStringToBytecode.
  destruct (join_byte_hex_shape unicode_upper (encode input)) as [H1 H2].
  split; [exact H1|]. split; [exact H2|]. split.
  - intros input'. apply join_byte_hex_inj.
  - intros unicode_upper'. f_equal. apply map_ext. intros b.
    destruct b; reflexivity.
Qed.

(** ** Writers and readers *)

Lemma u32_of_writeU4 (v : Z) :
  ((u8 (to_u8 (Z.land (Z.shiftr v 24) 0xFF)) * 256
    + u8 (to_u8 (Z.land (Z.shiftr v 16) 0xFF))) * 256
   + u8 (to_u8 (Z.land (Z.shiftr v 8) 0xFF))) * 256
  + u8 (to_u8 (Z.land v 0xFF))
  = v mod 4294967296.
Proof.
  rewrite !to_u8_land, !u8_to_u8, !Z.shiftr_div_pow2 by lia.
  change (2 ^ 8) with 256.
  replace (v / 2 ^ 16) with (v / 256 / 256)
    by (rewrite Z.div_div by lia; reflexivity).
  replace (v / 2 ^ 24) with (v / 256 / 256 / 256)
    by (rewrite !Z.div_div by lia; reflexivity).
  pose proof (Z.div_mod v 256 ltac:(lia)).
  pose proof (Z.div_mod (v / 256) 256 ltac:(lia)).
  pose proof (Z.div_mod (v / 256 / 256) 256 ltac:(lia)).
  pose proof (Z.div_mod (v / 256 / 256 / 256) 256 ltac:(lia)).
  pose proof (Z.mod_pos_bound v 256 ltac:(lia)).
  pose proof (Z.mod_pos_bound (v / 256) 256 ltac:(lia)).
  pose proof (Z.mod_pos_bound (v / 256 / 256) 256 ltac:(lia)).
  pose proof (Z.mod_pos_bound (v / 256 / 256 / 256) 256 ltac:(lia)).
  apply (Z.mod_unique_pos v 4294967296 (v / 256 / 256 / 256 / 256)); lia.
Qed.

(** X20: the writers of the assembler are the big-endian inverses of the
    DataView reads: what [writeU1], [writeU2] and [writeU4] push, once
    in the byte array, is read by [getUint8], [getUint16] and
    [getUint32] as the value written modulo 2^8, 2^16 and 2^32, so a
    value in range is read back unchanged. *)
Theorem writers_invert_readers (v : Z) (post : list byte) :
  getUint8 (Uint8Array_of (writeU1 v) ++ post) 0 = Ok (v mod 256) /\
  getUint16 (Uint8Array_of (writeU2 v) ++ post) 0 = Ok (v mod 65536) /\
  getUint32 (Uint8Array_of (writeU4 v) ++ post) 0 = Ok (v mod 4294967296).
Proof.
  split; [|split].
  - rewrite Uint8Array_of_writeU1.
    change (getUint8 ([to_u8 v] ++ post) 0) with (Ok (u8 (to_u8 v))).
    now rewrite u8_to_u8.
  - apply length_field_read_back.
  - cbn [Uint8Array_of writeU4 map app]. rewrite <- u32_of_writeU4.
    reflexivity.
Qed.

(** ** Texts through the encoder and the decoder *)

(** X21: a string that is the UTF-16 form of scalar values comes back
    from the encoder and the decoder as itself, less a byte-order mark
    at its start: a replacement text that begins with U+FEFF is read
    back without it, every other well-formed text unchanged. *)
Theorem text_through_encoder_and_decoder (cps : list Z) :
  Forall scalar cps ->
  decode (encode (flat_map cp_units cps)) = flat_map cp_units (strip_bom cps).
Proof.
  intros Hs. unfold decode, encode.
  assert (Hrange : Forall (fun b => 0 <= b < 256) (flat_map utf8_bytes cps)).
  { induction Hs as [|cp cps Hcp _ IH]; [constructor|].
    cbn [flat_map]. apply Forall_app.
    split; [now apply utf8_bytes_range | exact IH]. }
  rewrite scalar_values_units by assumption.
  change (map u8 ?l) with (writeBytes l).
  now rewrite writeBytes_Uint8Array_of, decode_encoded by assumption.
Qed.

Lemma text_through_encoder_and_decoder_witness :
  decode (encode (flat_map cp_units [65279; 72; 233; 128512]))
  = flat_map cp_units (strip_bom [65279; 72; 233; 128512]).
Proof.
  apply (text_through_encoder_and_decoder [65279; 72; 233; 128512]).
  repeat (apply Forall_cons; split; [unfold scalar; lia|]).
  apply Forall_nil_2.
Defined.

(** ** A pool without entries *)

Lemma writeU2_of_bytes (hi lo : byte) :
  Uint8Array_of (writeU2 (u8 hi * 256 + u8 lo)) = [hi; lo].
Proof.
  unfold Uint8Array_of, writeU2. cbn [map]. rewrite !to_u8_land.
  rewrite Z.shiftr_div_pow2 by lia. change (2 ^ 8) with 256.
  pose proof (u8_range hi). pose proof (u8_range lo).
  replace ((u8 hi * 256 + u8 lo) / 256) with (u8 hi)
    by (apply (Z.div_unique_pos _ 256 _ (u8 lo)); lia).
  rewrite to_u8_u8. f_equal. f_equal.
  rewrite <- (to_u8_u8 lo) at 2. unfold to_u8. do 3 f_equal.
  rewrite Z.add_comm, Z.mod_add by lia. reflexivity.
Qed.

(** The header copy, the pool count and the rest of a buffer whose pool
    ends at offset 10 are the buffer. *)
Lemma header_copy (original : list byte) (cpCount : Z) :
  getUint16 original 8 = Ok cpCount ->
  Uint8Array_of (writeBytes (take 8 original) ++ writeU2 cpCount
                 ++ writeBytes (slice_from original 10))
  = original.
Proof.
  intros H.
  destruct original as [|b0 [|b1 [|b2 [|b3 [|b4 [|b5 [|b6 [|b7 [|hi [|lo rest]]]]]]]]]];
    try discriminate H.
  injection H as <-.
  rewrite !Uint8Array_of_app, !Uint8Array_of_writeBytes, writeU2_of_bytes.
  reflexivity.
Qed.

(** X22: on a buffer with the magic number whose constant-pool count is
    0 or 1, no entry is read: extraction returns the header alone, the
    reference pass its header alone, and the assembler gives the buffer
    back byte for byte whatever the config text. *)
Theorem empty_pool_is_untouched (unicode_L : Z -> bool) (original : list byte)
    (cpCount : Z) (editorText fileName : list Z) :
  getUint32 original 0 = Ok MAGIC ->
  getUint16 original 8 = Ok cpCount ->
  cpCount <= 1 ->
  extractStringsFromClass unicode_L original fileName
  = Ok (config_header fileName) /\
  extractReadableStrings unicode_L original = Ok reference_header /\
  assembleClassFile unicode_L original editorText = Ok original.
Proof.
  intros Hmagic Hcount Hle.
  assert (E : (1 <? cpCount) = false) by (apply Z.ltb_ge; lia).
  unfold extractStringsFromClass, extract_walk, extractReadableStrings,
    readable_walk, assembleClassFile, assemble_walk.
  rewrite Hmagic, Hcount, Z.eqb_refl. cbn [negb]. cbv zeta.
  destruct (Z.to_nat cpCount);
    cbn [extract_loop readable_loop assemble_loop]; rewrite E; cbn [negb snd];
    (split; [reflexivity|split; [reflexivity|]]); f_equal;
    rewrite <- app_assoc; now apply header_copy.
Qed.

Lemma empty_pool_is_untouched_witness :
  extractStringsFromClass no_letters
    (magic_bytes ++ version52 ++ [x00; x01; x09]) (js "A.class")
  = Ok (config_header (js "A.class")) /\
  extractReadableStrings no_letters (magic_bytes ++ version52 ++ [x00; x01; x09])
  = Ok reference_header /\
  assembleClassFile no_letters (magic_bytes ++ version52 ++ [x00; x01; x09])
    (config_body (js "0") (js "Fine"))
  = Ok (magic_bytes ++ version52 ++ [x00; x01; x09]).
Proof.
  apply (empty_pool_is_untouched no_letters
           (magic_bytes ++ version52 ++ [x00; x01; x09]) 1
           (config_body (js "0") (js "Fine")) (js "A.class")).
  - reflexivity.
  - reflexivity.
  - lia.
Defined.

(** ** Two saves in a row *)

Lemma replacements_step_union (m : gmap Z (list Z)) (line : list Z) :
  replacements_step m line = replacements_step ∅ line ∪ m.
Proof.
  unfold replacements_step. destruct (edit_match line) as [[d v]|].
  - now rewrite insert_union_singleton_l, insert_empty.
  - now rewrite (left_id_L ∅ (∪)).
Qed.

Lemma replacements_fold_union (lines : list (list Z)) :
  forall m,
    fold_left replacements_step lines m
    = fold_left replacements_step lines ∅ ∪ m.
Proof.
  induction lines as [|l lines IH]; intros m; cbn [fold_left].
  - now rewrite (left_id_L ∅ (∪)).
  - rewrite IH, (IH (replacements_step ∅ l)), (replacements_step_union m l).
    now rewrite (assoc_L (∪)).
Qed.

(** The edit set of two texts, one after the other: the later lines win. *)
Lemma parse_replacements_app (text1 text2 : list Z) :
  parse_replacements (text1 ++ NEWLINE :: text2)
  = parse_replacements text2 ∪ parse_replacements text1.
Proof.
  unfold parse_replacements.
  rewrite split_lines_app_newline, fold_left_app.
  apply replacements_fold_union.
Qed.

Lemma edited_twice (unicode_L : Z -> bool) (r1 r2 : gmap Z (list Z))
    (es : list entry) :
  (forall k t, r1 !! k = Some t ->
               isValidString unicode_L (decode (encode t)) = true) ->
  forall stringIndex,
    edited unicode_L r2 stringIndex (edited unicode_L r1 stringIndex es)
    = edited unicode_L (r2 ∪ r1) stringIndex es.
Proof.
  intros Hnice. induction es as [|e es IH]; intros stringIndex; [reflexivity|].
  destruct e as [raw|tag payload]; cbn [edited].
  - destruct (isValidString unicode_L (decode raw)) eqn:Hok.
    + destruct (r1 !! stringIndex) as [t1|] eqn:E1; cbn [edited].
      * rewrite (Hnice _ _ E1), IH. f_equal.
        destruct (r2 !! stringIndex) as [t2|] eqn:E2.
        -- now rewrite (lookup_union_Some_l r2 r1 _ _ E2).
        -- now rewrite (lookup_union_r r2 r1 _ E2), E1.
      * rewrite Hok, IH. f_equal.
        destruct (r2 !! stringIndex) as [t2|] eqn:E2.
        -- now rewrite (lookup_union_Some_l r2 r1 _ _ E2).
        -- now rewrite (lookup_union_r r2 r1 _ E2), E1.
    + cbn [edited]. now rewrite Hok, IH.
  - cbn [edited]. now rewrite IH.
Qed.

(** X23: saving a valid class file and then saving the result with a
    second config text gives the file that one save with the first text
    followed by the second gives, the later lines winning; and saving
    twice with the same text gives what saving once gives.  The texts
    bound by the first save are to encode to fewer than 65536 bytes and
    to pass the filter when read back. *)
Theorem two_saves_compose (unicode_L : Z -> bool) (version : list byte)
    (es : list entry) (rest : list byte) (text1 text2 : list Z) :
  valid_class version es ->
  (forall k t, parse_replacements text1 !! k = Some t ->
               Z.of_nat (length (encode t)) < 65536 /\
               isValidString unicode_L (decode (encode t)) = true) ->
  rbind (assembleClassFile unicode_L (class_bytes version es rest) text1)
        (fun out => assembleClassFile unicode_L out text2)
  = assembleClassFile unicode_L (class_bytes version es rest)
      (text1 ++ NEWLINE :: text2) /\
  rbind (assembleClassFile unicode_L (class_bytes version es rest) text1)
        (fun out => assembleClassFile unicode_L out text1)
  = assembleClassFile unicode_L (class_bytes version es rest) text1.
Proof.
  intros Hvalid Hnice.
  assert (Hvalid' : valid_class version
                      (edited unicode_L (parse_replacements text1) 0 es)).
  { apply edited_valid; [exact Hvalid|]. intros k t H. now apply Hnice in H. }
  assert (Htwice : forall r2,
             edited unicode_L r2 0
               (edited unicode_L (parse_replacements text1) 0 es)
             = edited unicode_L (r2 ∪ parse_replacements text1) 0 es).
  { intros r2. apply edited_twice. intros k t H. now apply Hnice in H. }
  rewrite !(assemble_class unicode_L version es rest _ Hvalid).
  rewrite !assembled_edited by apply Hvalid. cbn [rbind].
  rewrite !(assemble_class unicode_L version _ rest _ Hvalid').
  rewrite !assembled_edited by apply Hvalid'.
  rewrite !Htwice, parse_replacements_app.
  split; [reflexivity|]. now rewrite (idemp_L (∪)).
Qed.

Lemma two_saves_compose_witness :
  rbind (assembleClassFile no_letters (class_bytes version52 ok_entries [x09])
           (config_body (js "0") (js "Fine")))
        (fun out => assembleClassFile no_letters out
                      (config_body (js "0") (js "Good")))
  = assembleClassFile no_letters (class_bytes version52 ok_entries [x09])
      (config_body (js "0") (js "Fine") ++ NEWLINE ::
       config_body (js "0") (js "Good")) /\
  rbind (assembleClassFile no_letters (class_bytes version52 ok_entries [x09])
           (config_body (js "0") (js "Fine")))
        (fun out => assembleClassFile no_letters out
                      (config_body (js "0") (js "Fine")))
  = assembleClassFile no_letters (class_bytes version52 ok_entries [x09])
      (config_body (js "0") (js "Fine")).
Proof.
  apply (two_saves_compose no_letters version52 ok_entries [x09]
           (config_body (js "0") (js "Fine"))
           (config_body (js "0") (js "Good"))).
  - exact valid_ok_class.
  - intros k t H. apply one_edit_bindings in H as [_ ->].
    split; vm_compute; reflexivity.
Defined.
